(** * Map Machine: the drawing order of [map_machine/mapper.py]

    A shallow embedding of the class [Map] of [mapper.py] (methods
    [__init__], [draw], [draw_buildings] and [draw_roads]) and the
    properties of the order in which it puts elements on the SVG canvas.

    Conventions of the embedding.
    - Python numbers ([float] and [int] keys: priorities, layers, heights,
      scales) are rationals [Q].  Every finite float is a rational and the
      comparisons [<], [>], [==] of Python agree with [Qlt], [Qle], [Qeq] on
      them; rounding of float arithmetic and NaN are not modelled.
    - The canvas [self.svg] is the list of elements added to it, oldest
      first.  A call of a method of another module that receives the canvas
      ([road.draw(self.svg, ...)], [building.draw_walls(self.svg, ...)], ...)
      is recorded as one element that keeps the receiver and the arguments
      that vary; the fixed arguments [self.svg], [self.flinger] and
      [self.scheme] are the fields of the [Map] and are not repeated.
    - [progress_bar] only prints to the console and is left out.
    - A [dict] is an association list in insertion order (the iteration
      order of Python dicts).  A [set] of objects hashed by identity is the
      list of its members; the order in which Python iterates over such a
      set is not fixed by the program and is a parameter [order] wherever
      the code iterates over one. *)

From Stdlib Require Import List String Bool Arith ZArith QArith Lia Lqa.
From Stdlib Require Import Permutation Sorted SetoidList.
Import ListNotations.

Local Open Scope Q_scope.

(** ** Python numbers *)

(** [a < b] on Python numbers. *)
Definition Qlt_bool (a b : Q) : bool := negb (Qle_bool b a).

(** Equality of the representation (numerator and denominator), used for
    the identity of records that hold numbers. *)
Definition Q_eq_dec (a b : Q) : {a = b} + {a <> b}.
Proof. decide equality; [apply Pos.eq_dec | apply Z.eq_dec]. Defined.

(** ** Loops *)

(** [for x in l: body], threading the state [s] the body updates. *)
Definition for_ {A S : Type} (l : list A) (body : A -> S -> S) (s : S) : S :=
  fold_left (fun s x => body x s) l s.

(** ** [sorted(iterable, key=...)]

    Python's [sorted] is a stable sort in ascending order of the keys.  The
    result of a stable sort does not depend on the algorithm; the model is
    the insertion sort that inserts each element before the first element
    with a key that is not smaller. *)
Section SortedByKey.
Context {A : Type} (key : A -> Q).

Fixpoint insert (x : A) (l : list A) : list A :=
  match l with
  | [] => [x]
  | y :: l' =>
      if Qle_bool (key x) (key y) then x :: y :: l' else y :: insert x l'
  end.

Definition sorted (l : list A) : list A := fold_right insert [] l.

(** The order of the result: ascending keys. *)
Definition key_le (a b : A) : Prop := key a <= key b.
End SortedByKey.

(** ** [dict] in insertion order *)
Section Dict.
Context {K V : Type} (eqb : K -> K -> bool).

Definition dict := list (K * V).

(** [d.get(k)] or [d[k]] when present *)
Fixpoint dict_get (k : K) (d : dict) : option V :=
  match d with
  | [] => None
  | (k', v) :: d' => if eqb k k' then Some v else dict_get k d'
  end.

(** [k in d] *)
Definition dict_mem (k : K) (d : dict) : bool :=
  match dict_get k d with Some _ => true | None => false end.

(** [d[k] = v]: a present key keeps its place, a new key goes last. *)
Fixpoint dict_set (k : K) (v : V) (d : dict) : dict :=
  match d with
  | [] => [(k, v)]
  | (k', v') :: d' =>
      if eqb k k' then (k', v) :: d' else (k', v') :: dict_set k v d'
  end.

(** [d.keys()] *)
Definition dict_keys (d : dict) : list K := map fst d.
End Dict.

(** ** Data model

    The classes below are defined in other modules of the package; each
    record has the attributes and methods [mapper.py] reads.  Buildings,
    points, trees, craters and direction sectors, which [mapper.py] hands
    to their own drawing methods, also have a field for the identity of
    the object, so that two objects with equal attributes can be told
    apart on the canvas. *)

(** [colour.Color], by its hexadecimal code. *)
Definition Color := string.

(** A [numpy] array of two numbers: a geographic or a canvas point. *)
Definition Vector := (Q * Q)%type.

(** [Flinger]: the projector. [get_scale] has an optional coordinate. *)
Record Flinger := {
  size : Vector;
  fling : Vector -> Vector;
  get_scale : option Vector -> Q
}.

Record Scheme := { get_color : string -> Color }.

(** Modelled from the spec: the enumeration [LabelMode] is declared in
    [map_configuration.py]; the source names [LabelMode.NO] only, the spec
    lists the label display modes off / all / only-when-space. *)
Inductive LabelMode := NO | ALL | WHEN_SPACE.

(** Modelled from the spec: the enumeration [BuildingMode] is declared in
    [ui.py]; the source names [BuildingMode.FLAT] only, the spec lists the
    building modes flat / extruded.  [OTHER] stands for any further value
    the configuration may hold. *)
Inductive BuildingMode := FLAT | EXTRUDED | OTHER (name : string).

Record MapConfiguration := {
  is_wireframe : bool;
  label_mode : LabelMode;
  building_mode : BuildingMode;
  overlap : Z
}.

Record LineStyle := { style : list (string * string); priority : Q }.

Record StyledFigure := {
  line_style : LineStyle;
  get_path : Flinger -> string
}.

Record OSMNode := { id_ : Z; coordinates : Vector }.

Record RoadMatcher := { border_color : Color; color : Color }.

Record Road := {
  outers : list (list OSMNode);
  inners : list (list OSMNode);
  lanes : Q;
  layer : Q;
  matcher : RoadMatcher
}.

Record Building := { building_id : nat; height : Q; min_height : Q }.

Record Point := { point_id : nat; point_priority : Q }.

Record Tree := { tree_id : nat }.
Record Crater := { crater_id : nat }.
Record DirectionSector := { sector_id : nat }.

(** [Occupied(width, height, overlap)] *)
Record Occupied := {
  occupied_width : Q;
  occupied_height : Q;
  occupied_overlap : Z
}.

(** [RoadPart(point_1, point_2, lanes, scale)].  The class defines no
    equality, so a set of road parts is keyed by object identity:
    [part_id] is the identity the object gets when it is created. *)
Record RoadPart := {
  part_id : nat;
  point_1 : Vector;
  point_2 : Vector;
  part_lanes : Q;
  part_scale : Q
}.

Record Constructor := {
  figures : list StyledFigure;
  roads : list Road;
  trees : list Tree;
  craters : list Crater;
  direction_sectors : list DirectionSector;
  buildings : list Building;
  heights : list Q;      (* a set of numbers, in its iteration order *)
  points : list Point
}.

(** Elements on the canvas: the two elements [draw] builds itself ([Rect]
    and [SVGPath]), the group of shades of [draw_buildings] with the
    buildings whose [draw_shade] drew into it, and one element per call
    of a drawing method of another class:
    [road.draw(svg, flinger, colour[, extra_width])],
    [tree.draw], [crater.draw], [direction_sector.draw], [building.draw],
    [building.draw_walls(svg, height, previous_height, scale)],
    [building.draw_roof(svg, flinger, scale)],
    [point.draw_main_shapes(svg, occupied)],
    [point.draw_extra_shapes(svg, occupied)],
    [point.draw_texts(svg, occupied, label_mode)] and
    [Intersection(parts).draw(svg, True)]. *)
Inductive Element :=
| Rect (insert_at : Vector) (extent : Vector) (fill : Color)
| SVGPath (d : string) (attributes : list (string * string))
| RoadDraw (road : Road) (stroke : Color) (extra_width : option Q)
| TreeDraw (tree : Tree)
| CraterDraw (crater : Crater)
| DirectionSectorDraw (sector : DirectionSector)
| BuildingDraw (building : Building)
| Group (opacity : Q) (shades : list Building)
| DrawWalls (building : Building) (height previous_height scale : Q)
| DrawRoof (building : Building) (scale : Q)
| DrawMainShapes (point : Point) (occupied : option Occupied)
| DrawExtraShapes (point : Point) (occupied : option Occupied)
| DrawTexts (point : Point) (occupied : option Occupied) (mode : LabelMode)
| IntersectionDraw (parts : list RoadPart) (argument : bool).

Definition Drawing := list Element.

(** [svg.add(element)] *)
Definition svg_add (svg : Drawing) (e : Element) : Drawing := svg ++ [e].

(** ** class [Map] *)

Record Map := {
  flinger : Flinger;
  scheme : Scheme;
  configuration : MapConfiguration;
  background_color : Color
}.

(** [Map.__init__] *)
Definition Map_init (flinger : Flinger) (scheme : Scheme)
    (configuration : MapConfiguration) : Map :=
  let background_color := get_color scheme "background_color" in
  let background_color :=
    if is_wireframe configuration then "#111111"%string
    else background_color in
  {| flinger := flinger; scheme := scheme; configuration := configuration;
     background_color := background_color |}.

Definition BuildingMode_eqb (a b : BuildingMode) : bool :=
  match a, b with
  | FLAT, FLAT => true
  | EXTRUDED, EXTRUDED => true
  | OTHER x, OTHER y => String.eqb x y
  | _, _ => false
  end.

Definition LabelMode_eqb (a b : LabelMode) : bool :=
  match a, b with
  | NO, NO | ALL, ALL | WHEN_SPACE, WHEN_SPACE => true
  | _, _ => false
  end.

(** Truth value of a Python string: the empty string is false. *)
Definition truthy (s : string) : bool :=
  match s with EmptyString => false | _ => true end.

(** [Map.draw_buildings] *)
Definition draw_buildings (self : Map) (constructor : Constructor)
    (svg : Drawing) : Drawing :=
  if BuildingMode_eqb (building_mode (configuration self)) FLAT then
    for_ (buildings constructor)
      (fun building svg => svg_add svg (BuildingDraw building)) svg
  else
    let scale := get_scale (flinger self) None / 3 in
    let building_shade :=
      for_ (buildings constructor)
        (fun building shade => shade ++ [building]) [] in
    let svg := svg_add svg (Group (1 # 10) building_shade) in
    let '(svg, _) :=
      for_ (sorted (fun h => h) (heights constructor))
        (fun height_ '(svg, previous_height) =>
           let svg :=
             for_ (buildings constructor)
               (fun building svg =>
                  if Qlt_bool (height building) height_
                     || Qlt_bool height_ (min_height building)
                  then svg
                  else svg_add svg
                         (DrawWalls building height_ previous_height scale))
               svg in
           let svg :=
             for_ (buildings constructor)
               (fun building svg =>
                  if Qeq_bool (height building) height_
                  then svg_add svg (DrawRoof building scale)
                  else svg)
               svg in
           (svg, height_))
        (svg, 0) in
    svg.

(** [Map.draw] *)
Definition draw (self : Map) (constructor : Constructor) (svg : Drawing)
    : Drawing :=
  let svg :=
    svg_add svg (Rect (0, 0) (size (flinger self)) (background_color self)) in
  let ways := sorted (fun x => priority (line_style x)) (figures constructor) in
  let svg :=
    for_ ways
      (fun way svg =>
         let path_commands := get_path way (flinger self) in
         if truthy path_commands
         then svg_add svg (SVGPath path_commands (style (line_style way)))
         else svg)
      svg in

  let layered_roads : dict (K := Q) (V := list Road) :=
    for_ (roads constructor)
      (fun road layered_roads =>
         let layered_roads :=
           if negb (dict_mem Qeq_bool (layer road) layered_roads)
           then dict_set Qeq_bool (layer road) [] layered_roads
           else layered_roads in
         match dict_get Qeq_bool (layer road) layered_roads with
         | Some l => dict_set Qeq_bool (layer road) (l ++ [road]) layered_roads
         | None => layered_roads     (* not reached: the key was just set *)
         end)
      [] in

  let svg :=
    for_ (sorted (fun k => k) (dict_keys layered_roads))
      (fun layer_ svg =>
         match dict_get Qeq_bool layer_ layered_roads with
         | None => svg               (* not reached: [layer_] is a key *)
         | Some roads =>
             let svg :=
               for_ roads
                 (fun road svg =>
                    svg_add svg
                      (RoadDraw road (border_color (matcher road)) (Some 2)))
                 svg in
             for_ roads
               (fun road svg =>
                  svg_add svg (RoadDraw road (color (matcher road)) None))
               svg
         end)
      svg in

  let svg :=
    for_ (trees constructor) (fun tree svg => svg_add svg (TreeDraw tree))
      svg in
  let svg :=
    for_ (craters constructor) (fun tree svg => svg_add svg (CraterDraw tree))
      svg in

  let svg :=
    for_ (direction_sectors constructor)
      (fun direction_sector svg =>
         svg_add svg (DirectionSectorDraw direction_sector))
      svg in

  let svg := draw_buildings self constructor svg in

  let occupied : option Occupied :=
    if (overlap (configuration self) =? 0)%Z then None
    else Some {| occupied_width := fst (size (flinger self));
                 occupied_height := snd (size (flinger self));
                 occupied_overlap := overlap (configuration self) |} in

  let nodes := sorted (fun x => - point_priority x) (points constructor) in

  let svg :=
    for_ nodes (fun node svg => svg_add svg (DrawMainShapes node occupied))
      svg in
  let svg :=
    for_ nodes (fun point svg => svg_add svg (DrawExtraShapes point occupied))
      svg in
  for_ nodes
    (fun point svg =>
       if negb (is_wireframe (configuration self))
          && negb (LabelMode_eqb (label_mode (configuration self)) NO)
       then svg_add svg
              (DrawTexts point occupied (label_mode (configuration self)))
       else svg)
    svg.

(** ** [Map.draw_roads] *)

(** Outcome of a method that can raise. *)
Inductive exn := IndexError.

Inductive result (A : Type) :=
| Ok (a : A)
| Raise (e : exn).
Arguments Ok {A} a.
Arguments Raise {A} e.

(** An [OSMNode] is a dictionary key by the identity of the object; the
    reader keeps one object per node, which the record stands for. *)
Definition OSMNode_eq_dec (a b : OSMNode) : {a = b} + {a <> b}.
Proof.
  decide equality;
    [decide equality; apply Q_eq_dec | apply Z.eq_dec].
Defined.

Definition OSMNode_eqb (a b : OSMNode) : bool :=
  if OSMNode_eq_dec a b then true else false.

(** [parts.add(part)] on a set keyed by identity, in order of arrival. *)
Definition set_add (part : RoadPart) (parts : list RoadPart) : list RoadPart :=
  if existsb (fun q => Nat.eqb (part_id q) (part_id part)) parts
  then parts
  else parts ++ [part].

(** The state of the first loop: the number of [RoadPart] objects created
    so far, which is the identity of the next one, and the dictionary
    [nodes]. *)
Definition Nodes := dict (K := OSMNode) (V := list RoadPart).

(** The pairs [(ring[index], ring[index + 1])] for
    [index in range(len(ring) - 1)]. *)
Definition segments (ring : list OSMNode) : list (OSMNode * OSMNode) :=
  combine ring (tl ring).

(** [nodes[node].add(part)] *)
Definition nodes_add (node : OSMNode) (part : RoadPart) (nodes : Nodes)
    : Nodes :=
  match dict_get OSMNode_eqb node nodes with
  | Some parts => dict_set OSMNode_eqb node (set_add part parts) nodes
  | None => nodes                    (* not reached: the key was just set *)
  end.

(** The body of the loop over [index]. *)
Definition add_segment (self : Map) (road : Road)
    (segment : OSMNode * OSMNode) (state : nat * Nodes) : nat * Nodes :=
  let '(node_1, node_2) := segment in
  let '(next, nodes) := state in
  let point_1 := fling (flinger self) (coordinates node_1) in
  let point_2 := fling (flinger self) (coordinates node_2) in
  let scale := get_scale (flinger self) (Some (coordinates node_1)) in
  let part_1 :=
    {| part_id := next; point_1 := point_1; point_2 := point_2;
       part_lanes := lanes road; part_scale := scale |} in
  let part_2 :=
    {| part_id := S next; point_1 := point_2; point_2 := point_1;
       part_lanes := lanes road; part_scale := scale |} in
  let nodes :=
    for_ [node_1; node_2]
      (fun node nodes =>
         if negb (dict_mem OSMNode_eqb node nodes)
         then dict_set OSMNode_eqb node [] nodes
         else nodes)
      nodes in
  let nodes := nodes_add node_1 part_1 nodes in
  let nodes := nodes_add node_2 part_2 nodes in
  (S (S next), nodes).

(** The first loop of [draw_roads]: [road.outers[0]] raises [IndexError]
    for a road without an outer ring. *)
Fixpoint collect_parts (self : Map) (roads : list Road) (state : nat * Nodes)
    : result (nat * Nodes) :=
  match roads with
  | [] => Ok state
  | road :: roads' =>
      match outers road with
      | [] => Raise IndexError
      | ring :: _ =>
          collect_parts self roads'
            (for_ (segments ring) (add_segment self road) state)
      end
  end.

(** The second loop of [draw_roads]; [order parts] is [list(parts)]. *)
Definition draw_intersections (order : list RoadPart -> list RoadPart)
    (nodes : Nodes) (svg : Drawing) : Drawing :=
  for_ nodes
    (fun '(node, parts) svg =>
       if (length parts <? 4)%nat then svg
       else svg_add svg (IntersectionDraw (order parts) true))
    svg.

Definition draw_roads (order : list RoadPart -> list RoadPart) (self : Map)
    (roads : list Road) (svg : Drawing) : result Drawing :=
  match collect_parts self roads (0%nat, []) with
  | Raise e => Raise e
  | Ok (_, nodes) => Ok (draw_intersections order nodes svg)
  end.

(** ** The elements of each phase

    The definitions of this section say, in closed form, what a phase of
    [draw] adds to the canvas; the lemmas [draw_buildings_adds] and
    [draw_adds] below prove that the loops of the code compute them. *)

(** Phase 2: the paths of the figures. *)
Definition has_path (self : Map) (way : StyledFigure) : bool :=
  truthy (get_path way (flinger self)).

Definition path_of (self : Map) (way : StyledFigure) : Element :=
  SVGPath (get_path way (flinger self)) (style (line_style way)).

Definition ways_of (constructor : Constructor) : list StyledFigure :=
  sorted (fun x => priority (line_style x)) (figures constructor).

(** Phase 3: the roads. *)
Definition border_call (road : Road) : Element :=
  RoadDraw road (border_color (matcher road)) (Some 2).

Definition fill_call (road : Road) : Element :=
  RoadDraw road (color (matcher road)) None.

Definition in_layer (k : Q) (road : Road) : bool := Qeq_bool (layer road) k.

Definition group_road (road : Road)
    (layered_roads : dict (K := Q) (V := list Road)) :=
  let layered_roads :=
    if negb (dict_mem Qeq_bool (layer road) layered_roads)
    then dict_set Qeq_bool (layer road) [] layered_roads
    else layered_roads in
  match dict_get Qeq_bool (layer road) layered_roads with
  | Some l => dict_set Qeq_bool (layer road) (l ++ [road]) layered_roads
  | None => layered_roads
  end.

Definition layered_roads_of (roads : list Road) : dict :=
  for_ roads group_road [].

Definition layers_of (roads : list Road) : list Q :=
  sorted (fun k => k) (dict_keys (layered_roads_of roads)).

Definition layer_calls (roads : list Road) (k : Q) : Drawing :=
  map border_call (filter (in_layer k) roads)
  ++ map fill_call (filter (in_layer k) roads).

(** Phase 6: the buildings. *)
Definition scale_of (self : Map) : Q := get_scale (flinger self) None / 3.

Definition wall_spans (h : Q) (building : Building) : bool :=
  Qle_bool (min_height building) h && Qle_bool h (height building).

Definition roof_at (h : Q) (building : Building) : bool :=
  Qeq_bool (height building) h.

Definition band (self : Map) (constructor : Constructor)
    (previous_height h : Q) : Drawing :=
  map (fun b => DrawWalls b h previous_height (scale_of self))
      (filter (wall_spans h) (buildings constructor))
  ++ map (fun b => DrawRoof b (scale_of self))
         (filter (roof_at h) (buildings constructor)).

(** The bands of the heights [hs], the first one starting at
    [previous_height]: the pairs of [combine (previous_height :: hs) hs]
    are a height with the one before it. *)
Definition bands (self : Map) (constructor : Constructor)
    (previous_height : Q) (hs : list Q) : Drawing :=
  flat_map (fun '(p, h) => band self constructor p h)
           (combine (previous_height :: hs) hs).

Definition is_flat (self : Map) : bool :=
  BuildingMode_eqb (building_mode (configuration self)) FLAT.

(** Phase 7: the points. *)
Definition occupied_of (self : Map) : option Occupied :=
  if (overlap (configuration self) =? 0)%Z then None
  else Some {| occupied_width := fst (size (flinger self));
               occupied_height := snd (size (flinger self));
               occupied_overlap := overlap (configuration self) |}.

Definition nodes_of (constructor : Constructor) : list Point :=
  sorted (fun x => - point_priority x) (points constructor).

Definition draws_texts (self : Map) : bool :=
  negb (is_wireframe (configuration self))
  && negb (LabelMode_eqb (label_mode (configuration self)) NO).

(** The elements of a call of [draw_buildings] and of a call of [draw],
    in closed form. *)
Definition buildings_part (self : Map) (constructor : Constructor) : Drawing :=
  if is_flat self then map BuildingDraw (buildings constructor)
  else Group (1 # 10) (buildings constructor)
       :: bands self constructor 0 (sorted (fun h => h) (heights constructor)).

Definition points_part (self : Map) (constructor : Constructor) : Drawing :=
  map (fun p => DrawMainShapes p (occupied_of self)) (nodes_of constructor)
  ++ map (fun p => DrawExtraShapes p (occupied_of self)) (nodes_of constructor)
  ++ (if draws_texts self
      then map (fun p => DrawTexts p (occupied_of self)
                           (label_mode (configuration self)))
               (nodes_of constructor)
      else []).

Definition drawn (self : Map) (constructor : Constructor) : Drawing :=
  Rect (0, 0) (size (flinger self)) (background_color self)
  :: map (path_of self) (filter (has_path self) (ways_of constructor))
  ++ flat_map (layer_calls (roads constructor)) (layers_of (roads constructor))
  ++ map TreeDraw (trees constructor)
  ++ map CraterDraw (craters constructor)
  ++ map DirectionSectorDraw (direction_sectors constructor)
  ++ buildings_part self constructor
  ++ points_part self constructor.

(** ** Vocabulary of the statements *)

Definition is_path (e : Element) : bool :=
  match e with SVGPath _ _ => true | _ => false end.

Definition is_rect (e : Element) : bool :=
  match e with Rect _ _ _ => true | _ => false end.

Definition is_road_call (e : Element) : bool :=
  match e with RoadDraw _ _ _ => true | _ => false end.

Definition is_texts (e : Element) : bool :=
  match e with DrawTexts _ _ _ => true | _ => false end.

Definition is_point_call (e : Element) : bool :=
  match e with
  | DrawMainShapes _ _ | DrawExtraShapes _ _ | DrawTexts _ _ _ => true
  | _ => false
  end.

(** Descending order of the priorities of points. *)
Definition priority_ge (a b : Point) : Prop :=
  point_priority b <= point_priority a.

(** Ascending order of the priorities of figures. *)
Definition priority_le (a b : StyledFigure) : Prop :=
  priority (line_style a) <= priority (line_style b).

(** The configuration with another building mode. *)
Definition with_building_mode (configuration : MapConfiguration)
    (mode : BuildingMode) : MapConfiguration :=
  {| is_wireframe := is_wireframe configuration;
     label_mode := label_mode configuration;
     building_mode := mode;
     overlap := overlap configuration |}.

(** The constructor with its set of heights iterated in another order. *)
Definition with_heights (constructor : Constructor) (hs : list Q)
    : Constructor :=
  {| figures := figures constructor;
     roads := roads constructor;
     trees := trees constructor;
     craters := craters constructor;
     direction_sectors := direction_sectors constructor;
     buildings := buildings constructor;
     heights := hs;
     points := points constructor |}.

(** ** Sample inputs *)

Module Sample.
Definition flinger : Flinger :=
  {| size := (100, 50); fling := fun v => v; get_scale := fun _ => 3 |}.

Definition scheme : Scheme := {| get_color := fun _ => "#EEEEEE"%string |}.

Definition configuration (wireframe : bool) (mode : BuildingMode)
    : MapConfiguration :=
  {| is_wireframe := wireframe; label_mode := ALL;
     building_mode := mode; overlap := 12 |}.

(** The building of the scenario: height 9, minimum height 3. *)
Definition building : Building :=
  {| building_id := 1; height := 9; min_height := 3 |}.

Definition point (n : nat) (p : Q) : Point :=
  {| point_id := n; point_priority := p |}.

(** One building, the set of heights {3, 6, 9}, two points. *)
Definition constructor : Constructor :=
  {| figures := []; roads := []; trees := []; craters := [];
     direction_sectors := []; buildings := [building];
     heights := [9; 3; 6];
     points := [point 1 1; point 2 5] |}.

Definition node (i : Z) : OSMNode :=
  {| id_ := i; coordinates := (inject_Z i, 0) |}.

(** A road of one segment from node [a] to node [b]. *)
Definition road (a b : Z) : Road :=
  {| outers := [[node a; node b]]; inners := []; lanes := 1; layer := 0;
     matcher := {| border_color := "#000000"%string;
                   color := "#FFFFFF"%string |} |}.

Definition map_ (wireframe : bool) (mode : BuildingMode) : Map :=
  Map_init flinger scheme (configuration wireframe mode).
End Sample.

(** [previous_of hs h p]: [p] is the value of [previous_height] when the
    loop over the sorted set [hs] reaches the height [h], that is the
    greatest height of the set below [h], or 0 when [h] is the least. *)
Definition previous_of (hs : list Q) (h p : Q) : Prop :=
  (In p hs /\ p < h /\ forall x, In x hs -> x < h -> x <= p)
  \/ (p = 0 /\ forall x, In x hs -> h <= x).

(** [is_set l]: the list [l] is an iteration order of a Python set of
    numbers, that is no two of its members are equal numbers. *)
Fixpoint is_set (l : list Q) : bool :=
  match l with
  | [] => true
  | x :: l' => negb (existsb (Qeq_bool x) l') && is_set l'
  end.

(** The order of two calls of [road.draw], the first one earlier on the
    canvas: the layer does not decrease, and within one layer a call
    without extra width (a fill) is not followed by a call with extra
    width (a border). *)
Definition call_order (e1 e2 : Element) : Prop :=
  match e1, e2 with
  | RoadDraw r1 _ w1, RoadDraw r2 _ w2 =>
      layer r1 <= layer r2
      /\ (layer r1 == layer r2 -> w1 = None -> w2 = None)
  | _, _ => True
  end.

(** ** Vocabulary of the statements about [draw_roads] *)

(** [road.outers[0]] when the road has an outer ring. *)
Definition first_ring (road : Road) : list OSMNode := hd [] (outers road).

Definition has_outer (road : Road) : bool :=
  match outers road with [] => false | _ :: _ => true end.

(** The segments the first loop visits, each with its road, in order. *)
Definition all_segments (roads : list Road)
    : list (Road * (OSMNode * OSMNode)) :=
  flat_map (fun road => map (pair road) (segments (first_ring road))) roads.

(** The two [RoadPart] objects of a segment, created when [next] objects
    exist. *)
Definition part_1_of (self : Map) (road : Road) (segment : OSMNode * OSMNode)
    (next : nat) : RoadPart :=
  {| part_id := next;
     point_1 := fling (flinger self) (coordinates (fst segment));
     point_2 := fling (flinger self) (coordinates (snd segment));
     part_lanes := lanes road;
     part_scale := get_scale (flinger self) (Some (coordinates (fst segment)))
  |}.

Definition part_2_of (self : Map) (road : Road) (segment : OSMNode * OSMNode)
    (next : nat) : RoadPart :=
  {| part_id := S next;
     point_1 := fling (flinger self) (coordinates (snd segment));
     point_2 := fling (flinger self) (coordinates (fst segment));
     part_lanes := lanes road;
     part_scale := get_scale (flinger self) (Some (coordinates (fst segment)))
  |}.

(** The set of a node in the dictionary [nodes], empty for a node that is
    not a key. *)
Definition parts_at (node : OSMNode) (nodes : Nodes) : list RoadPart :=
  match dict_get OSMNode_eqb node nodes with
  | Some parts => parts
  | None => []
  end.

(** The parts the segments [segs] give to [node], in order of creation. *)
Fixpoint parts_for (self : Map) (node : OSMNode)
    (segs : list (Road * (OSMNode * OSMNode))) (next : nat) : list RoadPart :=
  match segs with
  | [] => []
  | (road, segment) :: segs' =>
      (if OSMNode_eqb node (fst segment)
       then [part_1_of self road segment next] else [])
      ++ (if OSMNode_eqb node (snd segment)
          then [part_2_of self road segment next] else [])
      ++ parts_for self node segs' (S (S next))
  end.

(** The number of ends of the segment at [node]: 0, 1, or 2 for a segment
    from the node to itself. *)
Definition ends_at (node : OSMNode) (segment : OSMNode * OSMNode) : nat :=
  (if OSMNode_eqb node (fst segment) then 1 else 0)
  + (if OSMNode_eqb node (snd segment) then 1 else 0).

(** The number of segment ends of all roads at [node]. *)
Definition segment_ends (node : OSMNode) (roads : list Road) : nat :=
  list_sum (map (fun s => ends_at node (snd s)) (all_segments roads)).

(** All parts in the dictionary. *)
Definition all_parts (nodes : Nodes) : list RoadPart := flat_map snd nodes.

(** [built_from parts e]: the element [e] is an intersection that holds a
    part of the set [parts]. *)
Definition built_from (parts : list RoadPart) (e : Element) : bool :=
  match e with
  | IntersectionDraw ps _ =>
      existsb
        (fun p => existsb (fun q => Nat.eqb (part_id p) (part_id q)) parts) ps
  | _ => false
  end.

(** The entry of a node with at least four parts. *)
Definition is_junction (entry : OSMNode * list RoadPart) : bool :=
  negb (length (snd entry) <? 4)%nat.

(** [road] and [road'] have the same first outer ring (or both none) and
    the same lanes. *)
Definition same_first_ring (road road' : Road) : Prop :=
  hd_error (outers road) = hd_error (outers road')
  /\ lanes road = lanes road'.

(** [if node not in nodes: nodes[node] = set()] *)
Definition setdefault (node : OSMNode) (nodes : Nodes) : Nodes :=
  if negb (dict_mem OSMNode_eqb node nodes)
  then dict_set OSMNode_eqb node [] nodes
  else nodes.

(** Invariant of the first loop: the keys of the dictionary are pairwise
    different nodes, the parts in it are pairwise different objects, and
    all of them were created before the object number [next]. *)
Definition collected (state : nat * Nodes) : Prop :=
  NoDup (dict_keys (snd state))
  /\ NoDup (map part_id (all_parts (snd state)))
  /\ Forall (fun p => (part_id p < fst state)%nat) (all_parts (snd state)).

(** Sample road networks: four roads of one segment that meet at node 0,
    the first three of them, and the state the first loop of
    [draw_roads] reaches on the four roads. *)
Module Crossing.
Definition four_roads : list Road :=
  [Sample.road 0 1; Sample.road 0 2; Sample.road 0 3; Sample.road 4 0].

Definition three_roads : list Road :=
  [Sample.road 0 1; Sample.road 0 2; Sample.road 0 3].

Definition self : Map := Sample.map_ false EXTRUDED.

Definition four_state : nat * Nodes :=
  Eval vm_compute in
    for_ (all_segments four_roads)
      (fun s => add_segment self (fst s) (snd s)) (0%nat, []).
End Crossing.

(** The element the second loop adds for an entry of the dictionary. *)
Definition intersection_of (order : list RoadPart -> list RoadPart)
    (entry : OSMNode * list RoadPart) : Element :=
  IntersectionDraw (order (snd entry)) true.

(** ** Vocabulary of the further properties of [draw] *)

(** The stage of [draw] that adds an element; [draw] adds no
    intersection, which is given the number after the last stage. *)
Definition phase (e : Element) : nat :=
  match e with
  | Rect _ _ _ => 0
  | SVGPath _ _ => 1
  | RoadDraw _ _ _ => 2
  | TreeDraw _ => 3
  | CraterDraw _ => 4
  | DirectionSectorDraw _ => 5
  | BuildingDraw _ | Group _ _ | DrawWalls _ _ _ _ | DrawRoof _ _ => 6
  | DrawMainShapes _ _ => 7
  | DrawExtraShapes _ _ => 8
  | DrawTexts _ _ _ => 9
  | IntersectionDraw _ _ => 10
  end.

Definition phase_le (e1 e2 : Element) : Prop := (phase e1 <= phase e2)%nat.

Definition is_roof (e : Element) : bool :=
  match e with DrawRoof _ _ => true | _ => false end.

(** The height of a building is a member of the set of heights. *)
Definition in_heights (hs : list Q) (building : Building) : bool :=
  existsb (fun h => Qeq_bool (height building) h) hs.

(** The order of two wall or roof calls, the first one earlier on the
    canvas.  A wall call counts at the height of its band and a roof call
    at the height of its building; a roof is followed by walls of strictly
    greater heights only. *)
Definition band_order (e1 e2 : Element) : Prop :=
  match e1, e2 with
  | DrawWalls _ h1 _ _, DrawWalls _ h2 _ _ => h1 <= h2
  | DrawWalls _ h1 _ _, DrawRoof b2 _ => h1 <= height b2
  | DrawRoof b1 _, DrawWalls _ h2 _ _ => height b1 < h2
  | DrawRoof b1 _, DrawRoof b2 _ => height b1 <= height b2
  | _, _ => True
  end.

(** A border call, respectively a fill call, of a road of the layer [k]. *)
Definition is_border_of (k : Q) (e : Element) : bool :=
  match e with
  | RoadDraw road _ (Some _) => in_layer k road
  | _ => false
  end.

Definition is_fill_of (k : Q) (e : Element) : bool :=
  match e with
  | RoadDraw road _ None => in_layer k road
  | _ => false
  end.

(** ** Vocabulary of the further properties of [draw_roads] *)

(** The nodes of the segments in the order the first loop meets them:
    [node_1] then [node_2] of each segment. *)
Definition node_sequence (roads : list Road) : list OSMNode :=
  flat_map (fun s => [fst (snd s); snd (snd s)]) (all_segments roads).

(** The keys after [if node not in nodes: nodes[node] = set()]. *)
Definition add_key (node : OSMNode) (keys : list OSMNode) : list OSMNode :=
  if existsb (OSMNode_eqb node) keys then keys else keys ++ [node].

(** The different members of a list in the order of their first
    occurrence. *)
Fixpoint first_occurrences (l : list OSMNode) : list OSMNode :=
  match l with
  | [] => []
  | x :: l' =>
      x :: filter (fun y => negb (OSMNode_eqb y x)) (first_occurrences l')
  end.

(** The first outer ring of the road has a segment: two nodes or more. *)
Definition has_segment (road : Road) : bool :=
  (2 <=? length (first_ring road))%nat.

(** ** The entry point [ui]

    [ui] acts on the outside world: it logs, creates the cache directory,
    downloads, reads and writes files, and it ends by returning, by
    [exit(1)] or by an exception.  A run is the list of the effects in the
    order they happen, with the way the run ends.  What the modules that
    are not in [mapper.py] and the Python library compute is the [World]:
    each field is the answer the run gets where the code asks.  Of the
    exceptions of these modules only the [NetworkError] of [get_osm],
    which [ui] catches, is part of the model. *)

Record Options := {
  boundary_box : option string;
  input_file_name : option (list string);
  cache : string;
  zoom : Q;
  output_file_name : string
}.

Record World := {
  BoundaryBox : Type;
  OSMData : Type;
  Path : Type;
  (* [pathlib] *)
  to_path : string -> Path;                      (* [Path(text)] *)
  path_join : Path -> string -> Path;            (* [path / text] *)
  path_name : Path -> string;                    (* [path.name] *)
  path_str : Path -> string;                     (* [str(path)] *)
  is_file : Path -> bool;                        (* [path.is_file()] *)
  (* other modules of the package *)
  from_options : Options -> Z -> MapConfiguration;
  from_text : string -> BoundaryBox;
  get_format : BoundaryBox -> string;
  get_osm : BoundaryBox -> Path -> option string;  (* the message of a
                                                      [NetworkError] *)
  default_scheme : Scheme;
  parse_json_file : Path -> OSMData;
  new_reader : OSMData;                          (* [OSMReader().osm_data] *)
  parse_osm_file : OSMData -> Path -> OSMData;
  view_box : OSMData -> BoundaryBox;
  equator_length : OSMData -> Q;
  new_flinger : BoundaryBox -> Q -> Q -> Flinger;
  construct :
    OSMData -> Flinger -> Scheme -> MapConfiguration -> Constructor
}.

Inductive Effect (w : World) :=
| LogFatal (message : string)
| LogInfo (message : string)
| Mkdir (path : Path w)
| GetOsm (boundary_box : BoundaryBox w) (cache_file_path : Path w)
| LoadScheme
| ParseJsonFile (file_name : Path w)
| ParseOsmFile (file_name : Path w)
| LoadIcons
| WriteFile (file_name : string) (svg : Drawing).
Arguments LogFatal {w} message.
Arguments LogInfo {w} message.
Arguments Mkdir {w} path.
Arguments GetOsm {w} boundary_box cache_file_path.
Arguments LoadScheme {w}.
Arguments ParseJsonFile {w} file_name.
Arguments ParseOsmFile {w} file_name.
Arguments LoadIcons {w}.
Arguments WriteFile {w} file_name svg.

Inductive ui_exn :=
| UnboundLocalError (variable : string)
| NoFirstInput.                      (* [IndexError] of [input_file_names[0]] *)

(** How a run ends. *)
Inductive Outcome :=
| Returned
| Exited (code : Z)
| Raised (e : ui_exn).

(** A computation of [ui]: its effects, and its value or the end of the
    run. *)
Definition Run (w : World) (A : Type) : Type :=
  (list (Effect w) * (A + Outcome))%type.

Definition ret {w : World} {A : Type} (a : A) : Run w A := ([], inl a).

Definition bind {w : World} {A B : Type} (c : Run w A) (k : A -> Run w B)
    : Run w B :=
  match c with
  | (t, inl a) => let '(t', r) := k a in (t ++ t', r)
  | (t, inr o) => (t, inr o)
  end.

Definition emit {w : World} (e : Effect w) : Run w unit := ([e], inl tt).

Definition stop {w : World} {A : Type} (o : Outcome) : Run w A := ([], inr o).

Notation "'do' x <- c ; k" := (bind c (fun x => k))
  (at level 10, x name, c at level 100, k at level 200).

(** Truth values of Python: [None], the empty string and the empty list
    are false. *)
Definition truthy_text (o : option string) : bool :=
  match o with Some s => truthy s | None => false end.

Definition truthy_list {A : Type} (o : option (list A)) : bool :=
  match o with Some (_ :: _) => true | _ => false end.

(** [int(x)] truncates towards zero. *)
Definition int_ (x : Q) : Z := Z.quot (Qnum x) (Zpos (Qden x)).

(** [s.endswith(suffix)] *)
Definition endswith (s suffix : string) : bool :=
  (String.length suffix <=? String.length s)%nat
  && String.eqb
       (substring (String.length s - String.length suffix)
          (String.length suffix) s)
       suffix.

(** Reading a local variable that is assigned on some paths only. *)
Definition read_local {w : World} {A : Type} (name : string) (value : option A)
    : Run w A :=
  match value with
  | Some a => ret a
  | None => stop (Raised (UnboundLocalError name))
  end.

(** The loop over [input_file_names] of the branch of [OSMReader]. *)
Fixpoint parse_osm_files {w : World} (file_names : list (Path w))
    (osm_data : OSMData w) : Run w (OSMData w) :=
  match file_names with
  | [] => ret osm_data
  | file_name :: rest =>
      do _ <- (if negb (is_file w file_name)
               then do _ <- emit (LogFatal
                                    ("No such file: "
                                     ++ path_str w file_name ++ ".")%string) ;
                    stop (Exited 1)
               else ret tt) ;
      do _ <- emit (ParseOsmFile file_name) ;
      parse_osm_files rest (parse_osm_file w osm_data file_name)
  end.

(** [ui] *)
Definition ui (w : World) (options : Options) : Run w unit :=
  let configuration := from_options w options (int_ (zoom options)) in
  do _ <- (if negb (truthy_text (boundary_box options))
              && negb (truthy_list (input_file_name options))
           then do _ <- emit (LogFatal
                                "Specify either --boundary-box, or --input.") ;
                stop (Exited 1)
           else ret tt) ;

  let boundary_box_ : option (BoundaryBox w) :=
    match boundary_box options with
    | Some text => if truthy text then Some (from_text w text) else None
    | None => None
    end in

  let cache_path := to_path w (cache options) in
  do _ <- emit (Mkdir cache_path) ;

  do input_file_names <-
    (if truthy_list (input_file_name options)
     then ret (map (to_path w)
                 (match input_file_name options with
                  | Some names => names
                  | None => []
                  end))
     else
       do boundary_box <- read_local "boundary_box" boundary_box_ ;
       let cache_file_path :=
         path_join w cache_path (get_format w boundary_box ++ ".osm")%string in
       do _ <- emit (GetOsm boundary_box cache_file_path) ;
       match get_osm w boundary_box cache_file_path with
       | Some message =>
           do _ <- emit (LogFatal message) ; stop (Exited 1)
       | None => ret [cache_file_path]
       end) ;

  do _ <- emit LoadScheme ;
  let scheme := default_scheme w in

  do first <- match input_file_names with
              | first :: _ => ret first
              | [] => stop (Raised NoFirstInput)
              end ;
  do data_and_box <-
    (if endswith (path_name w first) ".json"
     then
       do _ <- emit (ParseJsonFile first) ;
       let osm_data := parse_json_file w first in
       do view_box <- read_local "boundary_box" boundary_box_ ;
       ret (osm_data, view_box)
     else
       do osm_data <- parse_osm_files input_file_names (new_reader w) ;
       do view_box <-
         (if truthy_text (boundary_box options)
          then read_local "boundary_box" boundary_box_
          else ret (view_box w osm_data)) ;
       ret (osm_data, view_box)) ;
  let '(osm_data, view_box) := data_and_box in

  let flinger :=
    new_flinger w view_box (zoom options) (equator_length w osm_data) in
  let svg : Drawing := [] in
  do _ <- emit LoadIcons ;
  let constructor := construct w osm_data flinger scheme configuration in
  let painter := Map_init flinger scheme configuration in
  let svg := draw painter constructor svg in
  do _ <- emit (LogInfo
                  ("Writing output SVG to "
                   ++ output_file_name options ++ "...")%string) ;
  emit (WriteFile (output_file_name options) svg).

(** The input files that are there, up to the first one that is not. *)
Fixpoint files_before_missing {w : World} (file_names : list (Path w))
    : list (Path w) :=
  match file_names with
  | [] => []
  | file_name :: rest =>
      if is_file w file_name then file_name :: files_before_missing rest
      else []
  end.

(** The first input file that is not there. *)
Definition first_missing {w : World} (file_names : list (Path w))
    : option (Path w) :=
  find (fun file_name => negb (is_file w file_name)) file_names.

Definition is_write {w : World} (e : Effect w) : bool :=
  match e with WriteFile _ _ => true | _ => false end.

Definition is_download {w : World} (e : Effect w) : bool :=
  match e with GetOsm _ _ => true | _ => false end.

Definition is_parse {w : World} (e : Effect w) : bool :=
  match e with ParseJsonFile _ | ParseOsmFile _ => true | _ => false end.

(** A sample world: paths are strings, a boundary box is its text, the
    data is the list of the files read; the file [gone.osm] is missing and
    the boundary box [0,0,0,0] cannot be downloaded. *)
Module Desk.
Definition world : World :=
  {| BoundaryBox := string;
     OSMData := list string;
     Path := string;
     to_path := fun text => text;
     path_join := fun path text => (path ++ "/" ++ text)%string;
     path_name := fun path => path;
     path_str := fun path => path;
     is_file := fun path => negb (String.eqb path "gone.osm");
     from_options := fun _ _ => Sample.configuration false FLAT;
     from_text := fun text => text;
     get_format := fun box => box;
     get_osm := fun box _ =>
       if String.eqb box "0,0,0,0" then Some "no network"%string else None;
     default_scheme := Sample.scheme;
     parse_json_file := fun path => [path];
     new_reader := [];
     parse_osm_file := fun data path => (data ++ [path])%list;
     view_box := fun _ => "view"%string;
     equator_length := fun _ => 40075017;
     new_flinger := fun _ _ _ => Sample.flinger;
     construct := fun _ _ _ _ => Sample.constructor |}.

Definition options (box : option string) (files : option (list string))
    : Options :=
  {| boundary_box := box; input_file_name := files; cache := "cache";
     zoom := 18; output_file_name := "out.svg" |}.
End Desk.

(** ** Vocabulary of the properties of [ui] *)

(** The local variable [boundary_box] of [ui]: bound when the option is
    given. *)
Definition local_box (w : World) (options : Options)
    : option (BoundaryBox w) :=
  match boundary_box options with
  | Some text => if truthy text then Some (from_text w text) else None
  | None => None
  end.

(** The drawing [ui] makes of the data [osm_data] in the box [box]. *)
Definition drawing_of (w : World) (options : Options) (osm_data : OSMData w)
    (box : BoundaryBox w) : Drawing :=
  let configuration := from_options w options (int_ (zoom options)) in
  let flinger :=
    new_flinger w box (zoom options) (equator_length w osm_data) in
  draw (Map_init flinger (default_scheme w) configuration)
    (construct w osm_data flinger (default_scheme w) configuration) [].

(** The last effects of a run that returns. *)
Definition finish (w : World) (options : Options) (osm_data : OSMData w)
    (box : BoundaryBox w) : list (Effect w) :=
  [ LoadIcons;
    LogInfo
      ("Writing output SVG to " ++ output_file_name options ++ "...")%string;
    WriteFile (output_file_name options) (drawing_of w options osm_data box) ].

(** The part of [ui] after [input_file_names] is known. *)
Definition ui_tail (w : World) (options : Options)
    (boundary_box_ : option (BoundaryBox w))
    (input_file_names : list (Path w)) : Run w unit :=
  let configuration := from_options w options (int_ (zoom options)) in
  do _ <- emit LoadScheme ;
  let scheme := default_scheme w in
  do first <- match input_file_names with
              | first :: _ => ret first
              | [] => stop (Raised NoFirstInput)
              end ;
  do data_and_box <-
    (if endswith (path_name w first) ".json"
     then
       do _ <- emit (ParseJsonFile first) ;
       let osm_data := parse_json_file w first in
       do view_box <- read_local "boundary_box" boundary_box_ ;
       ret (osm_data, view_box)
     else
       do osm_data <- parse_osm_files input_file_names (new_reader w) ;
       do view_box <-
         (if truthy_text (boundary_box options)
          then read_local "boundary_box" boundary_box_
          else ret (view_box w osm_data)) ;
       ret (osm_data, view_box)) ;
  let '(osm_data, view_box) := data_and_box in
  let flinger :=
    new_flinger w view_box (zoom options) (equator_length w osm_data) in
  let svg : Drawing := [] in
  do _ <- emit LoadIcons ;
  let constructor := construct w osm_data flinger scheme configuration in
  let painter := Map_init flinger scheme configuration in
  let svg := draw painter constructor svg in
  do _ <- emit (LogInfo
                  ("Writing output SVG to "
                   ++ output_file_name options ++ "...")%string) ;
  emit (WriteFile (output_file_name options) svg).

(** The cache file of a download. *)
Definition cache_file (w : World) (options : Options) (box : BoundaryBox w)
    : Path w :=
  path_join w (to_path w (cache options)) (get_format w box ++ ".osm")%string.

(** The box of the projector: the boundary box of the options when it is
    given, the view box of the data otherwise. *)
Definition chosen_box (w : World) (options : Options) (osm_data : OSMData w)
    : BoundaryBox w :=
  match local_box w options with
  | Some box => box
  | None => view_box w osm_data
  end.

(** The ways a run of [ui] ends: it returns after writing the drawing as
    its last effect, or exits with status 1 after a fatal message as its
    last effect, or raises; it writes in the first case only. *)
Definition run_shape (w : World) (options : Options) (run : Run w unit)
    : Prop :=
  match snd run with
  | inl _ =>
      exists t osm_data,
        fst run
        = t ++ [WriteFile (output_file_name options)
                  (drawing_of w options osm_data
                     (chosen_box w options osm_data))]
        /\ filter is_write t = []
  | inr (Exited code) =>
      code = 1%Z
      /\ filter is_write (fst run) = []
      /\ exists t message, fst run = t ++ [LogFatal message]
  | inr Returned => False
  | inr (Raised e) =>
      e = UnboundLocalError "boundary_box"
      /\ filter is_write (fst run) = []
  end.

(** A road whose first outer ring is a single node. *)
Module Lane.
Definition dead_end : Road :=
  {| outers := [[Sample.node 9]]; inners := []; lanes := 1; layer := 0;
     matcher := {| border_color := "#000000"%string;
                   color := "#FFFFFF"%string |} |}.
End Lane.

(** * Properties *)

(** ** Loops that append to the canvas *)

Lemma for_app {A S : Type} (l1 l2 : list A) (body : A -> S -> S) (s : S) :
  for_ (l1 ++ l2) body s = for_ l2 body (for_ l1 body s).
Proof. unfold for_. apply fold_left_app. Qed.

Lemma for_ext {A S : Type} (l : list A) (body body' : A -> S -> S) (s : S) :
  (forall x s, body x s = body' x s) ->
  for_ l body s = for_ l body' s.
Proof.
  intros Hext. unfold for_. revert s.
  induction l as [|x l IH]; intros s; simpl; [reflexivity|].
  rewrite Hext. apply IH.
Qed.

Lemma for_map {A B S : Type} (g : A -> B) (l : list A) (body : B -> S -> S)
    (s : S) :
  for_ (map g l) body s = for_ l (fun x => body (g x)) s.
Proof.
  unfold for_. revert s.
  induction l as [|x l IH]; intros s; simpl; [reflexivity | apply IH].
Qed.

(** A loop whose body appends [f x] to the list it threads appends the
    concatenation of the [f x], in the order of the loop. *)
Lemma for_emit {A E : Type} (f : A -> list E) (l : list A) (svg : list E) :
  for_ l (fun x svg => svg ++ f x) svg = svg ++ flat_map f l.
Proof.
  unfold for_. revert svg.
  induction l as [|x l IH]; intros svg; simpl.
  - now rewrite app_nil_r.
  - rewrite IH. now rewrite <- app_assoc.
Qed.

Lemma for_emit_if {A E : Type} (c : A -> bool) (g : A -> E) (l : list A)
    (svg : list E) :
  for_ l (fun x svg => if c x then svg ++ [g x] else svg) svg
  = svg ++ map g (filter c l).
Proof.
  rewrite (for_ext l _ (fun x svg => svg ++ (if c x then [g x] else []))).
  - rewrite for_emit. f_equal.
    induction l as [|x l IH]; simpl; [reflexivity|].
    destruct (c x); simpl; now rewrite IH.
  - intros x s. destruct (c x); [reflexivity | now rewrite app_nil_r].
Qed.

Lemma for_emit_all {A E : Type} (g : A -> E) (l : list A) (svg : list E) :
  for_ l (fun x svg => svg ++ [g x]) svg = svg ++ map g l.
Proof.
  rewrite (for_emit (fun x => [g x])).
  replace (flat_map (fun x => [g x]) l) with (map g l); [reflexivity|].
  induction l as [|x l IH]; simpl; [reflexivity | now rewrite IH].
Qed.

(** ** Facts about [sorted] *)

Section SortedFacts.
Context {A : Type} (key : A -> Q).

Lemma insert_perm (x : A) (l : list A) :
  Permutation (insert key x l) (x :: l).
Proof.
  induction l as [|y l IH]; simpl; [reflexivity|].
  destruct (Qle_bool (key x) (key y)); [reflexivity|].
  rewrite IH. apply perm_swap.
Qed.

Lemma sorted_perm (l : list A) : Permutation (sorted key l) l.
Proof.
  induction l as [|x l IH]; simpl; [reflexivity|].
  rewrite insert_perm. now constructor.
Qed.

Lemma sorted_In (l : list A) (x : A) : In x (sorted key l) <-> In x l.
Proof.
  split; apply Permutation_in;
    [apply sorted_perm | symmetry; apply sorted_perm].
Qed.

Lemma insert_ascending (x : A) (l : list A) :
  StronglySorted (key_le key) l -> StronglySorted (key_le key) (insert key x l).
Proof.
  induction l as [|y l IH]; intros Hs; simpl.
  - constructor; constructor.
  - destruct (Qle_bool (key x) (key y)) eqn:Hxy.
    + apply Qle_bool_iff in Hxy.
      constructor; [exact Hs|].
      apply StronglySorted_inv in Hs. destruct Hs as [_ Hy].
      constructor; [exact Hxy|].
      eapply Forall_impl; [|exact Hy].
      intros z Hz. unfold key_le in *. lra.
    + apply StronglySorted_inv in Hs. destruct Hs as [Hl Hy].
      constructor; [now apply IH|].
      assert (Hyx : key y <= key x).
      { destruct (Qlt_le_dec (key x) (key y)) as [Hlt|Hle];
          [|exact Hle].
        apply Qlt_le_weak, Qle_bool_iff in Hlt. congruence. }
      eapply Permutation_Forall; [symmetry; apply insert_perm|].
      constructor; assumption.
Qed.

(** The result is in ascending order of the keys. *)
Lemma sorted_ascending (l : list A) : StronglySorted (key_le key) (sorted key l).
Proof.
  induction l as [|x l IH]; simpl; [constructor|].
  now apply insert_ascending.
Qed.

(** The sort is stable: the elements with a given key keep the order
    they have in the input. *)
Lemma insert_stable (k : Q) (x : A) (l : list A) :
  filter (fun z => Qeq_bool (key z) k) (insert key x l)
  = filter (fun z => Qeq_bool (key z) k) (x :: l).
Proof.
  induction l as [|y l IH]; simpl; [reflexivity|].
  destruct (Qle_bool (key x) (key y)) eqn:Hxy; [reflexivity|].
  simpl in *. rewrite IH.
  destruct (Qeq_bool (key x) k) eqn:Hx; [|reflexivity].
  destruct (Qeq_bool (key y) k) eqn:Hy; [|reflexivity].
  apply Qeq_bool_iff in Hx, Hy.
  assert (Hle : key x <= key y) by (rewrite Hx, Hy; apply Qle_refl).
  apply Qle_bool_iff in Hle. congruence.
Qed.

Lemma sorted_stable (k : Q) (l : list A) :
  filter (fun z => Qeq_bool (key z) k) (sorted key l)
  = filter (fun z => Qeq_bool (key z) k) l.
Proof.
  induction l as [|x l IH]; simpl; [reflexivity|].
  rewrite insert_stable. simpl. now rewrite IH.
Qed.
End SortedFacts.

(** ** The loops of [draw_buildings] *)

Lemma wall_test (h : Q) (b : Building) :
  Qlt_bool (height b) h || Qlt_bool h (min_height b) = negb (wall_spans h b).
Proof.
  unfold Qlt_bool, wall_spans.
  destruct (Qle_bool h (height b)), (Qle_bool (min_height b) h); reflexivity.
Qed.

Lemma band_loop (self : Map) (c : Constructor) (h prev : Q) (svg : Drawing) :
  for_ (buildings c)
    (fun building svg =>
       if Qeq_bool (height building) h
       then svg_add svg (DrawRoof building (scale_of self))
       else svg)
    (for_ (buildings c)
       (fun building svg =>
          if Qlt_bool (height building) h || Qlt_bool h (min_height building)
          then svg
          else svg_add svg (DrawWalls building h prev (scale_of self)))
       svg)
  = svg ++ band self c prev h.
Proof.
  unfold svg_add, band.
  rewrite (for_emit_if (roof_at h) (fun b => DrawRoof b (scale_of self))).
  rewrite (for_ext _ _
             (fun b svg =>
                if wall_spans h b
                then svg ++ [DrawWalls b h prev (scale_of self)] else svg)).
  - rewrite for_emit_if. now rewrite <- app_assoc.
  - intros b s. rewrite wall_test. now destruct (wall_spans h b).
Qed.

Lemma bands_loop (self : Map) (c : Constructor) (hs : list Q) (prev : Q)
    (svg : Drawing) :
  fst (for_ hs
         (fun h '(svg, prev) => (svg ++ band self c prev h, h))
         (svg, prev))
  = svg ++ bands self c prev hs.
Proof.
  unfold for_, bands. revert svg prev.
  induction hs as [|h hs IH]; intros svg prev; simpl.
  - now rewrite app_nil_r.
  - rewrite IH. now rewrite <- app_assoc.
Qed.

(** What [draw_buildings] adds to the canvas. *)
Lemma draw_buildings_adds (self : Map) (c : Constructor) (svg : Drawing) :
  draw_buildings self c svg = svg ++ buildings_part self c.
Proof.
  unfold draw_buildings, buildings_part, is_flat.
  destruct (BuildingMode_eqb (building_mode (configuration self)) FLAT).
  - unfold svg_add. apply for_emit_all.
  - rewrite (for_emit_all (fun b => b) (buildings c) []). simpl.
    rewrite map_id. fold (scale_of self).
    rewrite (for_ext _ _
               (fun h '(svg, prev) => (svg ++ band self c prev h, h))).
    + match goal with
      | |- (let '(s, _) := ?p in s) = _ =>
          transitivity (fst p); [now destruct p|]
      end.
      rewrite bands_loop. unfold svg_add. now rewrite <- app_assoc.
    + intros h [s prev]. now rewrite band_loop.
Qed.

(** ** Facts about dictionaries *)

Section DictFacts.
Context {K V : Type} (eqb : K -> K -> bool).
Hypothesis eqb_refl : forall k, eqb k k = true.
Hypothesis eqb_sym : forall k k', eqb k k' = eqb k' k.
Hypothesis eqb_trans :
  forall k1 k2 k3, eqb k1 k2 = true -> eqb k2 k3 = true -> eqb k1 k3 = true.

Lemma eqb_congr (k1 k2 k3 : K) :
  eqb k1 k2 = true -> eqb k1 k3 = eqb k2 k3.
Proof.
  intros H12.
  destruct (eqb k2 k3) eqn:H23.
  - now apply eqb_trans with k2.
  - destruct (eqb k1 k3) eqn:H13; [|reflexivity].
    rewrite <- H23. symmetry. apply eqb_trans with k1; [|exact H13].
    now rewrite eqb_sym.
Qed.

Lemma dict_get_congr (k k' : K) (d : dict (V := V)) :
  eqb k k' = true -> dict_get eqb k d = dict_get eqb k' d.
Proof.
  intros Hk. induction d as [|[k0 v0] d IH]; simpl; [reflexivity|].
  rewrite (eqb_congr k k' k0 Hk). now rewrite IH.
Qed.

Lemma dict_get_set_same (k k0 : K) (v : V) (d : dict) :
  eqb k k0 = true -> dict_get eqb k (dict_set eqb k0 v d) = Some v.
Proof.
  intros Hk. induction d as [|[k1 v1] d IH]; simpl.
  - now rewrite Hk.
  - destruct (eqb k0 k1) eqn:H01; simpl.
    + now rewrite (eqb_congr k k0 k1 Hk), H01.
    + now rewrite (eqb_congr k k0 k1 Hk), H01.
Qed.

Lemma dict_get_set_other (k k0 : K) (v : V) (d : dict) :
  eqb k k0 = false -> dict_get eqb k (dict_set eqb k0 v d) = dict_get eqb k d.
Proof.
  intros Hk. induction d as [|[k1 v1] d IH]; simpl.
  - now rewrite Hk.
  - destruct (eqb k0 k1) eqn:H01; simpl.
    + assert (Hk1 : eqb k k1 = false).
      { rewrite eqb_sym in Hk. rewrite (eqb_sym k k1).
        now rewrite <- (eqb_congr k0 k1 k H01). }
      now rewrite Hk1.
    + now rewrite IH.
Qed.

Lemma dict_keys_set (k : K) (v : V) (d : dict) :
  dict_keys (dict_set eqb k v d)
  = if dict_mem eqb k d then dict_keys d else dict_keys d ++ [k].
Proof.
  unfold dict_mem, dict_keys.
  induction d as [|[k1 v1] d IH]; simpl; [reflexivity|].
  destruct (eqb k k1) eqn:Hk; simpl; [reflexivity|].
  rewrite IH. now destruct (dict_get eqb k d).
Qed.

(** A key is in the dictionary exactly when one of the stored keys is
    equal to it. *)
Lemma dict_mem_keys (k : K) (d : dict (V := V)) :
  dict_mem eqb k d = existsb (eqb k) (dict_keys d).
Proof.
  unfold dict_mem, dict_keys.
  induction d as [|[k1 v1] d IH]; simpl; [reflexivity|].
  now destruct (eqb k k1).
Qed.

Lemma dict_get_In (k : K) (v : V) (d : dict) :
  dict_get eqb k d = Some v -> exists k', In (k', v) d /\ eqb k k' = true.
Proof.
  induction d as [|[k1 v1] d IH]; simpl; [discriminate|].
  destruct (eqb k k1) eqn:Hk.
  - intros [= <-]. exists k1. auto.
  - intros H. destruct (IH H) as (k' & Hin & Hk'). exists k'. auto.
Qed.
End DictFacts.

Lemma Qeq_bool_trans' (k1 k2 k3 : Q) :
  Qeq_bool k1 k2 = true -> Qeq_bool k2 k3 = true -> Qeq_bool k1 k3 = true.
Proof. apply Qeq_bool_trans. Qed.

Lemma OSMNode_eqb_eq (a b : OSMNode) : OSMNode_eqb a b = true <-> a = b.
Proof. unfold OSMNode_eqb. destruct (OSMNode_eq_dec a b); split; congruence. Qed.

Lemma OSMNode_eqb_refl (a : OSMNode) : OSMNode_eqb a a = true.
Proof. now apply OSMNode_eqb_eq. Qed.

Lemma OSMNode_eqb_sym (a b : OSMNode) : OSMNode_eqb a b = OSMNode_eqb b a.
Proof.
  unfold OSMNode_eqb.
  destruct (OSMNode_eq_dec a b), (OSMNode_eq_dec b a); congruence.
Qed.

Lemma OSMNode_eqb_trans (a b c : OSMNode) :
  OSMNode_eqb a b = true -> OSMNode_eqb b c = true -> OSMNode_eqb a c = true.
Proof. rewrite !OSMNode_eqb_eq. congruence. Qed.

(** ** Sets of numbers

    A Python set of numbers holds no two equal numbers: its iteration
    order [l] satisfies [NoDupA Qeq l]. *)

Lemma InA_Qeq_perm (x : Q) (l l' : list Q) :
  Permutation l l' -> InA Qeq x l -> InA Qeq x l'.
Proof.
  intros Hp Hin. apply InA_alt in Hin. destruct Hin as (y & Hxy & Hy).
  apply InA_alt. exists y. split; [exact Hxy|].
  now apply Permutation_in with l.
Qed.

Lemma NoDupA_Qeq_perm (l l' : list Q) :
  Permutation l l' -> NoDupA Qeq l -> NoDupA Qeq l'.
Proof.
  induction 1 as [|x l l' Hp IH|x y l|l l' l'' Hp1 IH1 Hp2 IH2]; intros Hnd.
  - constructor.
  - inversion_clear Hnd as [|? ? Hx Hl]. constructor; [|now apply IH].
    intros Hin. apply Hx. apply InA_Qeq_perm with l'; [|exact Hin].
    now symmetry.
  - inversion_clear Hnd as [|? ? Hy Hl].
    inversion_clear Hl as [|? ? Hx Hl'].
    constructor; [|constructor]; [| |exact Hl'].
    + intros Hin. inversion_clear Hin as [? ? Heq|? ? Hin'].
      * apply Hy. now constructor.
      * contradiction.
    + intros Hin. apply Hy. now constructor 2.
  - auto.
Qed.

Lemma ascending_strict (l : list Q) :
  StronglySorted Qle l -> NoDupA Qeq l -> StronglySorted Qlt l.
Proof.
  induction 1 as [|a l Hs IH Ha]; intros Hnd; [constructor|].
  inversion_clear Hnd as [|? ? Hnin Hl].
  constructor; [now apply IH|].
  rewrite Forall_forall in *. intros x Hx.
  destruct (Qlt_le_dec a x) as [Hlt|Hle]; [exact Hlt|].
  exfalso. apply Hnin. apply InA_alt. exists x. split; [|exact Hx].
  apply Qle_antisym; [now apply Ha | exact Hle].
Qed.

(** The sorted list of a set of numbers is strictly ascending. *)
Lemma sorted_set_strict (l : list Q) :
  NoDupA Qeq l -> StronglySorted Qlt (sorted (fun h => h) l).
Proof.
  intros Hnd. apply ascending_strict.
  - apply (sorted_ascending (fun h : Q => h)).
  - apply NoDupA_Qeq_perm with l; [|exact Hnd].
    symmetry. apply sorted_perm.
Qed.

(** A strictly ascending list is determined by its elements. *)
Lemma strict_ascending_unique (l1 l2 : list Q) :
  StronglySorted Qlt l1 -> StronglySorted Qlt l2 -> Permutation l1 l2 ->
  l1 = l2.
Proof.
  intros H1. revert l2.
  induction H1 as [|a l1 Hs1 IH Ha]; intros l2 H2 Hp.
  - apply Permutation_nil in Hp. now subst.
  - destruct H2 as [|b l2 Hs2 Hb].
    + symmetry in Hp. now apply Permutation_nil in Hp.
    + assert (Hab : a = b).
      { assert (Hina : In a (b :: l2))
          by (apply Permutation_in with (a :: l1); [exact Hp | now left]).
        assert (Hinb : In b (a :: l1)).
        { apply Permutation_in with (b :: l2);
            [now symmetry | now left]. }
        destruct Hina as [Hba|Hina]; [now symmetry|].
        destruct Hinb as [Hab|Hinb]; [exact Hab|].
        rewrite Forall_forall in Ha, Hb.
        specialize (Ha _ Hinb). specialize (Hb _ Hina). lra. }
      subst b. f_equal. apply IH; [exact Hs2|].
      now apply Permutation_cons_inv with a.
Qed.

(** Sorting a set of numbers gives the same list whatever order the set
    is iterated in. *)
Lemma sorted_set_order (l1 l2 : list Q) :
  NoDupA Qeq l1 -> Permutation l1 l2 ->
  sorted (fun h => h) l1 = sorted (fun h => h) l2.
Proof.
  intros Hnd Hp. apply strict_ascending_unique.
  - now apply sorted_set_strict.
  - apply sorted_set_strict. now apply NoDupA_Qeq_perm with l1.
  - rewrite !sorted_perm. exact Hp.
Qed.

(** ** The dictionary [layered_roads] *)

Lemma group_road_get (road : Road) (d : dict) (k : Q) :
  dict_get Qeq_bool k (group_road road d)
  = if in_layer k road
    then Some (match dict_get Qeq_bool k d with
               | Some l => l
               | None => []
               end ++ [road])
    else dict_get Qeq_bool k d.
Proof.
  unfold group_road, in_layer, dict_mem.
  rewrite (Qeq_bool_comm (layer road) k).
  destruct (Qeq_bool k (layer road)) eqn:Hk.
  - rewrite (dict_get_congr Qeq_bool Qeq_bool_comm Qeq_bool_trans' _ _ d Hk).
    destruct (dict_get Qeq_bool (layer road) d) as [l|] eqn:Hg; simpl.
    + rewrite Hg.
      now apply dict_get_set_same;
        [apply Qeq_bool_comm | apply Qeq_bool_trans' |].
    + rewrite dict_get_set_same;
        [|apply Qeq_bool_comm | apply Qeq_bool_trans' | apply Qeq_bool_refl].
      rewrite dict_get_set_same;
        [reflexivity |apply Qeq_bool_comm | apply Qeq_bool_trans' | exact Hk].
  - destruct (dict_get Qeq_bool (layer road) d) as [l|] eqn:Hg; simpl.
    + rewrite Hg.
      now apply dict_get_set_other;
        [apply Qeq_bool_comm | apply Qeq_bool_trans' |].
    + rewrite dict_get_set_same;
        [|apply Qeq_bool_comm | apply Qeq_bool_trans' | apply Qeq_bool_refl].
      rewrite !dict_get_set_other;
        [reflexivity | | | | | |];
        solve [apply Qeq_bool_comm | apply Qeq_bool_trans' | exact Hk].
Qed.

Lemma layered_get (roads : list Road) (k : Q) :
  dict_get Qeq_bool k (layered_roads_of roads)
  = if existsb (in_layer k) roads
    then Some (filter (in_layer k) roads) else None.
Proof.
  unfold layered_roads_of.
  induction roads as [|road roads IH] using rev_ind; [reflexivity|].
  rewrite for_app. unfold for_ at 1. simpl.
  rewrite group_road_get, IH, existsb_app, filter_app. simpl.
  destruct (in_layer k road); simpl.
  - rewrite orb_true_r.
    destruct (existsb (in_layer k) roads) eqn:He; [reflexivity|].
    replace (filter (in_layer k) roads) with (@nil Road); [reflexivity|].
    symmetry. clear IH.
    induction roads as [|r rs IHr]; simpl in *; [reflexivity|].
    apply orb_false_iff in He. destruct He as [-> He]. auto.
  - now rewrite orb_false_r, app_nil_r.
Qed.

Lemma group_road_keys (road : Road) (d : dict) :
  dict_keys (group_road road d)
  = if dict_mem Qeq_bool (layer road) d then dict_keys d
    else dict_keys d ++ [layer road].
Proof.
  unfold group_road.
  destruct (dict_mem Qeq_bool (layer road) d) eqn:Hm; simpl.
  - unfold dict_mem in Hm.
    destruct (dict_get Qeq_bool (layer road) d) as [l|] eqn:Hg;
      [|discriminate].
    rewrite dict_keys_set. unfold dict_mem. now rewrite Hg.
  - rewrite dict_get_set_same;
      [|apply Qeq_bool_comm | apply Qeq_bool_trans' | apply Qeq_bool_refl].
    rewrite !dict_keys_set, Hm.
    replace (dict_mem Qeq_bool (layer road)
               (dict_set Qeq_bool (layer road) [] d)) with true;
      [reflexivity|].
    unfold dict_mem.
    now rewrite dict_get_set_same;
      [|apply Qeq_bool_comm | apply Qeq_bool_trans' | apply Qeq_bool_refl].
Qed.

(** The keys of [layered_roads] are pairwise different numbers, and each
    of them is the layer of a road. *)
Lemma layered_keys (roads : list Road) :
  NoDupA Qeq (dict_keys (layered_roads_of roads))
  /\ forall k, In k (dict_keys (layered_roads_of roads)) ->
               exists road, In road roads /\ layer road = k.
Proof.
  unfold layered_roads_of.
  induction roads as [|road roads IH] using rev_ind.
  - split; [constructor | intros k []].
  - destruct IH as [IHn IHk].
    rewrite for_app. unfold for_ at 1 3. simpl.
    rewrite group_road_keys.
    destruct (dict_mem Qeq_bool (layer road) (for_ roads group_road []))
      eqn:Hm.
    + split; [exact IHn|].
      intros k Hk. destruct (IHk k Hk) as (r & Hr & Hl).
      exists r. split; [apply in_or_app; now left | exact Hl].
    + split.
      * apply NoDupA_app; [exact Q_Setoid | exact IHn | | ].
        { constructor; [|constructor]. intros H. inversion H. }
        { intros x Hx Hx'. inversion_clear Hx' as [? ? Heq|? ? Hnil];
            [|inversion Hnil].
          rewrite dict_mem_keys in Hm.
          apply InA_alt in Hx. destruct Hx as (y & Hxy & Hy).
          assert (Ht : existsb (Qeq_bool (layer road))
                         (dict_keys (for_ roads group_road [])) = true).
          { apply existsb_exists. exists y. split; [exact Hy|].
            apply Qeq_bool_iff. rewrite <- Hxy, Heq. reflexivity. }
          congruence. }
      * intros k Hk. apply in_app_or in Hk. destruct Hk as [Hk|[<-|[]]].
        -- destruct (IHk k Hk) as (r & Hr & Hl).
           exists r. split; [apply in_or_app; now left | exact Hl].
        -- exists road. split; [apply in_or_app; right; now left|].
           reflexivity.
Qed.

(** ** The loops of [draw] *)

Lemma existsb_false_filter {A : Type} (p : A -> bool) (l : list A) :
  existsb p l = false -> filter p l = [].
Proof.
  induction l as [|x l IH]; simpl; [reflexivity|].
  intros H. apply orb_false_iff in H. destruct H as [-> H]. auto.
Qed.

Lemma filter_const {A : Type} (b : bool) (l : list A) :
  filter (fun _ => b) l = if b then l else [].
Proof.
  destruct b; induction l as [|x l IH]; simpl; congruence.
Qed.

Lemma layers_loop (roads : list Road) (keys : list Q) (svg : Drawing) :
  for_ keys
    (fun layer_ svg =>
       match dict_get Qeq_bool layer_ (layered_roads_of roads) with
       | None => svg
       | Some roads =>
           for_ roads
             (fun road svg =>
                svg_add svg (RoadDraw road (color (matcher road)) None))
             (for_ roads
                (fun road svg =>
                   svg_add svg
                     (RoadDraw road (border_color (matcher road)) (Some 2)))
                svg)
       end)
    svg
  = svg ++ flat_map (layer_calls roads) keys.
Proof.
  rewrite (for_ext _ _ (fun k svg => svg ++ layer_calls roads k)).
  - apply for_emit.
  - intros k s. rewrite layered_get. unfold layer_calls, svg_add.
    destruct (existsb (in_layer k) roads) eqn:He.
    + rewrite (for_emit_all border_call), (for_emit_all fill_call).
      now rewrite <- app_assoc.
    + rewrite (existsb_false_filter _ _ He). simpl. now rewrite app_nil_r.
Qed.

(** What [draw] adds to the canvas. *)
Lemma draw_adds (self : Map) (c : Constructor) (svg : Drawing) :
  draw self c svg = svg ++ drawn self c.
Proof.
  unfold draw, drawn, points_part. cbv zeta.
  fold (layered_roads_of (roads c)).
  fold (occupied_of self). fold (nodes_of c). fold (ways_of c).
  fold (draws_texts self).
  rewrite (for_ext (nodes_of c) _
             (fun p svg =>
                if (fun _ : Point => draws_texts self) p
                then svg ++ [DrawTexts p (occupied_of self)
                               (label_mode (configuration self))]
                else svg)) by reflexivity.
  rewrite for_emit_if.
  unfold svg_add.
  rewrite (for_emit_all (fun p => DrawExtraShapes p (occupied_of self))).
  rewrite (for_emit_all (fun p => DrawMainShapes p (occupied_of self))).
  rewrite draw_buildings_adds.
  rewrite (for_emit_all DirectionSectorDraw).
  rewrite (for_emit_all CraterDraw).
  rewrite (for_emit_all TreeDraw).
  rewrite (layers_loop (roads c)).
  rewrite (for_emit_if (has_path self) (path_of self)).
  fold (layers_of (roads c)).
  rewrite <- !app_assoc. simpl.
  rewrite filter_const. now destruct (draws_texts self).
Qed.

(** ** Which phase adds which kind of element *)

Lemma Forall_map_all {A B : Type} (P : B -> Prop) (g : A -> B) (l : list A) :
  (forall x, P (g x)) -> Forall P (map g l).
Proof. intros H. apply Forall_map, Forall_forall. auto. Qed.

Lemma Forall_flat_map_all {A B : Type} (P : B -> Prop) (g : A -> list B)
    (l : list A) :
  (forall x, Forall P (g x)) -> Forall P (flat_map g l).
Proof. intros H. apply Forall_flat_map, Forall_forall. auto. Qed.

Lemma buildings_part_kind (P : Element -> bool) (self : Map)
    (c : Constructor) :
  (forall b, P (BuildingDraw b) = false) ->
  (forall o l, P (Group o l) = false) ->
  (forall b h p s, P (DrawWalls b h p s) = false) ->
  (forall b s, P (DrawRoof b s) = false) ->
  Forall (fun e => P e = false) (buildings_part self c).
Proof.
  intros Hb Hg Hw Hr. unfold buildings_part, bands, band.
  destruct (is_flat self).
  - apply Forall_map_all. auto.
  - constructor; [auto|].
    apply Forall_flat_map_all. intros [p h].
    apply Forall_app. split; apply Forall_map_all; auto.
Qed.

Lemma points_part_kind (P : Element -> bool) (self : Map) (c : Constructor) :
  (forall p o, P (DrawMainShapes p o) = false) ->
  (forall p o, P (DrawExtraShapes p o) = false) ->
  (forall p o m, P (DrawTexts p o m) = false) ->
  Forall (fun e => P e = false) (points_part self c).
Proof.
  intros Hm He Ht. unfold points_part.
  repeat (apply Forall_app; split); try (apply Forall_map_all; auto).
  destruct (draws_texts self); [apply Forall_map_all; auto | constructor].
Qed.

Lemma roads_part_kind (P : Element -> bool) (roads : list Road)
    (keys : list Q) (tail : Drawing) :
  (forall r col w, P (RoadDraw r col w) = false) ->
  Forall (fun e => P e = false) tail ->
  Forall (fun e => P e = false) (flat_map (layer_calls roads) keys ++ tail).
Proof.
  intros Hr Ht. apply Forall_app. split; [|exact Ht].
  apply Forall_flat_map_all. intros k. unfold layer_calls.
  apply Forall_app. split; apply Forall_map_all; intros r; apply Hr.
Qed.

(** Trees, craters, direction sectors and buildings. *)
Lemma middle_part_kind (P : Element -> bool) (self : Map) (c : Constructor)
    (tail : Drawing) :
  (forall t, P (TreeDraw t) = false) ->
  (forall t, P (CraterDraw t) = false) ->
  (forall s, P (DirectionSectorDraw s) = false) ->
  (forall b, P (BuildingDraw b) = false) ->
  (forall o l, P (Group o l) = false) ->
  (forall b h p s, P (DrawWalls b h p s) = false) ->
  (forall b s, P (DrawRoof b s) = false) ->
  Forall (fun e => P e = false) tail ->
  Forall (fun e => P e = false)
    (map TreeDraw (trees c) ++ map CraterDraw (craters c)
     ++ map DirectionSectorDraw (direction_sectors c)
     ++ buildings_part self c ++ tail).
Proof.
  intros Ht Hc Hs Hb Hg Hw Hr Htail.
  apply Forall_app. split; [now apply Forall_map_all|].
  apply Forall_app. split; [now apply Forall_map_all|].
  apply Forall_app. split; [now apply Forall_map_all|].
  apply Forall_app. split; [now apply buildings_part_kind | exact Htail].
Qed.

Lemma StronglySorted_weaken {A : Type} (R R' : A -> A -> Prop) (l : list A) :
  (forall a b, R a b -> R' a b) -> StronglySorted R l -> StronglySorted R' l.
Proof.
  intros HR. induction 1 as [|a l Hs IH Ha]; constructor; [exact IH|].
  eapply Forall_impl; [|exact Ha]. auto.
Qed.

(** ** Figures (C5) *)

Lemma paths_of_ways (self : Map) (ways : list StyledFigure) :
  map (path_of self) (filter (has_path self) ways)
  = flat_map
      (fun way =>
         match get_path way (flinger self) with
         | EmptyString => []
         | d => [SVGPath d (style (line_style way))]
         end)
      ways.
Proof.
  induction ways as [|w l IH]; [reflexivity|].
  cbn [filter flat_map]. unfold has_path at 1.
  destruct (get_path w (flinger self)) eqn:Hd; cbn [truthy map app];
    rewrite IH; [reflexivity|].
  unfold path_of. now rewrite Hd.
Qed.

(** C5.  [draw] puts the paths of the figures on the canvas right after
    the background, in the order [ways] of the figures sorted by ascending
    style priority; the sort is stable (figures of one priority keep their
    input order); a figure whose path is the empty string adds nothing,
    and no later phase adds a path. *)
Theorem figures_drawn_by_ascending_priority
    (self : Map) (c : Constructor) (svg : Drawing) :
  exists (ways : list StyledFigure) (rest : Drawing),
    Permutation ways (figures c)
    /\ StronglySorted priority_le ways
    /\ (forall k,
          filter (fun w => Qeq_bool (priority (line_style w)) k) ways
          = filter (fun w => Qeq_bool (priority (line_style w)) k) (figures c))
    /\ draw self c svg
       = svg
         ++ Rect (0, 0) (size (flinger self)) (background_color self)
         :: flat_map
              (fun way =>
                 match get_path way (flinger self) with
                 | EmptyString => []
                 | d => [SVGPath d (style (line_style way))]
                 end)
              ways
         ++ rest
    /\ Forall (fun e => is_path e = false) rest.
Proof.
  exists (ways_of c).
  eexists. split; [apply sorted_perm|].
  split; [apply (sorted_ascending (fun x => priority (line_style x)))|].
  split; [intros k; apply (sorted_stable (fun x => priority (line_style x)))|].
  split.
  - rewrite draw_adds. unfold drawn. now rewrite paths_of_ways.
  - apply roads_part_kind; [reflexivity|].
    apply middle_part_kind; try reflexivity.
    apply points_part_kind; reflexivity.
Qed.

(** ** Points (C3) *)

Lemma Qeq_bool_opp (a b : Q) : Qeq_bool (- a) (- b) = Qeq_bool a b.
Proof.
  destruct (Qeq_bool a b) eqn:H.
  - apply Qeq_bool_iff in H. apply Qeq_bool_iff. now rewrite H.
  - destruct (Qeq_bool (- a) (- b)) eqn:H'; [|reflexivity].
    apply Qeq_bool_iff in H'.
    assert (Hab : a == b) by lra.
    apply Qeq_bool_iff in Hab. congruence.
Qed.

Lemma nodes_of_descending (c : Constructor) :
  Permutation (nodes_of c) (points c)
  /\ StronglySorted priority_ge (nodes_of c)
  /\ (forall k,
        filter (fun p => Qeq_bool (point_priority p) k) (nodes_of c)
        = filter (fun p => Qeq_bool (point_priority p) k) (points c)).
Proof.
  unfold nodes_of. split; [apply sorted_perm|]. split.
  - apply StronglySorted_weaken
      with (R := key_le (fun x => - point_priority x)).
    + unfold key_le, priority_ge. intros a b H. lra.
    + apply sorted_ascending.
  - intros k.
    rewrite (filter_ext _ (fun p => Qeq_bool (- point_priority p) (- k)))
      by (intros p; now rewrite Qeq_bool_opp).
    rewrite (sorted_stable (fun x => - point_priority x)).
    apply filter_ext. intros p. apply Qeq_bool_opp.
Qed.

(** C3.  The last elements [draw] adds are three passes over one list
    [nodes], the points sorted by descending priority (a stable sort):
    the main shapes of every point, then the extra shapes of every point,
    then the texts of every point; the texts are drawn when the
    configuration is not wireframe and the label mode is not [NO], and
    not drawn at all otherwise.  No earlier phase draws a point. *)
Theorem points_drawn_in_three_passes
    (self : Map) (c : Constructor) (svg : Drawing) :
  exists (nodes : list Point) (before texts : Drawing),
    Permutation nodes (points c)
    /\ StronglySorted priority_ge nodes
    /\ (forall k,
          filter (fun p => Qeq_bool (point_priority p) k) nodes
          = filter (fun p => Qeq_bool (point_priority p) k) (points c))
    /\ draw self c svg
       = svg ++ before
         ++ map (fun p => DrawMainShapes p (occupied_of self)) nodes
         ++ map (fun p => DrawExtraShapes p (occupied_of self)) nodes
         ++ texts
    /\ Forall (fun e => is_point_call e = false) before
    /\ (is_wireframe (configuration self) = false ->
        label_mode (configuration self) <> NO ->
        texts = map (fun p => DrawTexts p (occupied_of self)
                                (label_mode (configuration self))) nodes)
    /\ (is_wireframe (configuration self) = true
        \/ label_mode (configuration self) = NO ->
        texts = []).
Proof.
  destruct (nodes_of_descending c) as (Hp & Hs & Hst).
  exists (nodes_of c).
  exists (Rect (0, 0) (size (flinger self)) (background_color self)
          :: map (path_of self) (filter (has_path self) (ways_of c))
          ++ flat_map (layer_calls (roads c)) (layers_of (roads c))
          ++ map TreeDraw (trees c)
          ++ map CraterDraw (craters c)
          ++ map DirectionSectorDraw (direction_sectors c)
          ++ buildings_part self c).
  exists (if draws_texts self
          then map (fun p => DrawTexts p (occupied_of self)
                                (label_mode (configuration self)))
                   (nodes_of c)
          else []).
  split; [exact Hp|]. split; [exact Hs|]. split; [exact Hst|].
  split; [|split; [|split]].
  - rewrite draw_adds. unfold drawn, points_part.
    simpl. now rewrite <- !app_assoc.
  - constructor; [reflexivity|].
    apply Forall_app. split; [apply Forall_map_all; reflexivity|].
    apply roads_part_kind; [reflexivity|].
    rewrite <- (app_nil_r (buildings_part self c)).
    apply middle_part_kind; try reflexivity. constructor.
  - intros Hw Hl. unfold draws_texts. rewrite Hw.
    destruct (label_mode (configuration self)); [congruence | | ];
      reflexivity.
  - intros [Hw|Hl]; unfold draws_texts.
    + now rewrite Hw.
    + rewrite Hl. now rewrite andb_false_r.
Qed.

(** ** Wireframe mode (C8) *)

(** C8.  When the configuration is wireframe, the first element [draw]
    adds is the background rectangle filled with [#111111], whatever the
    scheme and the label mode are, and no other rectangle and no text of
    a point follows. *)
Theorem wireframe_background_and_no_texts
    (fl : Flinger) (sch : Scheme) (cfg : MapConfiguration)
    (c : Constructor) (svg : Drawing) :
  is_wireframe cfg = true ->
  exists rest : Drawing,
    draw (Map_init fl sch cfg) c svg
    = svg ++ Rect (0, 0) (size fl) "#111111"%string :: rest
    /\ Forall (fun e => is_rect e = false /\ is_texts e = false) rest.
Proof.
  intros Hw. set (self := Map_init fl sch cfg).
  assert (Hbg : background_color self = "#111111"%string)
    by (unfold self, Map_init; simpl; now rewrite Hw).
  assert (Ht : draws_texts self = false)
    by (unfold draws_texts, self, Map_init; simpl; now rewrite Hw).
  eexists. split.
  - rewrite draw_adds. unfold drawn. rewrite Hbg. reflexivity.
  - apply Forall_impl with (P := fun e => is_rect e || is_texts e = false).
    { intros e He. now apply orb_false_iff in He. }
    apply Forall_app. split; [apply Forall_map_all; reflexivity|].
    apply roads_part_kind; [reflexivity|].
    apply middle_part_kind; try reflexivity.
    unfold points_part. rewrite Ht, app_nil_r.
    apply Forall_app. split; apply Forall_map_all; reflexivity.
Qed.

Lemma wireframe_background_and_no_texts_witness :
  exists rest : Drawing,
    draw (Sample.map_ true EXTRUDED) Sample.constructor []
    = [] ++ Rect (0, 0) (size Sample.flinger) "#111111"%string :: rest
    /\ Forall (fun e => is_rect e = false /\ is_texts e = false) rest.
Proof.
  apply (wireframe_background_and_no_texts Sample.flinger Sample.scheme
           (Sample.configuration true EXTRUDED) Sample.constructor []).
  reflexivity.
Defined.

(** ** Building modes (C7) *)

Lemma not_flat (mode : BuildingMode) :
  mode <> FLAT -> BuildingMode_eqb mode FLAT = false.
Proof. destruct mode; [congruence | reflexivity | reflexivity]. Qed.

(** C7, as the code behaves.  [draw_buildings] compares the mode with
    [FLAT] only: with any other mode, recognized or not, [draw] raises
    nothing and adds exactly the elements of the extruded mode, the
    background rectangle first. *)
Theorem other_building_modes_are_drawn_extruded
    (fl : Flinger) (sch : Scheme) (cfg : MapConfiguration)
    (c : Constructor) (svg : Drawing) :
  building_mode cfg <> FLAT ->
  draw (Map_init fl sch cfg) c svg
  = draw (Map_init fl sch (with_building_mode cfg EXTRUDED)) c svg
  /\ draw_buildings (Map_init fl sch cfg) c svg
     = svg ++ Group (1 # 10) (buildings c)
       :: bands (Map_init fl sch cfg) c 0 (sorted (fun h => h) (heights c))
  /\ exists rest : Drawing,
       draw (Map_init fl sch cfg) c svg
       = svg ++ Rect (0, 0) (size fl)
                  (background_color (Map_init fl sch cfg)) :: rest.
Proof.
  intros Hm. apply not_flat in Hm.
  split; [|split].
  - rewrite !draw_adds. f_equal.
    unfold drawn, buildings_part, is_flat, points_part, bands, band.
    simpl. rewrite Hm. reflexivity.
  - rewrite draw_buildings_adds. unfold buildings_part, is_flat. simpl.
    now rewrite Hm.
  - eexists. rewrite draw_adds. unfold drawn. reflexivity.
Qed.

Lemma other_building_modes_are_drawn_extruded_witness :
  draw (Sample.map_ false (OTHER "cubic"%string)) Sample.constructor []
  = draw (Map_init Sample.flinger Sample.scheme
            (with_building_mode
               (Sample.configuration false (OTHER "cubic"%string)) EXTRUDED))
      Sample.constructor [].
Proof.
  apply (other_building_modes_are_drawn_extruded Sample.flinger Sample.scheme
           (Sample.configuration false (OTHER "cubic"%string))
           Sample.constructor []).
  simpl. discriminate.
Defined.

(** C7, as stated, fails: with a building mode that is neither flat nor
    extruded, [draw] on an empty canvas returns a canvas with the
    background, the shade, the walls and the roof of the building and the
    shapes and texts of the points: drawing has begun and run to its end. *)
Lemma unrecognized_mode_draws :
  building_mode (Sample.configuration false (OTHER "cubic"%string)) <> FLAT
  /\ building_mode (Sample.configuration false (OTHER "cubic"%string)) <> EXTRUDED
  /\ draw (Sample.map_ false (OTHER "cubic"%string)) Sample.constructor []
     = (let s := get_scale Sample.flinger None / 3 in
        let o := occupied_of (Sample.map_ false (OTHER "cubic"%string)) in
        [ Rect (0, 0) (100, 50) "#EEEEEE"%string;
          Group (1 # 10) [Sample.building];
          DrawWalls Sample.building 3 0 s;
          DrawWalls Sample.building 6 3 s;
          DrawWalls Sample.building 9 6 s;
          DrawRoof Sample.building s;
          DrawMainShapes (Sample.point 2 5) o;
          DrawMainShapes (Sample.point 1 1) o;
          DrawExtraShapes (Sample.point 2 5) o;
          DrawExtraShapes (Sample.point 1 1) o;
          DrawTexts (Sample.point 2 5) o ALL;
          DrawTexts (Sample.point 1 1) o ALL ])
  /\ draw (Sample.map_ false (OTHER "cubic"%string)) Sample.constructor [] <> [].
Proof.
  split; [discriminate|]. split; [discriminate|].
  split; [reflexivity | discriminate].
Qed.

(** ** Buildings (C1) *)

(** The pairs of a height with the height before it, in a strictly
    ascending list that is entered with [p0] as previous height. *)
Lemma In_combine_previous (hs : list Q) :
  StronglySorted Qlt hs ->
  forall p0 p h,
    In (p, h) (combine (p0 :: hs) hs)
    <-> In h hs
        /\ ((In p hs /\ p < h /\ forall x, In x hs -> x < h -> x <= p)
            \/ (p = p0 /\ forall x, In x hs -> h <= x)).
Proof.
  induction 1 as [|a hs Hs IH Ha]; intros p0 p h.
  - simpl. tauto.
  - rewrite Forall_forall in Ha.
    change (combine (p0 :: a :: hs) (a :: hs))
      with ((p0, a) :: combine (a :: hs) hs).
    split.
    + intros [Heq|Hin].
      * injection Heq as <- <-. split; [now left|]. right.
        split; [reflexivity|].
        intros x [<-|Hx]; [apply Qle_refl|].
        apply Qlt_le_weak. now apply Ha.
      * apply IH in Hin. destruct Hin as (Hh & [(Hp & Hlt & Hmax)|(-> & Hmin)]).
        -- split; [now right|]. left. split; [now right|].
           split; [exact Hlt|].
           intros x [<-|Hx] Hxh; [|now apply Hmax].
           apply Qlt_le_weak. now apply Ha.
        -- split; [now right|]. left. split; [now left|].
           split; [now apply Ha|].
           intros x [<-|Hx] Hxh; [apply Qle_refl|].
           specialize (Hmin x Hx). lra.
    + intros (Hh & Hd).
      destruct Hd as [(Hp & Hlt & Hmax)|(-> & Hmin)].
      * destruct Hh as [<-|Hh].
        { exfalso. destruct Hp as [<-|Hp]; [lra|].
          specialize (Ha p Hp). lra. }
        right. apply IH. split; [exact Hh|].
        destruct Hp as [<-|Hp].
        -- right. split; [reflexivity|].
           intros x Hx. destruct (Qlt_le_dec x h) as [Hxh|Hhx]; [|exact Hhx].
           specialize (Hmax x (or_intror Hx) Hxh).
           specialize (Ha x Hx). lra.
        -- left. split; [exact Hp|]. split; [exact Hlt|].
           intros x Hx. apply Hmax. now right.
      * destruct Hh as [<-|Hh]; [now left|].
        exfalso. specialize (Hmin a (or_introl eq_refl)).
        specialize (Ha h Hh). lra.
Qed.

Lemma In_snd_combine {A : Type} (p0 : A) (l : list A) (h : A) :
  In h l -> exists p, In (p, h) (combine (p0 :: l) l).
Proof.
  revert p0. induction l as [|a l IH]; intros p0 Hin; [destruct Hin|].
  change (combine (p0 :: a :: l) (a :: l))
    with ((p0, a) :: combine (a :: l) l).
  destruct Hin as [<-|Hin].
  - exists p0. now left.
  - destruct (IH a Hin) as (p & Hp). exists p. now right.
Qed.

Lemma wall_spans_iff (h : Q) (b : Building) :
  wall_spans h b = true <-> min_height b <= h /\ h <= height b.
Proof.
  unfold wall_spans. rewrite andb_true_iff, !Qle_bool_iff. reflexivity.
Qed.

Lemma In_walls_band (self : Map) (c : Constructor) (p' h' : Q)
    (b : Building) (h p s : Q) :
  In (DrawWalls b h p s) (band self c p' h')
  <-> In b (buildings c) /\ wall_spans h b = true
      /\ h = h' /\ p = p' /\ s = scale_of self.
Proof.
  unfold band. rewrite in_app_iff, !in_map_iff. split.
  - intros [(b' & Heq & Hin)|(b' & Heq & _)]; [|discriminate].
    injection Heq as <- <- <- <-. apply filter_In in Hin. tauto.
  - intros (Hb & Hw & -> & -> & ->). left. exists b.
    split; [reflexivity|]. now apply filter_In.
Qed.

Lemma In_roofs_band (self : Map) (c : Constructor) (p' h' : Q)
    (b : Building) (s : Q) :
  In (DrawRoof b s) (band self c p' h')
  <-> In b (buildings c) /\ height b == h' /\ s = scale_of self.
Proof.
  unfold band, roof_at. rewrite in_app_iff, !in_map_iff. split.
  - intros [(b' & Heq & _)|(b' & Heq & Hin)]; [discriminate|].
    injection Heq as <- <-. apply filter_In in Hin.
    rewrite Qeq_bool_iff in Hin. tauto.
  - intros (Hb & Hh & ->). right. exists b.
    split; [reflexivity|]. apply filter_In. now rewrite Qeq_bool_iff.
Qed.

Lemma is_set_NoDupA (l : list Q) : is_set l = true -> NoDupA Qeq l.
Proof.
  induction l as [|x l IH]; simpl; intros H; [constructor|].
  apply andb_true_iff in H. destruct H as [Hx Hl].
  constructor; [|now apply IH].
  intros Hin. apply InA_alt in Hin. destruct Hin as (y & Hxy & Hy).
  apply negb_true_iff in Hx.
  assert (Ht : existsb (Qeq_bool x) l = true).
  { apply existsb_exists. exists y. split; [exact Hy|].
    now apply Qeq_bool_iff. }
  congruence.
Qed.

(** C1, as the code behaves.  In a building mode other than flat,
    [draw_buildings] adds the shade group of all buildings and then, for
    each height [h] of the set of heights in strictly ascending order
    [hs], with [previous_height] the height before [h] in [hs] (0 for the
    first): a wall call [DrawWalls b h previous_height scale] for exactly
    the buildings [b] with [min_height b <= h <= height b] (both bounds
    included), then a roof call for exactly the buildings with
    [height b == h]; [scale] is the scale of the projector divided by 3.
    For the building of height 9 and minimum height 3 and the set of
    heights {3, 6, 9} the calls are walls at 3, 6 and 9 and then the
    roof. *)
Theorem walls_and_roofs_by_height_band
    (self : Map) (c : Constructor) (svg : Drawing) :
  building_mode (configuration self) <> FLAT ->
  is_set (heights c) = true ->
  (exists (hs : list Q) (added : Drawing),
      Permutation hs (heights c)
      /\ StronglySorted Qlt hs
      /\ draw_buildings self c svg = svg ++ Group (1 # 10) (buildings c) :: added
      /\ added
         = flat_map
             (fun '(previous_height, h) =>
                map (fun b =>
                       DrawWalls b h previous_height
                         (get_scale (flinger self) None / 3))
                    (filter (fun b => Qle_bool (min_height b) h
                                      && Qle_bool h (height b))
                            (buildings c))
                ++ map (fun b =>
                          DrawRoof b (get_scale (flinger self) None / 3))
                       (filter (fun b => Qeq_bool (height b) h)
                               (buildings c)))
             (combine (0 :: hs) hs)
      /\ (forall b h p s,
            In (DrawWalls b h p s) added
            <-> In b (buildings c) /\ In h (heights c)
                /\ min_height b <= h /\ h <= height b
                /\ previous_of (heights c) h p
                /\ s = get_scale (flinger self) None / 3)
      /\ (forall b s,
            In (DrawRoof b s) added
            <-> In b (buildings c)
                /\ (exists h, In h (heights c) /\ height b == h)
                /\ s = get_scale (flinger self) None / 3))
  /\ draw_buildings self Sample.constructor []
     = (let s := get_scale (flinger self) None / 3 in
        [ Group (1 # 10) [Sample.building];
          DrawWalls Sample.building 3 0 s;
          DrawWalls Sample.building 6 3 s;
          DrawWalls Sample.building 9 6 s;
          DrawRoof Sample.building s ]).
Proof.
  intros Hm Hset. apply not_flat in Hm. apply is_set_NoDupA in Hset.
  pose proof (sorted_set_strict (heights c) Hset) as Hsorted.
  pose proof (sorted_perm (fun h : Q => h) (heights c)) as Hperm.
  assert (HIn : forall x, In x (sorted (fun h => h) (heights c))
                          <-> In x (heights c))
    by (intros x; apply sorted_In).
  split.
  - exists (sorted (fun h => h) (heights c)).
    exists (bands self c 0 (sorted (fun h => h) (heights c))).
    split; [exact Hperm|]. split; [exact Hsorted|].
    split; [|split; [|split]].
    + rewrite draw_buildings_adds. unfold buildings_part, is_flat.
      now rewrite Hm.
    + reflexivity.
    + intros b h p s. unfold bands. rewrite in_flat_map. split.
      * intros ([p' h'] & Hin & Hw).
        apply In_walls_band in Hw.
        destruct Hw as (Hb & Hspan & -> & -> & ->).
        apply (In_combine_previous _ Hsorted) in Hin.
        destruct Hin as (Hh & Hprev).
        apply wall_spans_iff in Hspan.
        split; [exact Hb|].
        split; [now apply HIn|].
        split; [tauto|]. split; [tauto|]. split; [|reflexivity].
        unfold previous_of.
        destruct Hprev as [(Hp & Hlt & Hmax)|(-> & Hmin)]; [left|right].
        -- split; [now apply HIn|].
           split; [exact Hlt|]. intros x Hx. apply Hmax. now apply HIn.
        -- split; [reflexivity|]. intros x Hx. apply Hmin. now apply HIn.
      * intros (Hb & Hh & Hlo & Hhi & Hprev & ->).
        exists (p, h). split.
        -- apply (In_combine_previous _ Hsorted).
           split; [now apply HIn|].
           destruct Hprev as [(Hp & Hlt & Hmax)|(-> & Hmin)]; [left|right].
           ++ split; [now apply HIn|].
              split; [exact Hlt|]. intros x Hx. apply Hmax. now apply HIn.
           ++ split; [reflexivity|]. intros x Hx. apply Hmin.
              now apply HIn.
        -- apply In_walls_band. rewrite wall_spans_iff. tauto.
    + intros b s. unfold bands. rewrite in_flat_map. split.
      * intros ([p' h'] & Hin & Hr).
        apply In_roofs_band in Hr. destruct Hr as (Hb & Hh & ->).
        apply in_combine_r in Hin. apply HIn in Hin.
        split; [exact Hb|]. split; [|reflexivity]. now exists h'.
      * intros (Hb & (h & Hh & Heq) & ->).
        apply HIn in Hh.
        destruct (In_snd_combine 0 _ _ Hh) as (p & Hp).
        exists (p, h). split; [exact Hp|].
        apply In_roofs_band. tauto.
  - rewrite draw_buildings_adds. unfold buildings_part, is_flat.
    rewrite Hm. reflexivity.
Qed.

Lemma walls_and_roofs_by_height_band_witness :
  draw_buildings (Sample.map_ false EXTRUDED) Sample.constructor []
  = (let s := get_scale (flinger (Sample.map_ false EXTRUDED)) None / 3 in
     [ Group (1 # 10) [Sample.building];
       DrawWalls Sample.building 3 0 s;
       DrawWalls Sample.building 6 3 s;
       DrawWalls Sample.building 9 6 s;
       DrawRoof Sample.building s ]).
Proof.
  apply (walls_and_roofs_by_height_band
           (Sample.map_ false EXTRUDED) Sample.constructor []).
  - simpl. discriminate.
  - reflexivity.
Defined.

(** C1, as stated, fails.  For the building of height 9 and minimum
    height 3 and the set of heights {3, 6, 9}, the walls are also drawn at
    [h = 9], which is not below the height of the building, and at
    [h = 3], which is neither 6 nor 9. *)
Lemma walls_drawn_at_top_height :
  ~ (forall b h p s,
       In (DrawWalls b h p s)
          (draw_buildings (Sample.map_ false EXTRUDED) Sample.constructor [])
       -> min_height b <= h /\ h < height b)
  /\ ~ (forall h p s,
          In (DrawWalls Sample.building h p s)
             (draw_buildings (Sample.map_ false EXTRUDED)
                Sample.constructor [])
          -> h == 6 \/ h == 9).
Proof.
  set (out := draw_buildings (Sample.map_ false EXTRUDED)
                Sample.constructor []).
  split.
  - intros H.
    assert (Hin : In (DrawWalls Sample.building 9 6
                        (get_scale Sample.flinger None / 3)) out)
      by (vm_compute; tauto).
    apply H in Hin. destruct Hin as [_ Hlt]. simpl in Hlt. lra.
  - intros H.
    assert (Hin : In (DrawWalls Sample.building 3 0
                        (get_scale Sample.flinger None / 3)) out)
      by (vm_compute; tauto).
    apply H in Hin. destruct Hin as [Heq|Heq]; lra.
Qed.

(** ** Roads (C4) *)

Lemma StronglySorted_app {A : Type} (R : A -> A -> Prop) (l1 l2 : list A) :
  StronglySorted R l1 -> StronglySorted R l2 ->
  (forall x y, In x l1 -> In y l2 -> R x y) ->
  StronglySorted R (l1 ++ l2).
Proof.
  induction 1 as [|a l1 Hs IH Ha]; intros H2 Hc; simpl; [exact H2|].
  constructor.
  - apply IH; [exact H2|]. intros x y Hx Hy. apply Hc; [now right | exact Hy].
  - apply Forall_app. split; [exact Ha|].
    apply Forall_forall. intros y Hy. apply Hc; [now left | exact Hy].
Qed.

Lemma StronglySorted_flat_map {K A : Type} (RK : K -> K -> Prop)
    (R : A -> A -> Prop) (f : K -> list A) (keys : list K) :
  StronglySorted RK keys ->
  (forall k, StronglySorted R (f k)) ->
  (forall k1 k2 x y, RK k1 k2 -> In x (f k1) -> In y (f k2) -> R x y) ->
  StronglySorted R (flat_map f keys).
Proof.
  intros Hk Hf Hc.
  induction Hk as [|k keys Hs IH Hkk]; simpl; [constructor|].
  apply StronglySorted_app; [apply Hf | exact IH|].
  intros x y Hx Hy. apply in_flat_map in Hy. destruct Hy as (k2 & Hk2 & Hy).
  rewrite Forall_forall in Hkk. now apply (Hc k k2); [apply Hkk| |].
Qed.

(** In a list sorted for [R], an element is related to every later one. *)
Lemma StronglySorted_later {A : Type} (R : A -> A -> Prop)
    (l1 l2 l3 : list A) (x y : A) :
  StronglySorted R (l1 ++ x :: l2 ++ y :: l3) -> R x y.
Proof.
  induction l1 as [|a l1 IH]; simpl; intros Hs.
  - apply StronglySorted_inv in Hs. destruct Hs as [_ Hx].
    rewrite Forall_forall in Hx. apply Hx.
    apply in_or_app. right. now left.
  - apply StronglySorted_inv in Hs. now apply IH.
Qed.

Lemma In_layer_calls (roads : list Road) (k : Q) (e : Element) :
  In e (layer_calls roads k) ->
  exists r, In r roads /\ layer r == k
            /\ (e = border_call r \/ e = fill_call r).
Proof.
  unfold layer_calls. rewrite in_app_iff, !in_map_iff.
  intros [(r & <- & Hr)|(r & <- & Hr)];
    apply filter_In in Hr; destruct Hr as [Hr Hl];
    apply Qeq_bool_iff in Hl; exists r; auto.
Qed.

Lemma call_order_same_layer (k : Q) (r1 r2 : Road) (c1 c2 : Color)
    (w1 w2 : option Q) :
  layer r1 == k -> layer r2 == k -> (w1 = None -> w2 = None) ->
  call_order (RoadDraw r1 c1 w1) (RoadDraw r2 c2 w2).
Proof.
  intros H1 H2 Hw. simpl. split; [rewrite H1, H2; apply Qle_refl|].
  intros _. exact Hw.
Qed.

Lemma same_layer_calls_ordered (k : Q) (g : Road -> Element)
    (l : list Road) :
  (g = border_call \/ g = fill_call) ->
  Forall (fun r => layer r == k) l ->
  StronglySorted call_order (map g l).
Proof.
  intros Hg. induction 1 as [|r l Hr Hl IH]; simpl; constructor;
    [exact IH|].
  apply Forall_map, Forall_forall. intros r' Hr'.
  rewrite Forall_forall in Hl. specialize (Hl r' Hr').
  destruct Hg as [-> | ->]; unfold border_call, fill_call;
    apply (call_order_same_layer k); auto.
Qed.

Lemma layer_calls_ordered (roads : list Road) (k : Q) :
  StronglySorted call_order (layer_calls roads k).
Proof.
  assert (Hk : Forall (fun r => layer r == k) (filter (in_layer k) roads)).
  { apply Forall_forall. intros r Hr. apply filter_In in Hr.
    now apply Qeq_bool_iff. }
  unfold layer_calls. apply StronglySorted_app.
  - apply (same_layer_calls_ordered k); auto.
  - apply (same_layer_calls_ordered k); auto.
  - intros x y Hx Hy. apply in_map_iff in Hx, Hy.
    destruct Hx as (r1 & <- & H1). destruct Hy as (r2 & <- & H2).
    rewrite Forall_forall in Hk.
    apply (call_order_same_layer k); auto.
Qed.

(** The calls of all layers, the layers strictly ascending. *)
Lemma road_calls_ordered (roads : list Road) (keys : list Q) :
  StronglySorted Qlt keys ->
  StronglySorted call_order (flat_map (layer_calls roads) keys).
Proof.
  intros Hk.
  apply StronglySorted_flat_map with (RK := Qlt);
    [exact Hk | apply layer_calls_ordered|].
  intros k1 k2 x y Hlt Hx Hy.
  apply In_layer_calls in Hx, Hy.
  destruct Hx as (r1 & _ & H1 & Hx). destruct Hy as (r2 & _ & H2 & Hy).
  assert (Hl : layer r1 < layer r2) by (rewrite H1, H2; exact Hlt).
  destruct Hx as [-> | ->], Hy as [-> | ->]; simpl;
    (split; [lra | intros Heq; rewrite Heq in Hl; lra]).
Qed.

Lemma layers_of_strict (roads : list Road) :
  StronglySorted Qlt (layers_of roads).
Proof. apply sorted_set_strict, layered_keys. Qed.

(** The layers partition the roads. *)
Lemma in_other_layer (r : Road) (k : Q) (keys : list Q) :
  in_layer k r = true -> ~ InA Qeq k keys ->
  existsb (fun k' => in_layer k' r) keys = false.
Proof.
  intros Hk Hnin.
  destruct (existsb (fun k' => in_layer k' r) keys) eqn:He; [|reflexivity].
  exfalso. apply Hnin. apply existsb_exists in He.
  destruct He as (k' & Hk' & Hl). apply InA_alt. exists k'.
  split; [|exact Hk']. unfold in_layer in *.
  apply Qeq_bool_iff in Hk, Hl. now rewrite <- Hk, <- Hl.
Qed.

Lemma layers_of_new_road (r : Road) (rs : list Road) (keys : list Q) :
  NoDupA Qeq keys ->
  if existsb (fun k => in_layer k r) keys
  then Permutation
         (flat_map (fun k => filter (in_layer k) (r :: rs)) keys)
         (r :: flat_map (fun k => filter (in_layer k) rs) keys)
  else flat_map (fun k => filter (in_layer k) (r :: rs)) keys
       = flat_map (fun k => filter (in_layer k) rs) keys.
Proof.
  set (F := fun k => filter (in_layer k) (r :: rs)).
  set (G := fun k => filter (in_layer k) rs).
  induction 1 as [|k keys Hnin Hnd IH]; [reflexivity|].
  change (flat_map F (k :: keys)) with (F k ++ flat_map F keys).
  change (flat_map G (k :: keys)) with (G k ++ flat_map G keys).
  change (existsb (fun k0 => in_layer k0 r) (k :: keys))
    with (in_layer k r || existsb (fun k0 => in_layer k0 r) keys).
  assert (HF : F k = if in_layer k r then r :: G k else G k) by reflexivity.
  rewrite HF.
  destruct (in_layer k r) eqn:Hk; cbn [orb].
  - rewrite (in_other_layer r k keys Hk Hnin) in IH. now rewrite IH.
  - destruct (existsb (fun k' => in_layer k' r) keys).
    + rewrite IH. symmetry. apply Permutation_middle.
    + now rewrite IH.
Qed.

Lemma layers_partition (roads : list Road) (keys : list Q) :
  NoDupA Qeq keys ->
  (forall r, In r roads -> existsb (fun k => in_layer k r) keys = true) ->
  Permutation (flat_map (fun k => filter (in_layer k) roads) keys) roads.
Proof.
  intros Hnd. induction roads as [|r rs IH]; intros Hcov.
  - clear Hnd Hcov. induction keys as [|k keys IHk]; [reflexivity|].
    exact IHk.
  - pose proof (layers_of_new_road r rs keys Hnd) as Hnew.
    rewrite (Hcov r (or_introl eq_refl)) in Hnew.
    rewrite Hnew. constructor. apply IH.
    intros r' Hr'. apply Hcov. now right.
Qed.

Lemma Permutation_flat_map_app {K A : Type} (f g : K -> list A)
    (keys : list K) :
  Permutation (flat_map (fun k => f k ++ g k) keys)
              (flat_map f keys ++ flat_map g keys).
Proof.
  induction keys as [|k keys IH]; simpl; [reflexivity|].
  rewrite IH, <- !app_assoc. apply Permutation_app_head.
  rewrite !app_assoc. apply Permutation_app_tail.
  apply Permutation_app_comm.
Qed.

Lemma flat_map_map {K A B : Type} (g : A -> B) (f : K -> list A)
    (keys : list K) :
  flat_map (fun k => map g (f k)) keys = map g (flat_map f keys).
Proof.
  induction keys as [|k keys IH]; simpl; [reflexivity|].
  now rewrite IH, map_app.
Qed.

Lemma layers_of_cover (roads : list Road) (r : Road) :
  In r roads ->
  existsb (fun k => in_layer k r) (layers_of roads) = true.
Proof.
  intros Hr.
  assert (Hm : dict_mem Qeq_bool (layer r) (layered_roads_of roads) = true).
  { unfold dict_mem. rewrite layered_get.
    replace (existsb (in_layer (layer r)) roads) with true; [reflexivity|].
    symmetry. apply existsb_exists. exists r. split; [exact Hr|].
    apply Qeq_bool_refl. }
  rewrite dict_mem_keys in Hm. apply existsb_exists in Hm.
  destruct Hm as (k & Hk & Heq).
  apply existsb_exists. exists k. split.
  - now apply (sorted_In (fun k : Q => k)).
  - unfold in_layer. exact Heq.
Qed.

(** Every road has one border call and one fill call. *)
Lemma road_calls_perm (roads : list Road) :
  Permutation (flat_map (layer_calls roads) (layers_of roads))
              (map border_call roads ++ map fill_call roads).
Proof.
  assert (Hp : Permutation
                 (flat_map (fun k => filter (in_layer k) roads)
                    (layers_of roads))
                 roads).
  { apply layers_partition.
    - apply NoDupA_Qeq_perm with (dict_keys (layered_roads_of roads));
        [symmetry; apply sorted_perm | apply layered_keys].
    - apply layers_of_cover. }
  unfold layer_calls. rewrite Permutation_flat_map_app, !flat_map_map.
  apply Permutation_app; apply Permutation_map; exact Hp.
Qed.

(** C4.  The calls of [road.draw] that [draw] adds form one block
    [calls]; no element before or after the block is such a call.  The
    block holds one border call (border colour, extra width 2) and one
    fill call (fill colour, no extra width) per road.  Of two calls of the
    block the later one has the same or a greater layer, and when both
    have the same layer and the earlier one is a fill the later one is a
    fill too: in each layer all borders come before all fills. *)
Theorem roads_by_layer_borders_before_fills
    (self : Map) (c : Constructor) (svg : Drawing) :
  exists before calls after : Drawing,
    draw self c svg = svg ++ before ++ calls ++ after
    /\ Forall (fun e => is_road_call e = false) before
    /\ Forall (fun e => is_road_call e = false) after
    /\ Permutation calls
         (map (fun r => RoadDraw r (border_color (matcher r)) (Some 2))
              (roads c)
          ++ map (fun r => RoadDraw r (color (matcher r)) None) (roads c))
    /\ forall l1 l2 l3 r1 c1 w1 r2 c2 w2,
         calls = l1 ++ RoadDraw r1 c1 w1 :: l2 ++ RoadDraw r2 c2 w2 :: l3 ->
         layer r1 <= layer r2
         /\ (layer r1 == layer r2 -> w1 = None -> w2 = None).
Proof.
  exists (Rect (0, 0) (size (flinger self)) (background_color self)
          :: map (path_of self) (filter (has_path self) (ways_of c))).
  exists (flat_map (layer_calls (roads c)) (layers_of (roads c))).
  exists (map TreeDraw (trees c) ++ map CraterDraw (craters c)
          ++ map DirectionSectorDraw (direction_sectors c)
          ++ buildings_part self c ++ points_part self c).
  split; [|split; [|split; [|split]]].
  - rewrite draw_adds. unfold drawn. simpl. reflexivity.
  - constructor; [reflexivity|]. apply Forall_map_all. reflexivity.
  - apply middle_part_kind; try reflexivity.
    apply points_part_kind; reflexivity.
  - apply road_calls_perm.
  - intros l1 l2 l3 r1 c1 w1 r2 c2 w2 Heq.
    pose proof (road_calls_ordered (roads c) (layers_of (roads c))
                  (layers_of_strict (roads c))) as Hs.
    rewrite Heq in Hs. apply StronglySorted_later in Hs. exact Hs.
Qed.

(** ** The first loop of [draw_roads] *)

(** [segments ring] has the [len(ring) - 1] pairs the loop over [index]
    reads. *)
Lemma segments_length (ring : list OSMNode) :
  length (segments ring) = (length ring - 1)%nat.
Proof.
  unfold segments. rewrite length_combine.
  destruct ring as [|a ring]; [reflexivity|].
  cbn [tl length]. rewrite Nat.min_r by apply Nat.le_succ_diag_r.
  now rewrite Nat.sub_1_r.
Qed.

Lemma segments_nth (ring : list OSMNode) (index : nat) (a b : OSMNode) :
  nth_error ring index = Some a -> nth_error ring (S index) = Some b ->
  nth_error (segments ring) index = Some (a, b).
Proof.
  unfold segments. revert index.
  induction ring as [|x ring IH]; intros index Ha Hb;
    [destruct index; discriminate|].
  destruct index as [|index]; simpl in *.
  - destruct ring as [|y ring]; [discriminate|].
    simpl in *. congruence.
  - destruct ring as [|y ring]; [destruct index; discriminate|].
    simpl. apply IH; assumption.
Qed.

Lemma In_segments (ring : list OSMNode) (a b : OSMNode) :
  In (a, b) (segments ring) -> In a ring /\ In b ring.
Proof.
  unfold segments. intros H. split.
  - now apply in_combine_l in H.
  - apply in_combine_r in H. destruct ring; [destruct H | now right].
Qed.

(** The first loop raises [IndexError] when a road has no outer ring and
    otherwise runs the body on every segment of every first ring. *)
Lemma collect_parts_total (self : Map) (roads : list Road)
    (state : nat * Nodes) :
  collect_parts self roads state
  = if forallb has_outer roads
    then Ok (for_ (all_segments roads)
               (fun s => add_segment self (fst s) (snd s)) state)
    else Raise IndexError.
Proof.
  revert state. induction roads as [|road roads IH]; intros state;
    [reflexivity|].
  simpl. unfold has_outer at 1, all_segments. simpl.
  unfold first_ring at 1.
  destruct (outers road) as [|ring rest]; [reflexivity|].
  simpl. rewrite IH.
  destruct (forallb has_outer roads); [|reflexivity].
  f_equal. rewrite for_app. f_equal.
  now rewrite for_map.
Qed.

Lemma set_add_new (part : RoadPart) (parts : list RoadPart) :
  Forall (fun q => (part_id q < part_id part)%nat) parts ->
  set_add part parts = parts ++ [part].
Proof.
  intros Hf. unfold set_add.
  replace (existsb (fun q => Nat.eqb (part_id q) (part_id part)) parts)
    with false; [reflexivity|].
  symmetry. apply not_true_is_false. intros He.
  apply existsb_exists in He. destruct He as (q & Hq & Heq).
  rewrite Forall_forall in Hf. specialize (Hf q Hq).
  apply Nat.eqb_eq in Heq. lia.
Qed.

Lemma dict_mem_get (node : OSMNode) (nodes : Nodes) :
  dict_mem OSMNode_eqb node nodes = true ->
  exists parts, dict_get OSMNode_eqb node nodes = Some parts.
Proof.
  unfold dict_mem.
  destruct (dict_get OSMNode_eqb node nodes) as [parts|];
    [now exists parts | discriminate].
Qed.

Lemma nodes_get_set_same (node : OSMNode) (v : list RoadPart)
    (nodes : Nodes) :
  dict_get OSMNode_eqb node (dict_set OSMNode_eqb node v nodes) = Some v.
Proof.
  apply dict_get_set_same;
    [apply OSMNode_eqb_sym | apply OSMNode_eqb_trans | apply OSMNode_eqb_refl].
Qed.

Lemma nodes_get_set_other (node node0 : OSMNode) (v : list RoadPart)
    (nodes : Nodes) :
  OSMNode_eqb node node0 = false ->
  dict_get OSMNode_eqb node (dict_set OSMNode_eqb node0 v nodes)
  = dict_get OSMNode_eqb node nodes.
Proof.
  apply dict_get_set_other; [apply OSMNode_eqb_sym | apply OSMNode_eqb_trans].
Qed.

Lemma nodes_keys_NoDup (node : OSMNode) (v : list RoadPart) (nodes : Nodes) :
  NoDup (dict_keys nodes) ->
  NoDup (dict_keys (dict_set OSMNode_eqb node v nodes)).
Proof.
  intros Hnd. rewrite dict_keys_set, dict_mem_keys.
  destruct (existsb (OSMNode_eqb node) (dict_keys nodes)) eqn:He;
    [exact Hnd|].
  apply NoDup_app; [exact Hnd | repeat constructor; intros [] |].
  intros x Hx [<-|[]].
  assert (Ht : existsb (OSMNode_eqb node) (dict_keys nodes) = true).
  { apply existsb_exists. exists node.
    split; [exact Hx | apply OSMNode_eqb_refl]. }
  congruence.
Qed.

(** [setdefault] *)
Lemma setdefault_mem (node node0 : OSMNode) (nodes : Nodes) :
  dict_mem OSMNode_eqb node (setdefault node0 nodes)
  = OSMNode_eqb node node0 || dict_mem OSMNode_eqb node nodes.
Proof.
  unfold setdefault.
  destruct (OSMNode_eqb node node0) eqn:Hn.
  - apply OSMNode_eqb_eq in Hn. subst node0. simpl.
    destruct (dict_mem OSMNode_eqb node nodes) eqn:Hm; simpl; [exact Hm|].
    unfold dict_mem. now rewrite nodes_get_set_same.
  - simpl. destruct (dict_mem OSMNode_eqb node0 nodes); simpl;
      [reflexivity|].
    unfold dict_mem. now rewrite nodes_get_set_other.
Qed.

Lemma setdefault_parts_at (node node0 : OSMNode) (nodes : Nodes) :
  parts_at node (setdefault node0 nodes) = parts_at node nodes.
Proof.
  unfold setdefault, parts_at.
  destruct (dict_mem OSMNode_eqb node0 nodes) eqn:Hm; simpl; [reflexivity|].
  destruct (OSMNode_eqb node node0) eqn:Hn.
  - apply OSMNode_eqb_eq in Hn. subst node0.
    rewrite nodes_get_set_same. unfold dict_mem in Hm.
    now destruct (dict_get OSMNode_eqb node nodes).
  - now rewrite nodes_get_set_other.
Qed.

Lemma all_parts_set_new (node : OSMNode) (nodes : Nodes) :
  dict_mem OSMNode_eqb node nodes = false ->
  all_parts (dict_set OSMNode_eqb node [] nodes) = all_parts nodes.
Proof.
  unfold dict_mem, all_parts.
  induction nodes as [|[k v] nodes IH]; simpl; [reflexivity|].
  destruct (OSMNode_eqb node k); [discriminate|].
  intros H. simpl. now rewrite IH.
Qed.

Lemma setdefault_all_parts (node : OSMNode) (nodes : Nodes) :
  all_parts (setdefault node nodes) = all_parts nodes.
Proof.
  unfold setdefault.
  destruct (dict_mem OSMNode_eqb node nodes) eqn:Hm; simpl; [reflexivity|].
  now apply all_parts_set_new.
Qed.

Lemma setdefault_keys_NoDup (node : OSMNode) (nodes : Nodes) :
  NoDup (dict_keys nodes) -> NoDup (dict_keys (setdefault node nodes)).
Proof.
  unfold setdefault. intros Hnd.
  destruct (negb (dict_mem OSMNode_eqb node nodes)); [|exact Hnd].
  now apply nodes_keys_NoDup.
Qed.

(** [nodes[node].add(part)] *)
Lemma parts_at_incl (node : OSMNode) (nodes : Nodes) :
  incl (parts_at node nodes) (all_parts nodes).
Proof.
  unfold parts_at, all_parts.
  destruct (dict_get OSMNode_eqb node nodes) as [parts|] eqn:Hg;
    [|intros x []].
  apply dict_get_In in Hg. destruct Hg as (k & Hin & _).
  intros p Hp. apply in_flat_map. exists (k, parts). auto.
Qed.

Lemma all_parts_set_add (node : OSMNode) (part : RoadPart)
    (parts : list RoadPart) (nodes : Nodes) :
  dict_get OSMNode_eqb node nodes = Some parts ->
  Permutation (all_parts (dict_set OSMNode_eqb node (parts ++ [part]) nodes))
              (part :: all_parts nodes).
Proof.
  unfold all_parts.
  induction nodes as [|[k v] nodes IH]; simpl; [discriminate|].
  destruct (OSMNode_eqb node k); simpl.
  - intros [= ->]. rewrite <- app_assoc. simpl.
    symmetry. apply Permutation_middle.
  - intros Hg. rewrite (IH Hg). symmetry. apply Permutation_middle.
Qed.

Lemma nodes_add_spec (node0 : OSMNode) (part : RoadPart) (nodes : Nodes) :
  dict_mem OSMNode_eqb node0 nodes = true ->
  Forall (fun q => (part_id q < part_id part)%nat) (all_parts nodes) ->
  (forall node,
      parts_at node (nodes_add node0 part nodes)
      = parts_at node nodes ++ (if OSMNode_eqb node node0 then [part] else []))
  /\ Permutation (all_parts (nodes_add node0 part nodes))
                 (part :: all_parts nodes)
  /\ dict_keys (nodes_add node0 part nodes) = dict_keys nodes.
Proof.
  intros Hm Hf.
  destruct (dict_mem_get _ _ Hm) as (parts & Hg).
  assert (Hadd : set_add part parts = parts ++ [part]).
  { apply set_add_new. rewrite Forall_forall in *.
    intros q Hq. apply Hf. apply (parts_at_incl node0).
    unfold parts_at. now rewrite Hg. }
  unfold nodes_add. rewrite Hg, Hadd.
  split; [|split].
  - intros node. unfold parts_at.
    destruct (OSMNode_eqb node node0) eqn:Hn.
    + apply OSMNode_eqb_eq in Hn. subst node0.
      now rewrite nodes_get_set_same, Hg.
    + rewrite nodes_get_set_other by exact Hn. now rewrite app_nil_r.
  - now apply all_parts_set_add.
  - rewrite dict_keys_set. now rewrite Hm.
Qed.

(** One run of the body of the loop over [index]: two objects are
    created, the first goes to the set of [node_1] and the second to the
    set of [node_2], and nothing else changes. *)
Lemma add_segment_step (self : Map) (road : Road)
    (segment : OSMNode * OSMNode) (next : nat) (nodes : Nodes) :
  collected (next, nodes) ->
  fst (add_segment self road segment (next, nodes)) = S (S next)
  /\ collected (add_segment self road segment (next, nodes))
  /\ (forall node,
        parts_at node (snd (add_segment self road segment (next, nodes)))
        = parts_at node nodes
          ++ (if OSMNode_eqb node (fst segment)
              then [part_1_of self road segment next] else [])
          ++ (if OSMNode_eqb node (snd segment)
              then [part_2_of self road segment next] else []))
  /\ (forall node,
        dict_mem OSMNode_eqb node
          (snd (add_segment self road segment (next, nodes)))
        = OSMNode_eqb node (fst segment) || OSMNode_eqb node (snd segment)
          || dict_mem OSMNode_eqb node nodes).
Proof.
  destruct segment as [node_1 node_2]. intros (Hk & Hi & Hf).
  cbn [fst snd] in *.
  set (p1 := part_1_of self road (node_1, node_2) next).
  set (p2 := part_2_of self road (node_1, node_2) next).
  set (d1 := setdefault node_2 (setdefault node_1 nodes)).
  assert (Hstep : add_segment self road (node_1, node_2) (next, nodes)
                  = (S (S next), nodes_add node_2 p2 (nodes_add node_1 p1 d1)))
    by reflexivity.
  rewrite Hstep. cbn [fst snd]. clear Hstep.
  assert (Hall1 : all_parts d1 = all_parts nodes)
    by (unfold d1; now rewrite !setdefault_all_parts).
  assert (Hm1 : forall node,
             dict_mem OSMNode_eqb node d1
             = OSMNode_eqb node node_2 || (OSMNode_eqb node node_1
               || dict_mem OSMNode_eqb node nodes))
    by (intros node; unfold d1; now rewrite !setdefault_mem).
  assert (Hf1 : Forall (fun q => (part_id q < part_id p1)%nat) (all_parts d1))
    by (rewrite Hall1; exact Hf).
  assert (Hmem1 : dict_mem OSMNode_eqb node_1 d1 = true)
    by (rewrite Hm1, OSMNode_eqb_refl; now rewrite orb_true_r).
  destruct (nodes_add_spec node_1 p1 d1 Hmem1 Hf1) as (Hp2 & Ha2 & Hk2).
  set (d2 := nodes_add node_1 p1 d1) in *.
  assert (Hmem2 : dict_mem OSMNode_eqb node_2 d2 = true).
  { rewrite dict_mem_keys, Hk2, <- dict_mem_keys, Hm1, OSMNode_eqb_refl.
    reflexivity. }
  assert (Hf2 : Forall (fun q => (part_id q < part_id p2)%nat) (all_parts d2)).
  { eapply Permutation_Forall; [symmetry; exact Ha2|].
    constructor; [simpl; lia|]. rewrite Hall1.
    eapply Forall_impl; [|exact Hf]. simpl. intros q Hq. lia. }
  destruct (nodes_add_spec node_2 p2 d2 Hmem2 Hf2) as (Hp3 & Ha3 & Hk3).
  set (d3 := nodes_add node_2 p2 d2) in *.
  assert (Hperm : Permutation (all_parts d3) (p2 :: p1 :: all_parts nodes))
    by (rewrite Ha3, Ha2, Hall1; reflexivity).
  split; [reflexivity|]. split; [|split].
  - unfold collected. cbn [fst snd]. split; [|split].
    + rewrite Hk3, Hk2. unfold d1.
      now apply setdefault_keys_NoDup, setdefault_keys_NoDup.
    + eapply Permutation_NoDup;
        [symmetry; apply Permutation_map; exact Hperm|].
      simpl. rewrite Forall_forall in Hf.
      constructor; [|constructor; [|exact Hi]].
      * intros [Heq|Hin]; [lia|].
        apply in_map_iff in Hin. destruct Hin as (q & Hq & Hin).
        specialize (Hf q Hin). lia.
      * intros Hin.
        apply in_map_iff in Hin. destruct Hin as (q & Hq & Hin).
        specialize (Hf q Hin). lia.
    + eapply Permutation_Forall; [symmetry; exact Hperm|].
      constructor; [simpl; lia|]. constructor; [simpl; lia|].
      eapply Forall_impl; [|exact Hf]. simpl. intros q Hq. lia.
  - intros node. rewrite Hp3, Hp2. unfold d1.
    rewrite !setdefault_parts_at. now rewrite <- app_assoc.
  - intros node.
    rewrite dict_mem_keys, Hk3, Hk2, <- dict_mem_keys, Hm1.
    destruct (OSMNode_eqb node node_1), (OSMNode_eqb node node_2);
      reflexivity.
Qed.

(** The whole loop, by induction on the segments. *)
Lemma segments_loop (self : Map) (segs : list (Road * (OSMNode * OSMNode))) :
  forall (next : nat) (nodes : Nodes),
    collected (next, nodes) ->
    fst (for_ segs (fun s => add_segment self (fst s) (snd s)) (next, nodes))
    = (next + 2 * length segs)%nat
    /\ collected
         (for_ segs (fun s => add_segment self (fst s) (snd s)) (next, nodes))
    /\ (forall node,
          parts_at node
            (snd (for_ segs (fun s => add_segment self (fst s) (snd s))
                    (next, nodes)))
          = parts_at node nodes ++ parts_for self node segs next)
    /\ (forall node,
          dict_mem OSMNode_eqb node
            (snd (for_ segs (fun s => add_segment self (fst s) (snd s))
                    (next, nodes)))
          = existsb (fun s => OSMNode_eqb node (fst (snd s))
                              || OSMNode_eqb node (snd (snd s))) segs
            || dict_mem OSMNode_eqb node nodes).
Proof.
  induction segs as [|[road segment] segs IH]; intros next nodes Hc.
  - unfold for_. simpl. split; [lia|]. split; [exact Hc|].
    split; intros node; [now rewrite app_nil_r | reflexivity].
  - change (for_ ((road, segment) :: segs)
              (fun s => add_segment self (fst s) (snd s)) (next, nodes))
      with (for_ segs (fun s => add_segment self (fst s) (snd s))
              (add_segment self road segment (next, nodes))).
    destruct (add_segment_step self road segment next nodes Hc)
      as (Hn & Hc' & Hp & Hm).
    destruct (add_segment self road segment (next, nodes))
      as [next' nodes'] eqn:Hstep.
    cbn [fst snd] in Hn, Hp, Hm. subst next'.
    destruct (IH (S (S next)) nodes' Hc') as (IHn & IHc & IHp & IHm).
    split; [rewrite IHn; simpl; lia|]. split; [exact IHc|].
    split; intros node.
    + rewrite IHp, Hp. cbn [parts_for]. now rewrite <- !app_assoc.
    + rewrite IHm, Hm. cbn [existsb fst snd].
      destruct (OSMNode_eqb node (fst segment)),
               (OSMNode_eqb node (snd segment)),
               (existsb _ segs); reflexivity.
Qed.

Lemma collected_start : collected (0%nat, []).
Proof. repeat split; constructor. Qed.

(** The result of the first loop of [draw_roads]. *)
Lemma collect_parts_spec (self : Map) (roads : list Road) (next : nat)
    (nodes : Nodes) :
  collect_parts self roads (0%nat, []) = Ok (next, nodes) ->
  forallb has_outer roads = true
  /\ next = (2 * length (all_segments roads))%nat
  /\ collected (next, nodes)
  /\ (forall node,
        parts_at node nodes = parts_for self node (all_segments roads) 0)
  /\ (forall node,
        dict_mem OSMNode_eqb node nodes
        = existsb (fun s => OSMNode_eqb node (fst (snd s))
                            || OSMNode_eqb node (snd (snd s)))
            (all_segments roads)).
Proof.
  rewrite collect_parts_total.
  destruct (forallb has_outer roads); [|discriminate].
  intros Heq.
  pose proof (segments_loop self (all_segments roads) 0 [] collected_start)
    as Hloop.
  match type of Hloop with
  | fst ?t = _ /\ _ => set (st := t) in Hloop
  end.
  assert (Hst : st = (next, nodes)) by (injection Heq as Heq'; exact Heq').
  clearbody st. subst st.
  destruct Hloop as (Hn & Hc & Hp & Hm). cbn [fst snd] in *.
  split; [reflexivity|]. split; [exact Hn|]. split; [exact Hc|].
  split; intros node.
  - now rewrite Hp.
  - rewrite Hm. now rewrite orb_false_r.
Qed.

(** ** Road parts per node (C9) *)

Lemma collect_parts_returns (self : Map) (roads : list Road) :
  forallb has_outer roads = true ->
  exists state, collect_parts self roads (0%nat, []) = Ok state.
Proof.
  intros Houter. rewrite collect_parts_total, Houter. eauto.
Qed.

Lemma parts_for_length (self : Map) (node : OSMNode)
    (segs : list (Road * (OSMNode * OSMNode))) (next : nat) :
  length (parts_for self node segs next)
  = list_sum (map (fun s => ends_at node (snd s)) segs).
Proof.
  revert next. induction segs as [|[road segment] segs IH]; intros next;
    [reflexivity|].
  cbn [parts_for map list_sum snd]. rewrite !length_app, IH.
  unfold ends_at.
  destruct (OSMNode_eqb node (fst segment)),
           (OSMNode_eqb node (snd segment)); simpl; lia.
Qed.

Lemma In_all_segments (roads : list Road) (road : Road)
    (segment : OSMNode * OSMNode) :
  In (road, segment) (all_segments roads)
  <-> In road roads /\ In segment (segments (first_ring road)).
Proof.
  unfold all_segments. rewrite in_flat_map. split.
  - intros (r & Hr & Hin). apply in_map_iff in Hin.
    destruct Hin as (s & [= <- <-] & Hs). auto.
  - intros (Hr & Hs). exists road. split; [exact Hr|].
    now apply in_map.
Qed.

(** A part of [node] starts at [node] and ends at the other end of a
    segment of [node]. *)
Lemma In_parts_for (self : Map) (node : OSMNode)
    (segs : list (Road * (OSMNode * OSMNode))) (next : nat) (p : RoadPart) :
  In p (parts_for self node segs next) ->
  point_1 p = fling (flinger self) (coordinates node)
  /\ exists road other,
       (In (road, (node, other)) segs \/ In (road, (other, node)) segs)
       /\ point_2 p = fling (flinger self) (coordinates other)
       /\ part_lanes p = lanes road.
Proof.
  revert next. induction segs as [|[road [a b]] segs IH]; intros next;
    [intros []|].
  cbn [parts_for fst snd]. rewrite !in_app_iff.
  intros [Hin|[Hin|Hin]].
  - destruct (OSMNode_eqb node a) eqn:Ha; [|destruct Hin].
    apply OSMNode_eqb_eq in Ha. subst a. destruct Hin as [<-|[]].
    split; [reflexivity|]. exists road, b. simpl. auto.
  - destruct (OSMNode_eqb node b) eqn:Hb; [|destruct Hin].
    apply OSMNode_eqb_eq in Hb. subst b. destruct Hin as [<-|[]].
    split; [reflexivity|]. exists road, a. simpl. auto.
  - destruct (IH _ Hin) as (H1 & road' & other & Hs & H2 & Hl).
    split; [exact H1|]. exists road', other.
    split; [|auto]. destruct Hs; [left | right]; now right.
Qed.

(** C9.  When every road has an outer ring, the first loop of
    [draw_roads] ends without an exception, and then two [RoadPart]
    objects were created per pair of consecutive nodes of the first outer
    rings,
    all parts in the dictionary are different objects, the set of a node
    holds, in order of creation, the first part of each segment that
    starts at the node and the second part of each segment that ends at
    it, so as many parts as segment ends meet at the node (one per end,
    not two), and each part of the set of a node starts at the point of
    the node and ends at the point of the other end of one of its
    segments, with the lanes of the road of the segment. *)
Theorem one_part_per_segment_end (self : Map) (roads : list Road) :
  forallb has_outer roads = true ->
  exists state : nat * Nodes,
    collect_parts self roads (0%nat, []) = Ok state
    /\ fst state = (2 * length (all_segments roads))%nat
    /\ NoDup (map part_id (all_parts (snd state)))
    /\ (forall node,
          parts_at node (snd state)
          = parts_for self node (all_segments roads) 0)
    /\ (forall node,
          length (parts_at node (snd state)) = segment_ends node roads)
    /\ (forall node p,
          In p (parts_at node (snd state)) ->
          point_1 p = fling (flinger self) (coordinates node)
          /\ exists road other,
               In road roads
               /\ (In (node, other) (segments (first_ring road))
                   \/ In (other, node) (segments (first_ring road)))
               /\ point_2 p = fling (flinger self) (coordinates other)
               /\ part_lanes p = lanes road).
Proof.
  intros Houter.
  destruct (collect_parts_returns self roads Houter) as ([next nodes] & Hc).
  exists (next, nodes). split; [exact Hc|].
  apply collect_parts_spec in Hc.
  destruct Hc as (_ & Hn & (_ & Hid & _) & Hp & _). cbn [fst snd] in *.
  split; [exact Hn|]. split; [exact Hid|]. split; [exact Hp|]. split.
  - intros node. rewrite Hp. apply parts_for_length.
  - intros node p Hin. rewrite Hp in Hin.
    apply In_parts_for in Hin.
    destruct Hin as (H1 & road & other & Hs & H2 & Hl).
    split; [exact H1|]. exists road, other.
    destruct Hs as [Hs|Hs]; apply In_all_segments in Hs;
      destruct Hs as [Hr Hs]; auto.
Qed.

Lemma one_part_per_segment_end_witness :
  exists state : nat * Nodes,
    collect_parts Crossing.self Crossing.four_roads (0%nat, []) = Ok state
    /\ length (parts_at (Sample.node 0) (snd state))
       = segment_ends (Sample.node 0) Crossing.four_roads.
Proof.
  destruct (one_part_per_segment_end Crossing.self Crossing.four_roads)
    as (state & Hc & _ & _ & _ & Hlen & _).
  - reflexivity.
  - exists state. split; [exact Hc | apply Hlen].
Defined.

(** ** Intersections (C2) *)

Lemma draw_intersections_adds (order : list RoadPart -> list RoadPart)
    (nodes : Nodes) (svg : Drawing) :
  draw_intersections order nodes svg
  = svg ++ map (intersection_of order) (filter is_junction nodes).
Proof.
  unfold draw_intersections.
  rewrite (for_ext _ _
             (fun e svg =>
                if is_junction e then svg ++ [intersection_of order e]
                else svg)).
  - apply for_emit_if.
  - intros [node parts] s. unfold is_junction, svg_add. simpl.
    now destruct (length parts <? 4)%nat.
Qed.

Lemma NoDup_app_disjoint {A : Type} (l1 l2 : list A) (x : A) :
  NoDup (l1 ++ l2) -> In x l1 -> In x l2 -> False.
Proof.
  induction l1 as [|a l1 IH]; simpl; intros Hnd H1 H2; [exact H1|].
  inversion_clear Hnd as [|? ? Ha Hnd'].
  destruct H1 as [<-|H1]; [|now apply IH].
  apply Ha. apply in_or_app. now right.
Qed.

Lemma NoDup_app_l {A : Type} (l1 l2 : list A) : NoDup (l1 ++ l2) -> NoDup l2.
Proof.
  induction l1 as [|a l1 IH]; simpl; intros Hnd; [exact Hnd|].
  inversion_clear Hnd. auto.
Qed.

(** An intersection holds a part of [parts] only if its own parts and
    [parts] have an object in common. *)
Lemma built_from_true (order : list RoadPart -> list RoadPart)
    (parts v : list RoadPart) (b : bool) :
  (forall l, Permutation (order l) l) ->
  built_from parts (IntersectionDraw (order v) b) = true ->
  exists i, In i (map part_id v) /\ In i (map part_id parts).
Proof.
  intros Hperm H. simpl in H. apply existsb_exists in H.
  destruct H as (p & Hp & H). apply existsb_exists in H.
  destruct H as (q & Hq & Heq). apply Nat.eqb_eq in Heq.
  exists (part_id p). split.
  - apply in_map. now apply (Permutation_in _ (Hperm v)).
  - rewrite Heq. now apply in_map.
Qed.

Lemma built_from_own (order : list RoadPart -> list RoadPart)
    (parts : list RoadPart) (b : bool) :
  (forall l, Permutation (order l) l) ->
  parts <> [] ->
  built_from parts (IntersectionDraw (order parts) b) = true.
Proof.
  intros Hperm Hne. destruct parts as [|p parts]; [congruence|].
  simpl. apply existsb_exists. exists p. split.
  - apply (Permutation_in _ (Permutation_sym (Hperm (p :: parts)))).
    now left.
  - simpl. now rewrite Nat.eqb_refl.
Qed.

Lemma no_intersection_elsewhere (order : list RoadPart -> list RoadPart)
    (parts : list RoadPart) (nodes : Nodes) :
  (forall l, Permutation (order l) l) ->
  (forall i, In i (map part_id (all_parts nodes)) ->
             In i (map part_id parts) -> False) ->
  filter (built_from parts)
    (map (intersection_of order) (filter is_junction nodes)) = [].
Proof.
  intros Hperm Hdis.
  induction nodes as [|[k v] nodes IH]; [reflexivity|].
  assert (IH' : filter (built_from parts)
                  (map (intersection_of order) (filter is_junction nodes))
                = []).
  { apply IH. intros i Hi. apply Hdis.
    unfold all_parts in *. simpl. rewrite map_app, in_app_iff. now right. }
  cbn [filter]. destruct (is_junction (k, v)); [|exact IH'].
  cbn [map filter]. unfold intersection_of at 1. cbn [snd].
  destruct (built_from parts (IntersectionDraw (order v) true)) eqn:Hb;
    [|exact IH'].
  exfalso. apply (built_from_true order) in Hb; [|exact Hperm].
  destruct Hb as (i & Hv & Hp). apply (Hdis i); [|exact Hp].
  unfold all_parts. simpl. rewrite map_app, in_app_iff. now left.
Qed.

(** The intersections built from the set of one entry: one when the
    entry has four parts or more, none otherwise. *)
Lemma intersections_of_entry (order : list RoadPart -> list RoadPart)
    (node : OSMNode) (parts : list RoadPart) (nodes : Nodes) :
  (forall l, Permutation (order l) l) ->
  NoDup (map part_id (all_parts nodes)) ->
  In (node, parts) nodes ->
  filter (built_from parts)
    (map (intersection_of order) (filter is_junction nodes))
  = if is_junction (node, parts)
    then [IntersectionDraw (order parts) true] else [].
Proof.
  intros Hperm. induction nodes as [|[k v] nodes IH]; intros Hnd Hin;
    [destruct Hin|].
  unfold all_parts in Hnd. cbn [flat_map snd] in Hnd.
  rewrite map_app in Hnd.
  destruct Hin as [[= -> ->]|Hin].
  - assert (Hrest : filter (built_from parts)
                      (map (intersection_of order)
                         (filter is_junction nodes)) = []).
    { apply no_intersection_elsewhere; [exact Hperm|].
      intros i H1 H2. exact (NoDup_app_disjoint _ _ i Hnd H2 H1). }
    cbn [filter]. destruct (is_junction (node, parts)) eqn:Hj;
      [|exact Hrest].
    cbn [map filter]. unfold intersection_of at 1. cbn [snd].
    rewrite built_from_own; [now rewrite Hrest | exact Hperm|].
    intros ->. discriminate Hj.
  - assert (Hown : built_from parts (IntersectionDraw (order v) true)
                   = false).
    { destruct (built_from parts (IntersectionDraw (order v) true)) eqn:Hb;
        [|reflexivity].
      exfalso. apply (built_from_true order) in Hb; [|exact Hperm].
      destruct Hb as (i & Hv & Hp).
      apply (NoDup_app_disjoint _ _ i Hnd Hv).
      apply in_map_iff in Hp. destruct Hp as (q & <- & Hq).
      apply in_map. apply in_flat_map. exists (node, parts). auto. }
    cbn [filter]. destruct (is_junction (k, v)).
    + cbn [map filter]. unfold intersection_of at 1. cbn [snd].
      rewrite Hown. apply IH; [|exact Hin]. now apply NoDup_app_l in Hnd.
    + apply IH; [|exact Hin]. now apply NoDup_app_l in Hnd.
Qed.

Lemma nodes_get_In (node : OSMNode) (parts : list RoadPart) (nodes : Nodes) :
  dict_get OSMNode_eqb node nodes = Some parts -> In (node, parts) nodes.
Proof.
  intros Hg. apply dict_get_In in Hg. destruct Hg as (k & Hin & Hk).
  apply OSMNode_eqb_eq in Hk. now subst k.
Qed.

Lemma In_nodes_get (node : OSMNode) (parts : list RoadPart) (nodes : Nodes) :
  NoDup (dict_keys nodes) -> In (node, parts) nodes ->
  dict_get OSMNode_eqb node nodes = Some parts.
Proof.
  unfold dict_keys.
  induction nodes as [|[k v] nodes IH]; intros Hnd Hin; [destruct Hin|].
  simpl in *. inversion_clear Hnd as [|? ? Hk Hnd'].
  destruct Hin as [[= -> ->]|Hin].
  - now rewrite OSMNode_eqb_refl.
  - destruct (OSMNode_eqb node k) eqn:Hn; [|now apply IH].
    apply OSMNode_eqb_eq in Hn. subst k. exfalso. apply Hk.
    apply in_map_iff. now exists (node, parts).
Qed.

Lemma is_junction_leb (node : OSMNode) (parts : list RoadPart) :
  is_junction (node, parts) = (4 <=? length parts)%nat.
Proof.
  unfold is_junction. cbn [snd].
  destruct (Nat.ltb_spec (length parts) 4), (Nat.leb_spec 4 (length parts));
    simpl; try reflexivity; lia.
Qed.

(** C2.  When every road has an outer ring, [draw_roads] ends without
    an exception and adds intersections only.  With [snd state] the
    dictionary at the end of the first loop, each intersection is built
    from the set of a node that has at least four parts, and for each
    node of the dictionary the intersections that hold a part of its set
    are exactly one, built from the whole set, when the set has four
    parts or more, and none when it has fewer (so none for three parts
    and one for four). *)
Theorem one_intersection_per_junction
    (order : list RoadPart -> list RoadPart) (self : Map)
    (roads : list Road) (svg : Drawing) :
  (forall l, Permutation (order l) l) ->
  forallb has_outer roads = true ->
  exists (state : nat * Nodes) (added : Drawing),
    collect_parts self roads (0%nat, []) = Ok state
    /\ draw_roads order self roads svg = Ok (svg ++ added)
    /\ (forall e,
          In e added ->
          exists node parts,
            dict_get OSMNode_eqb node (snd state) = Some parts
            /\ (4 <= length parts)%nat
            /\ e = IntersectionDraw (order parts) true)
    /\ (forall node parts,
          dict_get OSMNode_eqb node (snd state) = Some parts ->
          filter (built_from parts) added
          = if (4 <=? length parts)%nat
            then [IntersectionDraw (order parts) true] else []).
Proof.
  intros Hperm Houter.
  destruct (collect_parts_returns self roads Houter) as ([next nodes] & Hc).
  pose proof (collect_parts_spec _ _ _ _ Hc) as (_ & _ & (Hk & Hid & _) & _).
  cbn [fst snd] in *.
  exists (next, nodes).
  exists (map (intersection_of order) (filter is_junction nodes)).
  split; [exact Hc|]. split; [|split].
  - unfold draw_roads. rewrite Hc. now rewrite draw_intersections_adds.
  - intros e He. apply in_map_iff in He.
    destruct He as ([node parts] & <- & Hin).
    apply filter_In in Hin. destruct Hin as [Hin Hj].
    exists node, parts. split; [now apply In_nodes_get|].
    split; [|reflexivity].
    rewrite is_junction_leb in Hj. now apply Nat.leb_le.
  - intros node parts Hg. rewrite <- (is_junction_leb node).
    apply intersections_of_entry; [exact Hperm | exact Hid|].
    now apply nodes_get_In.
Qed.

Lemma one_intersection_per_junction_witness :
  exists added : Drawing,
    draw_roads (fun l => l) Crossing.self Crossing.four_roads []
    = Ok ([] ++ added).
Proof.
  destruct (one_intersection_per_junction (fun l => l) Crossing.self
              Crossing.four_roads [])
    as (state & added & _ & Hadded & _).
  - intros l. reflexivity.
  - reflexivity.
  - exists added. exact Hadded.
Defined.

(** Three roads that meet at a node add nothing; four roads add one
    intersection, built from the four parts that leave the node. *)
Example three_roads_no_intersection :
  draw_roads (fun l => l) Crossing.self Crossing.three_roads [] = Ok [].
Proof. reflexivity. Qed.

Example four_roads_one_intersection :
  draw_roads (fun l => l) Crossing.self Crossing.four_roads []
  = Ok [IntersectionDraw (parts_at (Sample.node 0) (snd Crossing.four_state))
          true]
  /\ length (parts_at (Sample.node 0) (snd Crossing.four_state)) = 4%nat.
Proof. split; reflexivity. Qed.

(** ** Only the first outer ring (C10) *)

Lemma add_segment_lanes (self : Map) (road road' : Road)
    (segment : OSMNode * OSMNode) (state : nat * Nodes) :
  lanes road = lanes road' ->
  add_segment self road segment state = add_segment self road' segment state.
Proof.
  intros Hl. destruct segment as [a b], state as [next nodes].
  unfold add_segment. now rewrite Hl.
Qed.

Lemma collect_parts_same_first_ring (self : Map) (roads roads' : list Road) :
  Forall2 same_first_ring roads roads' ->
  forall state,
    collect_parts self roads state = collect_parts self roads' state.
Proof.
  induction 1 as [|road road' roads roads' [Hring Hlanes] Hrest IH];
    intros state; [reflexivity|].
  simpl.
  destruct (outers road) as [|ring rest], (outers road') as [|ring' rest'];
    simpl in Hring; try discriminate; [reflexivity|].
  injection Hring as <-. rewrite IH. f_equal.
  apply for_ext. intros segment s. now apply add_segment_lanes.
Qed.

Lemma key_in_first_ring (self : Map) (roads : list Road) (state : nat * Nodes)
    (node : OSMNode) :
  collect_parts self roads (0%nat, []) = Ok state ->
  dict_mem OSMNode_eqb node (snd state) = true ->
  exists road, In road roads /\ In node (first_ring road).
Proof.
  destruct state as [next nodes]. intros Hc Hm.
  apply collect_parts_spec in Hc. destruct Hc as (_ & _ & _ & _ & Hmem).
  cbn [snd] in Hm. rewrite Hmem in Hm. apply existsb_exists in Hm.
  destruct Hm as ([road [a b]] & Hin & Hn). cbn [fst snd] in Hn.
  apply In_all_segments in Hin. destruct Hin as [Hr Hs].
  apply In_segments in Hs. destruct Hs as [Ha Hb].
  exists road. split; [exact Hr|].
  apply orb_true_iff in Hn.
  destruct Hn as [Hn|Hn]; apply OSMNode_eqb_eq in Hn; now subst node.
Qed.

(** C10.  [draw_roads] reads of each road the first outer ring and the
    lanes only: two lists of roads that agree on them, whatever their
    other outer rings and their inner rings are, give the same result.
    A node that is on no first outer ring is no key of the dictionary
    and has no parts, and every intersection added is built from the set
    of a node of a first outer ring. *)
Theorem only_first_outer_ring
    (order : list RoadPart -> list RoadPart) (self : Map)
    (roads : list Road) (svg : Drawing) :
  (forall roads',
      Forall2 same_first_ring roads roads' ->
      draw_roads order self roads' svg = draw_roads order self roads svg)
  /\ (forall state node,
        collect_parts self roads (0%nat, []) = Ok state ->
        (forall road, In road roads -> ~ In node (first_ring road)) ->
        dict_mem OSMNode_eqb node (snd state) = false
        /\ parts_at node (snd state) = [])
  /\ (forall svg',
        draw_roads order self roads svg = Ok svg' ->
        exists (state : nat * Nodes) (added : Drawing),
          collect_parts self roads (0%nat, []) = Ok state
          /\ svg' = svg ++ added
          /\ forall e,
               In e added ->
               exists node parts road,
                 e = IntersectionDraw (order parts) true
                 /\ dict_get OSMNode_eqb node (snd state) = Some parts
                 /\ In road roads
                 /\ In node (first_ring road)).
Proof.
  split; [|split].
  - intros roads' Hsame. unfold draw_roads.
    now rewrite (collect_parts_same_first_ring self roads roads' Hsame).
  - intros state node Hc Hnot.
    assert (Hm : dict_mem OSMNode_eqb node (snd state) = false).
    { destruct (dict_mem OSMNode_eqb node (snd state)) eqn:Hm;
        [|reflexivity].
      destruct (key_in_first_ring self roads state node Hc Hm)
        as (road & Hr & Hin).
      exfalso. exact (Hnot road Hr Hin). }
    split; [exact Hm|].
    unfold parts_at. unfold dict_mem in Hm.
    now destruct (dict_get OSMNode_eqb node (snd state)).
  - intros svg' Hd. unfold draw_roads in Hd.
    destruct (collect_parts self roads (0%nat, [])) as [[next nodes]|]
      eqn:Hc; [|discriminate].
    injection Hd as <-.
    exists (next, nodes).
    exists (map (intersection_of order) (filter is_junction nodes)).
    split; [reflexivity|]. split; [apply draw_intersections_adds|].
    intros e He. apply in_map_iff in He.
    destruct He as ([node parts] & <- & Hin).
    apply filter_In in Hin. destruct Hin as [Hin _].
    pose proof (collect_parts_spec _ _ _ _ Hc)
      as (_ & _ & (Hk & _ & _) & _).
    cbn [fst snd] in Hk.
    pose proof (In_nodes_get node parts nodes Hk Hin) as Hg.
    destruct (key_in_first_ring self roads (next, nodes) node Hc)
      as (road & Hr & Hring).
    { cbn [snd]. unfold dict_mem. now rewrite Hg. }
    exists node, parts, road. auto.
Qed.

(** ** Determinism (C6) *)

Lemma drawn_heights_order (self : Map) (c : Constructor) (hs : list Q) :
  is_set (heights c) = true -> Permutation hs (heights c) ->
  drawn self (with_heights c hs) = drawn self c.
Proof.
  intros Hset Hp. apply is_set_NoDupA in Hset.
  unfold drawn, buildings_part, points_part, bands, band, ways_of, nodes_of.
  cbn [with_heights figures roads trees craters direction_sectors buildings
       heights points].
  rewrite (sorted_set_order hs (heights c)); [reflexivity| |exact Hp].
  apply NoDupA_Qeq_perm with (heights c); [now symmetry | exact Hset].
Qed.

Lemma intersections_same_sets (order1 order2 : list RoadPart -> list RoadPart)
    (entries : Nodes) :
  (forall l, Permutation (order1 l) l) ->
  (forall l, Permutation (order2 l) l) ->
  Forall2
    (fun e1 e2 =>
       exists ps1 ps2,
         e1 = IntersectionDraw ps1 true /\ e2 = IntersectionDraw ps2 true
         /\ Permutation ps1 ps2)
    (map (intersection_of order1) entries)
    (map (intersection_of order2) entries).
Proof.
  intros H1 H2. induction entries as [|[node parts] entries IH]; simpl;
    constructor; [|exact IH].
  exists (order1 parts), (order2 parts). unfold intersection_of. simpl.
  split; [reflexivity|]. split; [reflexivity|].
  now rewrite H1, H2.
Qed.

(** C6, as the code behaves.  [draw] does not depend on the order in
    which the set of heights is iterated: it sorts the set, and it
    iterates over no other set.  Two runs of [draw_roads] that iterate
    over the sets of road parts in the orders [order1] and [order2]
    raise the same exception or add intersections for the same nodes in
    the same order, each built from the same parts; the order of the
    parts within an intersection is the iteration order of the set. *)
Theorem drawing_up_to_order_of_part_sets
    (order1 order2 : list RoadPart -> list RoadPart) (self : Map)
    (c : Constructor) (roads : list Road) (svg : Drawing) :
  (forall l, Permutation (order1 l) l) ->
  (forall l, Permutation (order2 l) l) ->
  (forall hs,
      is_set (heights c) = true -> Permutation hs (heights c) ->
      draw self (with_heights c hs) svg = draw self c svg)
  /\ match draw_roads order1 self roads svg,
           draw_roads order2 self roads svg with
     | Ok svg1, Ok svg2 =>
         exists added1 added2 : Drawing,
           svg1 = svg ++ added1 /\ svg2 = svg ++ added2
           /\ Forall2
                (fun e1 e2 =>
                   exists ps1 ps2,
                     e1 = IntersectionDraw ps1 true
                     /\ e2 = IntersectionDraw ps2 true
                     /\ Permutation ps1 ps2)
                added1 added2
     | Raise e1, Raise e2 => e1 = e2
     | _, _ => False
     end.
Proof.
  intros H1 H2. split.
  - intros hs Hset Hp. rewrite !draw_adds.
    now rewrite drawn_heights_order.
  - unfold draw_roads.
    destruct (collect_parts self roads (0%nat, [])) as [[next nodes]|e];
      [|reflexivity].
    exists (map (intersection_of order1) (filter is_junction nodes)).
    exists (map (intersection_of order2) (filter is_junction nodes)).
    split; [apply draw_intersections_adds|].
    split; [apply draw_intersections_adds|].
    now apply intersections_same_sets.
Qed.

Lemma drawing_up_to_order_of_part_sets_witness :
  draw Crossing.self (with_heights Sample.constructor [3; 6; 9]) []
  = draw Crossing.self Sample.constructor [].
Proof.
  destruct (drawing_up_to_order_of_part_sets (fun l => l) (@rev RoadPart)
              Crossing.self Sample.constructor Crossing.four_roads [])
    as [Hdraw _].
  - intros l. reflexivity.
  - intros l. symmetry. apply Permutation_rev.
  - apply Hdraw; [reflexivity|].
    symmetry. apply (Permutation_cons_append [3; 6] 9).
Defined.

(** C6, as stated, fails for [draw_roads].  The identity and the
    reversal are two iteration orders of a set; with them the two runs on
    four roads that meet at a node add intersections whose lists of
    parts differ. *)
Lemma draw_roads_depends_on_set_order :
  (forall l : list RoadPart, Permutation (rev l) l)
  /\ draw_roads (fun l => l) Crossing.self Crossing.four_roads []
     <> draw_roads (@rev RoadPart) Crossing.self Crossing.four_roads [].
Proof.
  split.
  - intros l. symmetry. apply Permutation_rev.
  - intros H. vm_compute in H. discriminate H.
Qed.

(** * Further properties of [draw] and [draw_buildings] *)

(** ** The stages of [draw] *)

Lemma phase_block (k k' : nat) (l1 l2 : Drawing) :
  Forall (fun e => phase e = k) l1 ->
  (k <= k')%nat ->
  StronglySorted phase_le l2 /\ Forall (fun e => (k' <= phase e)%nat) l2 ->
  StronglySorted phase_le (l1 ++ l2)
  /\ Forall (fun e => (k <= phase e)%nat) (l1 ++ l2).
Proof.
  intros H1 Hk [Hs2 H2].
  assert (H2' : Forall (fun e => (k <= phase e)%nat) l2).
  { eapply Forall_impl; [|exact H2]. simpl. intros e He. lia. }
  split.
  - apply StronglySorted_app; [|exact Hs2|].
    + induction H1 as [|e l He Hl IH]; constructor; [exact IH|].
      eapply Forall_impl; [|exact Hl]. unfold phase_le. simpl.
      intros e' He'. lia.
    + rewrite Forall_forall in H1, H2'. intros x y Hx Hy.
      unfold phase_le. rewrite (H1 x Hx). now apply H2'.
  - apply Forall_app. split; [|exact H2'].
    eapply Forall_impl; [|exact H1]. simpl. intros e He. lia.
Qed.

Lemma buildings_part_phase (self : Map) (c : Constructor) :
  Forall (fun e => phase e = 6%nat) (buildings_part self c).
Proof.
  unfold buildings_part, bands, band. destruct (is_flat self).
  - apply Forall_map_all. reflexivity.
  - constructor; [reflexivity|].
    apply Forall_flat_map_all. intros [p h].
    apply Forall_app. split; apply Forall_map_all; reflexivity.
Qed.

(** X1.  [draw] adds its elements stage by stage: the background
    rectangle, the paths of the figures, the road calls, the trees, the
    craters, the direction sectors, the buildings, the main shapes of the
    points, their extra shapes, their texts.  No element of a stage comes
    before an element of an earlier stage, and [draw] adds no
    intersection ([draw_roads] is not part of it). *)
Theorem draw_adds_stage_by_stage
    (self : Map) (c : Constructor) (svg : Drawing) :
  exists added : Drawing,
    draw self c svg = svg ++ added
    /\ StronglySorted phase_le added
    /\ (forall l1 l2 l3 e1 e2,
          added = l1 ++ e1 :: l2 ++ e2 :: l3 -> (phase e1 <= phase e2)%nat)
    /\ forall parts argument, ~ In (IntersectionDraw parts argument) added.
Proof.
  exists (drawn self c). split; [apply draw_adds|].
  assert (Hs : StronglySorted phase_le (drawn self c)
               /\ Forall (fun e => (0 <= phase e)%nat) (drawn self c)).
  { unfold drawn.
    apply (phase_block 0 1 [_]); [repeat constructor | lia|].
    apply (phase_block 1 2); [apply Forall_map_all; reflexivity | lia|].
    apply (phase_block 2 3); [|lia|].
    { apply Forall_flat_map_all. intros k. unfold layer_calls.
      apply Forall_app. split; apply Forall_map_all; reflexivity. }
    apply (phase_block 3 4); [apply Forall_map_all; reflexivity | lia|].
    apply (phase_block 4 5); [apply Forall_map_all; reflexivity | lia|].
    apply (phase_block 5 6); [apply Forall_map_all; reflexivity | lia|].
    apply (phase_block 6 7); [apply buildings_part_phase | lia|].
    unfold points_part.
    apply (phase_block 7 8); [apply Forall_map_all; reflexivity | lia|].
    apply (phase_block 8 9); [apply Forall_map_all; reflexivity | lia|].
    rewrite <- (app_nil_r (if draws_texts self then _ else _)).
    apply (phase_block 9 9); [|lia|split; constructor].
    destruct (draws_texts self);
      [apply Forall_map_all; reflexivity | constructor]. }
  destruct Hs as [Hs _]. split; [exact Hs|]. split.
  - intros l1 l2 l3 e1 e2 Heq. rewrite Heq in Hs.
    now apply StronglySorted_later in Hs.
  - intros parts argument Hin.
    assert (Hk : Forall (fun e => (phase e <= 9)%nat) (drawn self c)).
    { unfold drawn. constructor; [simpl; lia|].
      apply Forall_app. split; [apply Forall_map_all; simpl; lia|].
      apply Forall_app. split.
      { apply Forall_flat_map_all. intros k. unfold layer_calls.
        apply Forall_app. split; apply Forall_map_all; simpl; lia. }
      apply Forall_app. split; [apply Forall_map_all; simpl; lia|].
      apply Forall_app. split; [apply Forall_map_all; simpl; lia|].
      apply Forall_app. split; [apply Forall_map_all; simpl; lia|].
      apply Forall_app. split.
      { eapply Forall_impl; [|apply buildings_part_phase].
        simpl. intros e He. lia. }
      unfold points_part.
      apply Forall_app. split; [apply Forall_map_all; simpl; lia|].
      apply Forall_app. split; [apply Forall_map_all; simpl; lia|].
      destruct (draws_texts self);
        [apply Forall_map_all; simpl; lia | constructor]. }
    rewrite Forall_forall in Hk. apply Hk in Hin. simpl in Hin. lia.
Qed.

(** ** The canvas is only appended to *)

(** X2.  [draw] and [draw_buildings] keep what is on the canvas, in
    place, and what they add after it is the same whatever the canvas
    holds: drawing on a canvas that starts with [before] is [before]
    followed by the drawing on the rest. *)
Theorem draw_keeps_the_canvas
    (self : Map) (c : Constructor) (before svg : Drawing) :
  draw self c (before ++ svg) = before ++ draw self c svg
  /\ draw_buildings self c (before ++ svg)
     = before ++ draw_buildings self c svg
  /\ firstn (length svg) (draw self c svg) = svg
  /\ firstn (length svg) (draw_buildings self c svg) = svg.
Proof.
  rewrite !draw_adds, !draw_buildings_adds, <- !app_assoc.
  repeat split; try reflexivity.
  - rewrite firstn_app, Nat.sub_diag, firstn_all. simpl.
    now rewrite app_nil_r.
  - rewrite firstn_app, Nat.sub_diag, firstn_all. simpl.
    now rewrite app_nil_r.
Qed.

(** ** Flat buildings *)

(** X3.  In the flat building mode [draw_buildings] adds one
    [building.draw] call per building, in the order of the list of
    buildings, and nothing else: no shade, no wall and no roof, whatever
    the set of heights is. *)
Theorem flat_buildings_drawn_once
    (self : Map) (c : Constructor) (svg : Drawing) :
  building_mode (configuration self) = FLAT ->
  draw_buildings self c svg = svg ++ map BuildingDraw (buildings c)
  /\ forall hs,
       draw_buildings self (with_heights c hs) svg = draw_buildings self c svg.
Proof.
  intros Hm.
  assert (Hf : is_flat self = true) by (unfold is_flat; now rewrite Hm).
  split.
  - rewrite draw_buildings_adds. unfold buildings_part. now rewrite Hf.
  - intros hs. rewrite !draw_buildings_adds. unfold buildings_part.
    now rewrite Hf.
Qed.

Lemma flat_buildings_drawn_once_witness :
  draw_buildings (Sample.map_ false FLAT) Sample.constructor []
  = [] ++ map BuildingDraw (buildings Sample.constructor).
Proof.
  apply (flat_buildings_drawn_once (Sample.map_ false FLAT)
           Sample.constructor []).
  reflexivity.
Defined.

(** ** Walls and roofs from the lowest band to the highest *)

Lemma combine_heights_sorted (hs : list Q) :
  StronglySorted Qlt hs ->
  forall l : list Q,
    StronglySorted (fun x y : Q * Q => snd x < snd y) (combine l hs).
Proof.
  induction 1 as [|h hs Hs IH Hh]; intros l.
  - destruct l; constructor.
  - destruct l as [|p l]; [constructor|].
    simpl. constructor; [apply IH|].
    apply Forall_forall. intros [p' h'] Hin. simpl.
    apply in_combine_r in Hin. rewrite Forall_forall in Hh. now apply Hh.
Qed.

Lemma In_band (self : Map) (c : Constructor) (p h : Q) (e : Element) :
  In e (band self c p h) ->
  (exists b s, e = DrawWalls b h p s)
  \/ (exists b s, e = DrawRoof b s /\ height b == h).
Proof.
  unfold band. rewrite in_app_iff, !in_map_iff.
  intros [(b & <- & _)|(b & <- & Hb)].
  - left. eauto.
  - right. apply filter_In in Hb. destruct Hb as [_ Hb].
    apply Qeq_bool_iff in Hb. eauto.
Qed.

Lemma band_ordered (self : Map) (c : Constructor) (p h : Q) :
  StronglySorted band_order (band self c p h).
Proof.
  unfold band. apply StronglySorted_app.
  - induction (filter (wall_spans h) (buildings c)) as [|b l IH]; simpl;
      constructor; [exact IH|].
    apply Forall_map_all. intros b'. simpl. apply Qle_refl.
  - assert (Hk : Forall (fun b => height b == h)
                   (filter (roof_at h) (buildings c))).
    { apply Forall_forall. intros b Hb. apply filter_In in Hb.
      now apply Qeq_bool_iff. }
    induction Hk as [|b l Hb Hl IH]; simpl; constructor; [exact IH|].
    apply Forall_map, Forall_forall. intros b' Hb'.
    rewrite Forall_forall in Hl. simpl. rewrite Hb, (Hl b' Hb').
    apply Qle_refl.
  - intros x y Hx Hy. apply in_map_iff in Hx, Hy.
    destruct Hx as (b1 & <- & _). destruct Hy as (b2 & <- & H2).
    apply filter_In in H2. destruct H2 as [_ H2].
    apply Qeq_bool_iff in H2. simpl. rewrite H2. apply Qle_refl.
Qed.

Lemma bands_ordered (self : Map) (c : Constructor) (hs : list Q) (p0 : Q) :
  StronglySorted Qlt hs ->
  StronglySorted band_order (bands self c p0 hs).
Proof.
  intros Hs. unfold bands.
  apply StronglySorted_flat_map
    with (RK := fun x y : Q * Q => snd x < snd y)
         (f := fun ph : Q * Q => let '(p, h) := ph in band self c p h).
  - now apply combine_heights_sorted.
  - intros [p h]. apply band_ordered.
  - intros [p1 h1] [p2 h2] x y Hlt Hx Hy. simpl in Hlt.
    apply In_band in Hx, Hy.
    destruct Hx as [(b1 & s1 & ->)|(b1 & s1 & -> & H1)],
             Hy as [(b2 & s2 & ->)|(b2 & s2 & -> & H2)]; simpl.
    + now apply Qlt_le_weak.
    + rewrite H2. now apply Qlt_le_weak.
    + now rewrite H1.
    + rewrite H1, H2. now apply Qlt_le_weak.
Qed.

(** X4.  In a building mode other than flat the wall and roof calls come
    from the lowest band to the highest: of two wall calls the later one
    is at the same or a greater height; the roof of a building comes
    after every wall call at a height up to the height of the building
    and before every wall call at a greater height, so the walls of a
    taller building are drawn over the roof of a lower one. *)
Theorem walls_and_roofs_from_low_to_high
    (self : Map) (c : Constructor) (svg : Drawing) :
  building_mode (configuration self) <> FLAT ->
  is_set (heights c) = true ->
  exists added : Drawing,
    draw_buildings self c svg = svg ++ Group (1 # 10) (buildings c) :: added
    /\ forall l1 l2 l3 e1 e2,
         added = l1 ++ e1 :: l2 ++ e2 :: l3 ->
         match e1, e2 with
         | DrawWalls _ h1 _ _, DrawWalls _ h2 _ _ => h1 <= h2
         | DrawWalls _ h1 _ _, DrawRoof b2 _ => h1 <= height b2
         | DrawRoof b1 _, DrawWalls _ h2 _ _ => height b1 < h2
         | DrawRoof b1 _, DrawRoof b2 _ => height b1 <= height b2
         | _, _ => True
         end.
Proof.
  intros Hm Hset. apply not_flat in Hm. apply is_set_NoDupA in Hset.
  exists (bands self c 0 (sorted (fun h => h) (heights c))). split.
  - rewrite draw_buildings_adds. unfold buildings_part, is_flat.
    now rewrite Hm.
  - intros l1 l2 l3 e1 e2 Heq.
    pose proof (bands_ordered self c _ 0 (sorted_set_strict _ Hset)) as Hs.
    rewrite Heq in Hs. apply StronglySorted_later in Hs. exact Hs.
Qed.

Lemma walls_and_roofs_from_low_to_high_witness :
  exists added : Drawing,
    draw_buildings (Sample.map_ false EXTRUDED) Sample.constructor []
    = [] ++ Group (1 # 10) (buildings Sample.constructor) :: added.
Proof.
  destruct (walls_and_roofs_from_low_to_high (Sample.map_ false EXTRUDED)
              Sample.constructor [])
    as (added & Hadded & _).
  - simpl. discriminate.
  - reflexivity.
  - exists added. exact Hadded.
Defined.

(** ** One roof per building *)

Lemma filter_flat_map {A B : Type} (P : B -> bool) (f : A -> list B)
    (l : list A) :
  filter P (flat_map f l) = flat_map (fun x => filter P (f x)) l.
Proof.
  induction l as [|x l IH]; simpl; [reflexivity|].
  now rewrite filter_app, IH.
Qed.

Lemma filter_map_none {A B : Type} (P : B -> bool) (g : A -> B) (l : list A) :
  (forall x, P (g x) = false) -> filter P (map g l) = [].
Proof.
  intros H. induction l as [|x l IH]; simpl; [reflexivity|].
  now rewrite H.
Qed.

Lemma filter_map_all {A B : Type} (P : B -> bool) (g : A -> B) (l : list A) :
  (forall x, P (g x) = true) -> filter P (map g l) = map g l.
Proof.
  intros H. induction l as [|x l IH]; simpl; [reflexivity|].
  now rewrite H, IH.
Qed.

Lemma flat_map_combine_snd {A B : Type} (g : A -> list B) (l : list A) :
  forall p0 : A,
    flat_map (fun ph : A * A => let '(_, h) := ph in g h) (combine (p0 :: l) l)
    = flat_map g l.
Proof.
  induction l as [|h l IH]; intros p0; [reflexivity|].
  change (combine (p0 :: h :: l) (h :: l)) with ((p0, h) :: combine (h :: l) l).
  cbn [flat_map]. now rewrite IH.
Qed.

(** The members of a list whose key is one of pairwise different numbers,
    grouped by key: nothing is lost and nothing is repeated. *)
Lemma group_new_member {A : Type} (key : A -> Q) (a : A) (l : list A)
    (keys : list Q) :
  NoDupA Qeq keys ->
  if existsb (fun k => Qeq_bool (key a) k) keys
  then Permutation
         (flat_map (fun k => filter (fun x => Qeq_bool (key x) k) (a :: l)) keys)
         (a :: flat_map (fun k => filter (fun x => Qeq_bool (key x) k) l) keys)
  else flat_map (fun k => filter (fun x => Qeq_bool (key x) k) (a :: l)) keys
       = flat_map (fun k => filter (fun x => Qeq_bool (key x) k) l) keys.
Proof.
  set (F := fun k => filter (fun x => Qeq_bool (key x) k) (a :: l)).
  set (G := fun k => filter (fun x => Qeq_bool (key x) k) l).
  induction 1 as [|k keys Hnin Hnd IH]; [reflexivity|].
  change (flat_map F (k :: keys)) with (F k ++ flat_map F keys).
  change (flat_map G (k :: keys)) with (G k ++ flat_map G keys).
  change (existsb (fun k0 => Qeq_bool (key a) k0) (k :: keys))
    with (Qeq_bool (key a) k || existsb (fun k0 => Qeq_bool (key a) k0) keys).
  assert (HF : F k = if Qeq_bool (key a) k then a :: G k else G k)
    by reflexivity.
  rewrite HF.
  destruct (Qeq_bool (key a) k) eqn:Hk; cbn [orb].
  - assert (He : existsb (fun k0 => Qeq_bool (key a) k0) keys = false).
    { destruct (existsb (fun k0 => Qeq_bool (key a) k0) keys) eqn:He;
        [|reflexivity].
      exfalso. apply Hnin. apply existsb_exists in He.
      destruct He as (k' & Hk' & Hl). apply InA_alt. exists k'.
      split; [|exact Hk'].
      apply Qeq_bool_iff in Hk, Hl. now rewrite <- Hk, <- Hl. }
    rewrite He in IH. now rewrite IH.
  - destruct (existsb (fun k0 => Qeq_bool (key a) k0) keys).
    + rewrite IH. symmetry. apply Permutation_middle.
    + now rewrite IH.
Qed.

Lemma group_by_keys {A : Type} (key : A -> Q) (l : list A) (keys : list Q) :
  NoDupA Qeq keys ->
  Permutation
    (flat_map (fun k => filter (fun x => Qeq_bool (key x) k) l) keys)
    (filter (fun x => existsb (fun k => Qeq_bool (key x) k) keys) l).
Proof.
  intros Hnd. induction l as [|a l IH].
  - simpl. clear Hnd. induction keys as [|k keys IHk]; [reflexivity|].
    exact IHk.
  - pose proof (group_new_member key a l keys Hnd) as Hnew.
    destruct (existsb (fun k => Qeq_bool (key a) k) keys) eqn:He;
      rewrite Hnew; cbn [filter]; rewrite He;
      [now constructor | exact IH].
Qed.

Lemma existsb_perm {A : Type} (P : A -> bool) (l l' : list A) :
  Permutation l l' -> existsb P l = existsb P l'.
Proof.
  intros Hp. apply eq_true_iff_eq. rewrite !existsb_exists.
  split; intros (x & Hx & HP); exists x; split; try exact HP.
  - now apply (Permutation_in _ Hp).
  - now apply (Permutation_in _ (Permutation_sym Hp)).
Qed.

Lemma roofs_of_band (self : Map) (c : Constructor) (p h : Q) :
  filter is_roof (band self c p h)
  = map (fun b => DrawRoof b (scale_of self))
        (filter (roof_at h) (buildings c)).
Proof.
  unfold band. rewrite filter_app.
  rewrite filter_map_none by reflexivity.
  now rewrite filter_map_all by reflexivity.
Qed.

(** X5.  In a building mode other than flat every building whose height
    is a member of the set of heights gets exactly one roof call, with
    the scale of the projector divided by 3, and a building whose height
    is not in the set gets none: the roof calls are, up to their order,
    the buildings with a height of the set. *)
Theorem one_roof_per_building_of_the_height_set
    (self : Map) (c : Constructor) (svg : Drawing) :
  building_mode (configuration self) <> FLAT ->
  is_set (heights c) = true ->
  exists added : Drawing,
    draw_buildings self c svg = svg ++ added
    /\ Permutation
         (filter is_roof added)
         (map (fun b => DrawRoof b (get_scale (flinger self) None / 3))
              (filter (in_heights (heights c)) (buildings c))).
Proof.
  intros Hm Hset. apply not_flat in Hm. apply is_set_NoDupA in Hset.
  exists (buildings_part self c). split; [apply draw_buildings_adds|].
  unfold buildings_part, is_flat. rewrite Hm. cbn [filter is_roof].
  unfold bands. rewrite filter_flat_map.
  rewrite (flat_map_ext _
             (fun ph : Q * Q =>
                let '(_, h) := ph in
                map (fun b => DrawRoof b (scale_of self))
                    (filter (roof_at h) (buildings c))))
    by (intros [p h]; apply roofs_of_band).
  rewrite (flat_map_combine_snd
             (fun h => map (fun b => DrawRoof b (scale_of self))
                           (filter (roof_at h) (buildings c)))).
  rewrite flat_map_map. apply Permutation_map.
  unfold roof_at.
  rewrite (group_by_keys height (buildings c)).
  - rewrite (filter_ext _ (in_heights (heights c))); [reflexivity|].
    intros b. unfold in_heights. apply existsb_perm, sorted_perm.
  - apply NoDupA_Qeq_perm with (heights c); [|exact Hset].
    symmetry. apply sorted_perm.
Qed.

Lemma one_roof_per_building_of_the_height_set_witness :
  exists added : Drawing,
    draw_buildings (Sample.map_ false EXTRUDED) Sample.constructor []
    = [] ++ added.
Proof.
  destruct (one_roof_per_building_of_the_height_set
              (Sample.map_ false EXTRUDED) Sample.constructor [])
    as (added & Hadded & _).
  - simpl. discriminate.
  - reflexivity.
  - exists added. exact Hadded.
Defined.

(** ** The occupancy tracker of the points *)

Lemma point_call_in_points_part (self : Map) (c : Constructor) (e : Element) :
  In e (drawn self c) -> is_point_call e = true -> In e (points_part self c).
Proof.
  unfold drawn. intros Hin Hp.
  assert (Hbefore :
            Forall (fun e => is_point_call e = false)
              ([Rect (0, 0) (size (flinger self)) (background_color self)]
               ++ map (path_of self) (filter (has_path self) (ways_of c))
               ++ flat_map (layer_calls (roads c)) (layers_of (roads c))
               ++ map TreeDraw (trees c) ++ map CraterDraw (craters c)
               ++ map DirectionSectorDraw (direction_sectors c)
               ++ buildings_part self c ++ [])).
  { constructor; [reflexivity|].
    apply Forall_app. split; [apply Forall_map_all; reflexivity|].
    apply roads_part_kind; [reflexivity|].
    apply middle_part_kind; try reflexivity. constructor. }
  rewrite Forall_forall in Hbefore.
  change (In e ([Rect (0, 0) (size (flinger self)) (background_color self)]
                ++ map (path_of self) (filter (has_path self) (ways_of c))
                ++ flat_map (layer_calls (roads c)) (layers_of (roads c))
                ++ map TreeDraw (trees c) ++ map CraterDraw (craters c)
                ++ map DirectionSectorDraw (direction_sectors c)
                ++ buildings_part self c ++ points_part self c)) in Hin.
  rewrite !in_app_iff in Hin.
  assert (Hnot : forall l, In e l ->
                   (forall x, In x l -> In x
                      ([Rect (0, 0) (size (flinger self))
                          (background_color self)]
               ++ map (path_of self) (filter (has_path self) (ways_of c))
               ++ flat_map (layer_calls (roads c)) (layers_of (roads c))
               ++ map TreeDraw (trees c) ++ map CraterDraw (craters c)
               ++ map DirectionSectorDraw (direction_sectors c)
               ++ buildings_part self c ++ [])) -> False).
  { intros l Hl Hincl. specialize (Hbefore e (Hincl e Hl)). congruence. }
  destruct Hin as [H|[H|[H|[H|[H|[H|[H|H]]]]]]]; try exact H; exfalso;
    apply (Hnot _ H); intros x Hx; rewrite !in_app_iff; tauto.
Qed.

(** X6.  Every call of the three passes over the points receives the
    same occupancy tracker: none when the overlap of the configuration
    is 0, and otherwise the one built from the width and the height of
    the canvas and the overlap; every text call receives the label mode
    of the configuration. *)
Theorem points_share_the_occupancy_tracker
    (self : Map) (c : Constructor) (svg : Drawing) :
  exists added : Drawing,
    draw self c svg = svg ++ added
    /\ forall e,
         In e added ->
         match e with
         | DrawMainShapes _ o | DrawExtraShapes _ o =>
             o = if (overlap (configuration self) =? 0)%Z then None
                 else Some {| occupied_width := fst (size (flinger self));
                              occupied_height := snd (size (flinger self));
                              occupied_overlap :=
                                overlap (configuration self) |}
         | DrawTexts _ o m =>
             m = label_mode (configuration self)
             /\ o = if (overlap (configuration self) =? 0)%Z then None
                    else Some {| occupied_width := fst (size (flinger self));
                                 occupied_height := snd (size (flinger self));
                                 occupied_overlap :=
                                   overlap (configuration self) |}
         | _ => True
         end.
Proof.
  exists (drawn self c). split; [apply draw_adds|].
  intros e He.
  destruct e; try exact I;
    (apply point_call_in_points_part in He; [|reflexivity]);
    unfold points_part in He; rewrite !in_app_iff, !in_map_iff in He.
  - destruct He as [(p & [= _ <-] & _)|[(p & Heq & _)|He]];
      [reflexivity | discriminate|].
    destruct (draws_texts self); [|destruct He].
    apply in_map_iff in He. destruct He as (p & Heq & _). discriminate.
  - destruct He as [(p & Heq & _)|[(p & [= _ <-] & _)|He]];
      [discriminate | reflexivity|].
    destruct (draws_texts self); [|destruct He].
    apply in_map_iff in He. destruct He as (p & Heq & _). discriminate.
  - destruct He as [(p & Heq & _)|[(p & Heq & _)|He]];
      [discriminate | discriminate|].
    destruct (draws_texts self); [|destruct He].
    apply in_map_iff in He. destruct He as (p & [= _ <- <-] & _).
    split; reflexivity.
Qed.

(** ** The background *)

(** X7.  The first element [draw] adds is the only rectangle it adds:
    it starts at the origin, has the size of the projector and is filled
    with [#111111] in wireframe mode and with the colour
    [background_color] of the scheme otherwise. *)
Theorem background_is_the_only_rectangle
    (fl : Flinger) (sch : Scheme) (cfg : MapConfiguration)
    (c : Constructor) (svg : Drawing) :
  exists rest : Drawing,
    draw (Map_init fl sch cfg) c svg
    = svg
      ++ Rect (0, 0) (size fl)
           (if is_wireframe cfg then "#111111"%string
            else get_color sch "background_color")
      :: rest
    /\ Forall (fun e => is_rect e = false) rest.
Proof.
  eexists. split.
  - rewrite draw_adds. unfold drawn. reflexivity.
  - apply Forall_app. split; [apply Forall_map_all; reflexivity|].
    apply roads_part_kind; [reflexivity|].
    apply middle_part_kind; try reflexivity.
    apply points_part_kind; reflexivity.
Qed.

(** ** The roads of a layer keep their order *)

Lemma filter_none {A : Type} (P : A -> bool) (l : list A) :
  Forall (fun x => P x = false) l -> filter P l = [].
Proof.
  induction 1 as [|x l Hx Hl IH]; simpl; [reflexivity|].
  now rewrite Hx.
Qed.

Lemma filter_map_commute {A B : Type} (P : B -> bool) (g : A -> B)
    (l : list A) :
  filter P (map g l) = map g (filter (fun x => P (g x)) l).
Proof.
  induction l as [|x l IH]; simpl; [reflexivity|].
  destruct (P (g x)); simpl; now rewrite IH.
Qed.

Lemma filter_filter {A : Type} (P Q : A -> bool) (l : list A) :
  filter P (filter Q l) = filter (fun x => P x && Q x) l.
Proof.
  induction l as [|x l IH]; simpl; [reflexivity|].
  destruct (Q x); simpl; [destruct (P x); simpl; now rewrite IH|].
  now rewrite andb_false_r.
Qed.

Lemma in_layer_congr (k k' : Q) (road : Road) :
  Qeq_bool k' k = true -> in_layer k' road = in_layer k road.
Proof.
  intros H. apply Qeq_bool_iff in H. unfold in_layer. now rewrite H.
Qed.

(** The roads of the layer [k] among the groups of pairwise different
    layers [keys]: the one group with a key equal to [k]. *)
Lemma single_layer (roads : list Road) (k : Q) (keys : list Q) :
  NoDupA Qeq keys ->
  flat_map (fun k' => filter (fun r => in_layer k r && in_layer k' r) roads)
           keys
  = if existsb (fun k' => Qeq_bool k' k) keys
    then filter (in_layer k) roads else [].
Proof.
  induction 1 as [|k' keys Hnin Hnd IH]; [reflexivity|].
  cbn [flat_map existsb]. rewrite IH.
  destruct (Qeq_bool k' k) eqn:Hk; cbn [orb].
  - replace (existsb (fun k0 => Qeq_bool k0 k) keys) with false.
    + rewrite app_nil_r. apply filter_ext. intros r.
      rewrite (in_layer_congr k k' r Hk). now destruct (in_layer k r).
    + symmetry. apply not_true_is_false. intros He.
      apply existsb_exists in He. destruct He as (k2 & Hk2 & Heq).
      apply Hnin. apply InA_alt. exists k2. split; [|exact Hk2].
      apply Qeq_bool_iff in Hk, Heq. now rewrite Hk, Heq.
  - replace (filter (fun r => in_layer k r && in_layer k' r) roads)
      with (@nil Road); [reflexivity|].
    symmetry. apply filter_none, Forall_forall. intros r _.
    destruct (in_layer k r) eqn:H1; [|reflexivity].
    destruct (in_layer k' r) eqn:H2; [|reflexivity].
    unfold in_layer in H1, H2. apply Qeq_bool_iff in H1, H2.
    assert (Heq : k' == k) by (now rewrite <- H1, <- H2).
    apply Qeq_bool_iff in Heq. congruence.
Qed.

Lemma layer_has_key (roads : list Road) (k : Q) :
  existsb (fun k' => Qeq_bool k' k) (layers_of roads) = false ->
  filter (in_layer k) roads = [].
Proof.
  intros He. apply filter_none, Forall_forall. intros r Hr.
  destruct (in_layer k r) eqn:Hk; [|reflexivity].
  pose proof (layers_of_cover roads r Hr) as Hc.
  apply existsb_exists in Hc. destruct Hc as (k' & Hk' & Hl).
  assert (Ht : existsb (fun k0 => Qeq_bool k0 k) (layers_of roads) = true).
  { apply existsb_exists. exists k'. split; [exact Hk'|].
    unfold in_layer in Hk, Hl. apply Qeq_bool_iff in Hk, Hl.
    apply Qeq_bool_iff. now rewrite <- Hl, <- Hk. }
  congruence.
Qed.

Lemma calls_of_layer (roads : list Road) (k : Q) (P : Q -> Element -> bool)
    (g : Road -> Element) :
  (forall k', filter (P k) (layer_calls roads k')
              = map g (filter (fun r => in_layer k r && in_layer k' r) roads)) ->
  filter (P k) (flat_map (layer_calls roads) (layers_of roads))
  = map g (filter (in_layer k) roads).
Proof.
  intros Hblock. rewrite filter_flat_map.
  rewrite (flat_map_ext _ _ Hblock), flat_map_map.
  rewrite single_layer.
  - destruct (existsb (fun k' => Qeq_bool k' k) (layers_of roads)) eqn:He;
      [reflexivity|].
    now rewrite (layer_has_key roads k He).
  - apply NoDupA_Qeq_perm with (dict_keys (layered_roads_of roads));
      [symmetry; apply sorted_perm | apply layered_keys].
Qed.

(** X8.  Grouping the roads by layer is stable: the border calls of the
    roads of a layer are on the canvas in the order these roads have in
    the list of roads, and so are their fill calls. *)
Theorem roads_of_a_layer_keep_their_order
    (self : Map) (c : Constructor) (svg : Drawing) :
  exists added : Drawing,
    draw self c svg = svg ++ added
    /\ forall k,
         filter (is_border_of k) added
         = map (fun r => RoadDraw r (border_color (matcher r)) (Some 2))
               (filter (fun r => Qeq_bool (layer r) k) (roads c))
         /\ filter (is_fill_of k) added
            = map (fun r => RoadDraw r (color (matcher r)) None)
                  (filter (fun r => Qeq_bool (layer r) k) (roads c)).
Proof.
  exists (drawn self c). split; [apply draw_adds|].
  intros k.
  assert (Hother : forall P : Element -> bool,
             (forall e, is_road_call e = false -> P e = false) ->
             filter P (drawn self c)
             = filter P (flat_map (layer_calls (roads c))
                           (layers_of (roads c)))).
  { intros P HP. unfold drawn. cbn [filter]. rewrite HP by reflexivity.
    rewrite !filter_app.
    rewrite (filter_map_none P (path_of self)) by (intros x; now apply HP).
    rewrite (filter_map_none P TreeDraw) by (intros x; now apply HP).
    rewrite (filter_map_none P CraterDraw) by (intros x; now apply HP).
    rewrite (filter_map_none P DirectionSectorDraw)
      by (intros x; now apply HP).
    rewrite (filter_none P (buildings_part self c))
      by (apply buildings_part_kind; intros; now apply HP).
    rewrite (filter_none P (points_part self c))
      by (apply points_part_kind; intros; now apply HP).
    simpl. now rewrite app_nil_r. }
  split.
  - rewrite Hother by (intros [] He; try reflexivity; discriminate).
    apply (calls_of_layer (roads c) k is_border_of border_call).
    intros k'. unfold layer_calls. rewrite filter_app.
    rewrite (filter_map_none _ fill_call) by reflexivity.
    rewrite app_nil_r, filter_map_commute, filter_filter. reflexivity.
  - rewrite Hother by (intros [] He; try reflexivity; discriminate).
    apply (calls_of_layer (roads c) k is_fill_of fill_call).
    intros k'. unfold layer_calls. rewrite filter_app.
    rewrite (filter_map_none _ border_call) by reflexivity.
    rewrite filter_map_commute, filter_filter. reflexivity.
Qed.

(** * Further properties of [draw_roads] *)

(** ** Roads without an outer ring *)

Lemma forallb_has_outer_false (roads : list Road) :
  forallb has_outer roads = false
  <-> exists road, In road roads /\ outers road = [].
Proof.
  split.
  - intros H. induction roads as [|road roads IH]; [discriminate|].
    simpl in H. apply andb_false_iff in H. destruct H as [H|H].
    + exists road. split; [now left|].
      unfold has_outer in H. now destruct (outers road).
    + destruct (IH H) as (r & Hr & Ho). exists r. split; [now right|].
      exact Ho.
  - intros (road & Hr & Ho).
    destruct (forallb has_outer roads) eqn:Hf; [|reflexivity].
    rewrite forallb_forall in Hf. specialize (Hf road Hr).
    unfold has_outer in Hf. now rewrite Ho in Hf.
Qed.

(** X9.  [draw_roads] raises [IndexError] exactly when a road of the
    list, at any place of the list, has no outer ring; it raises in the
    first loop, before the loop that draws.  Otherwise it returns the
    canvas it received followed by what it adds. *)
Theorem draw_roads_raises_for_a_road_without_outer_ring
    (order : list RoadPart -> list RoadPart) (self : Map)
    (roads : list Road) (svg : Drawing) :
  (draw_roads order self roads svg = Raise IndexError
   <-> exists road, In road roads /\ outers road = [])
  /\ (collect_parts self roads (0%nat, []) = Raise IndexError
      <-> exists road, In road roads /\ outers road = [])
  /\ ((forall road, In road roads -> outers road <> []) ->
      exists added : Drawing,
        draw_roads order self roads svg = Ok (svg ++ added)).
Proof.
  unfold draw_roads. rewrite collect_parts_total.
  rewrite <- forallb_has_outer_false.
  destruct (forallb has_outer roads) eqn:Hf.
  - destruct (for_ (all_segments roads) _ _) as [next nodes].
    split; [split; discriminate|]. split; [split; discriminate|].
    intros _. eexists. now rewrite draw_intersections_adds.
  - split; [split; reflexivity|]. split; [split; reflexivity|].
    intros Hall. exfalso.
    apply forallb_has_outer_false in Hf. destruct Hf as (r & Hr & Ho).
    exact (Hall r Hr Ho).
Qed.

(** ** Roads with a first ring of fewer than two nodes *)

Lemma segments_short (ring : list OSMNode) :
  (length ring < 2)%nat -> segments ring = [].
Proof.
  destruct ring as [|a [|b ring]]; simpl; intros H; try reflexivity; lia.
Qed.

Lemma all_segments_has_segment (roads : list Road) :
  all_segments (filter has_segment roads) = all_segments roads.
Proof.
  unfold all_segments.
  induction roads as [|road roads IH]; [reflexivity|].
  cbn [filter flat_map]. unfold has_segment at 1.
  destruct (Nat.leb_spec 2 (length (first_ring road))) as [Hle|Hlt].
  - cbn [flat_map]. now rewrite IH.
  - rewrite IH, (segments_short _ Hlt). reflexivity.
Qed.

Lemma forallb_filter {A : Type} (P Q : A -> bool) (l : list A) :
  forallb P l = true -> forallb P (filter Q l) = true.
Proof.
  rewrite !forallb_forall. intros H x Hx. apply filter_In in Hx.
  now apply H.
Qed.

(** X10.  A road whose first outer ring has no node or one node has no
    pair of consecutive nodes and adds nothing: when every road has an
    outer ring, leaving such roads out of the list does not change the
    result of [draw_roads], and a list of such roads only leaves the
    canvas as it is. *)
Theorem roads_without_segments_add_nothing
    (order : list RoadPart -> list RoadPart) (self : Map)
    (roads : list Road) (svg : Drawing) :
  forallb has_outer roads = true ->
  draw_roads order self (filter has_segment roads) svg
  = draw_roads order self roads svg
  /\ ((forall road, In road roads -> (length (first_ring road) < 2)%nat) ->
      draw_roads order self roads svg = Ok svg).
Proof.
  intros Houter. split.
  - unfold draw_roads. rewrite !collect_parts_total.
    rewrite Houter, (forallb_filter _ _ _ Houter).
    now rewrite all_segments_has_segment.
  - intros Hshort. unfold draw_roads. rewrite collect_parts_total, Houter.
    replace (all_segments roads) with (@nil (Road * (OSMNode * OSMNode))).
    + unfold for_. simpl. unfold draw_intersections, for_. simpl.
      reflexivity.
    + symmetry. unfold all_segments.
      induction roads as [|road roads IH]; [reflexivity|].
      simpl. rewrite (segments_short (first_ring road)).
      * simpl. apply IH.
        -- simpl in Houter. now apply andb_true_iff in Houter.
        -- intros r Hr. apply Hshort. now right.
      * apply Hshort. now left.
Qed.

Lemma roads_without_segments_add_nothing_witness :
  draw_roads (fun l => l) Crossing.self
    (filter has_segment (Lane.dead_end :: Crossing.four_roads)) []
  = draw_roads (fun l => l) Crossing.self
      (Lane.dead_end :: Crossing.four_roads) [].
Proof.
  apply (roads_without_segments_add_nothing (fun l => l) Crossing.self
           (Lane.dead_end :: Crossing.four_roads) []).
  reflexivity.
Defined.

(** ** Every part is kept, and kept once *)

Lemma parts_for_complete (self : Map) (segs : list (Road * (OSMNode * OSMNode))) :
  forall (next i : nat) (road : Road) (segment : OSMNode * OSMNode),
    nth_error segs i = Some (road, segment) ->
    In (part_1_of self road segment (next + 2 * i))
       (parts_for self (fst segment) segs next)
    /\ In (part_2_of self road segment (next + 2 * i))
          (parts_for self (snd segment) segs next).
Proof.
  induction segs as [|[road0 segment0] segs IH]; intros next i road segment;
    [destruct i; discriminate|].
  destruct i as [|i]; cbn [nth_error parts_for].
  - intros [= -> ->]. rewrite Nat.mul_0_r, Nat.add_0_r.
    rewrite !OSMNode_eqb_refl, !in_app_iff. split.
    + left. now left.
    + right. left. now left.
  - intros Hnth. destruct (IH (S (S next)) i road segment Hnth) as [H1 H2].
    replace (next + 2 * S i)%nat with (S (S next) + 2 * i)%nat by lia.
    rewrite !in_app_iff. auto.
Qed.

Lemma parts_for_sound (self : Map) (node : OSMNode)
    (segs : list (Road * (OSMNode * OSMNode))) :
  forall (next : nat) (p : RoadPart),
    In p (parts_for self node segs next) ->
    exists i road segment,
      nth_error segs i = Some (road, segment)
      /\ ((node = fst segment
           /\ p = part_1_of self road segment (next + 2 * i))
          \/ (node = snd segment
              /\ p = part_2_of self road segment (next + 2 * i))).
Proof.
  induction segs as [|[road segment] segs IH]; intros next p; [intros []|].
  cbn [parts_for]. rewrite !in_app_iff. intros [Hin|[Hin|Hin]].
  - destruct (OSMNode_eqb node (fst segment)) eqn:Hn; [|destruct Hin].
    apply OSMNode_eqb_eq in Hn. destruct Hin as [<-|[]].
    exists 0%nat, road, segment. rewrite Nat.mul_0_r, Nat.add_0_r. auto.
  - destruct (OSMNode_eqb node (snd segment)) eqn:Hn; [|destruct Hin].
    apply OSMNode_eqb_eq in Hn. destruct Hin as [<-|[]].
    exists 0%nat, road, segment. rewrite Nat.mul_0_r, Nat.add_0_r. auto.
  - destruct (IH _ _ Hin) as (i & road' & segment' & Hnth & Hp).
    exists (S i), road', segment'. split; [exact Hnth|].
    replace (next + 2 * S i)%nat with (S (S next) + 2 * i)%nat by lia.
    exact Hp.
Qed.

Lemma even_or_odd (j : nat) : exists i, j = (2 * i)%nat \/ j = S (2 * i).
Proof.
  induction j as [|j (i & [->| ->])].
  - exists 0%nat. now left.
  - exists i. now right.
  - exists (S i). left. lia.
Qed.

(** X11.  Every [RoadPart] object the first loop creates ends in the set
    of exactly one node and no set loses a part: the parts in the
    dictionary are the objects number 0 to [2 * segments - 1], each once,
    so the sizes of the sets add up to twice the number of segments. *)
Theorem every_part_is_in_one_set (self : Map) (roads : list Road) :
  forallb has_outer roads = true ->
  exists state : nat * Nodes,
    collect_parts self roads (0%nat, []) = Ok state
    /\ Permutation (map part_id (all_parts (snd state)))
                   (seq 0 (2 * length (all_segments roads)))
    /\ length (all_parts (snd state))
       = (2 * length (all_segments roads))%nat.
Proof.
  intros Houter.
  destruct (collect_parts_returns self roads Houter) as ([next nodes] & Hc).
  exists (next, nodes). split; [exact Hc|].
  apply collect_parts_spec in Hc.
  destruct Hc as (_ & Hn & (_ & Hid & Hlt) & Hp & _). cbn [fst snd] in *.
  assert (Hperm : Permutation (map part_id (all_parts nodes))
                    (seq 0 (2 * length (all_segments roads)))).
  { apply NoDup_Permutation; [exact Hid | apply seq_NoDup|].
    intros j. rewrite in_seq. split.
    - intros Hj. apply in_map_iff in Hj. destruct Hj as (p & <- & Hin).
      rewrite Forall_forall in Hlt. specialize (Hlt p Hin). lia.
    - intros [_ Hj]. simpl in Hj.
      destruct (even_or_odd j) as (i & [->| ->]).
      + destruct (nth_error (all_segments roads) i) as [[road segment]|]
          eqn:Hnth.
        * destruct (parts_for_complete self _ 0 i road segment Hnth)
            as [H1 _].
          rewrite <- Hp in H1. apply parts_at_incl in H1.
          apply in_map_iff. exists (part_1_of self road segment (0 + 2 * i)).
          split; [reflexivity | exact H1].
        * apply nth_error_None in Hnth. lia.
      + destruct (nth_error (all_segments roads) i) as [[road segment]|]
          eqn:Hnth.
        * destruct (parts_for_complete self _ 0 i road segment Hnth)
            as [_ H2].
          rewrite <- Hp in H2. apply parts_at_incl in H2.
          apply in_map_iff. exists (part_2_of self road segment (0 + 2 * i)).
          split; [reflexivity | exact H2].
        * apply nth_error_None in Hnth. lia. }
  split; [exact Hperm|].
  apply Permutation_length in Hperm.
  now rewrite length_map, length_seq in Hperm.
Qed.

Lemma every_part_is_in_one_set_witness :
  exists state : nat * Nodes,
    collect_parts Crossing.self Crossing.four_roads (0%nat, []) = Ok state
    /\ length (all_parts (snd state))
       = (2 * length (all_segments Crossing.four_roads))%nat.
Proof.
  destruct (every_part_is_in_one_set Crossing.self Crossing.four_roads)
    as (state & Hc & _ & Hlen).
  - reflexivity.
  - exists state. split; [exact Hc | exact Hlen].
Defined.

(** ** Parts come in opposite pairs *)

(** X12.  The parts in the dictionary come in opposite pairs: for every
    part in the set of a node there is another object in the set of the
    node at its other end that runs the opposite way, with the same lanes
    and the same scale (the scale at the first node of the segment for
    both). *)
Theorem every_part_has_its_opposite (self : Map) (roads : list Road) :
  forallb has_outer roads = true ->
  exists state : nat * Nodes,
    collect_parts self roads (0%nat, []) = Ok state
    /\ forall node p,
         In p (parts_at node (snd state)) ->
         exists node' q,
           In q (parts_at node' (snd state))
           /\ part_id q <> part_id p
           /\ point_1 p = fling (flinger self) (coordinates node)
           /\ point_2 p = fling (flinger self) (coordinates node')
           /\ point_1 q = point_2 p
           /\ point_2 q = point_1 p
           /\ part_lanes q = part_lanes p
           /\ part_scale q = part_scale p.
Proof.
  intros Houter.
  destruct (collect_parts_returns self roads Houter) as ([next nodes] & Hc).
  exists (next, nodes). split; [exact Hc|].
  apply collect_parts_spec in Hc.
  destruct Hc as (_ & _ & _ & Hp & _). cbn [fst snd] in *.
  intros node p Hin. rewrite Hp in Hin.
  apply parts_for_sound in Hin.
  destruct Hin as (i & road & segment & Hnth & [[-> ->]|[-> ->]]);
    destruct (parts_for_complete self _ 0 i road segment Hnth) as [H1 H2].
  - exists (snd segment), (part_2_of self road segment (0 + 2 * i)).
    rewrite Hp. split; [exact H2|]. simpl. repeat split. lia.
  - exists (fst segment), (part_1_of self road segment (0 + 2 * i)).
    rewrite Hp. split; [exact H1|]. simpl. repeat split. lia.
Qed.

Lemma every_part_has_its_opposite_witness :
  exists state : nat * Nodes,
    collect_parts Crossing.self Crossing.four_roads (0%nat, []) = Ok state.
Proof.
  destruct (every_part_has_its_opposite Crossing.self Crossing.four_roads)
    as (state & Hc & _).
  - reflexivity.
  - exists state. exact Hc.
Defined.

(** ** The intersections, from the roads alone *)

Lemma nodes_add_keys (node : OSMNode) (part : RoadPart) (nodes : Nodes) :
  dict_keys (nodes_add node part nodes) = dict_keys nodes.
Proof.
  unfold nodes_add.
  destruct (dict_get OSMNode_eqb node nodes) as [parts|] eqn:Hg;
    [|reflexivity].
  rewrite dict_keys_set. unfold dict_mem. now rewrite Hg.
Qed.

Lemma setdefault_keys (node : OSMNode) (nodes : Nodes) :
  dict_keys (setdefault node nodes) = add_key node (dict_keys nodes).
Proof.
  unfold setdefault, add_key. rewrite <- dict_mem_keys.
  destruct (dict_mem OSMNode_eqb node nodes) eqn:Hm; simpl; [reflexivity|].
  rewrite dict_keys_set. now rewrite Hm.
Qed.

Lemma add_segment_keys (self : Map) (road : Road) (a b : OSMNode)
    (state : nat * Nodes) :
  dict_keys (snd (add_segment self road (a, b) state))
  = add_key b (add_key a (dict_keys (snd state))).
Proof.
  destruct state as [next nodes].
  change (snd (add_segment self road (a, b) (next, nodes)))
    with (nodes_add b (part_2_of self road (a, b) next)
            (nodes_add a (part_1_of self road (a, b) next)
               (setdefault b (setdefault a nodes)))).
  now rewrite !nodes_add_keys, !setdefault_keys.
Qed.

Lemma segments_loop_keys (self : Map)
    (segs : list (Road * (OSMNode * OSMNode))) :
  forall state : nat * Nodes,
    dict_keys
      (snd (for_ segs (fun s => add_segment self (fst s) (snd s)) state))
    = fold_left (fun keys node => add_key node keys)
        (flat_map (fun s => [fst (snd s); snd (snd s)]) segs)
        (dict_keys (snd state)).
Proof.
  induction segs as [|[road [a b]] segs IH]; intros state; [reflexivity|].
  change (for_ ((road, (a, b)) :: segs)
            (fun s => add_segment self (fst s) (snd s)) state)
    with (for_ segs (fun s => add_segment self (fst s) (snd s))
            (add_segment self road (a, b) state)).
  rewrite IH, add_segment_keys. reflexivity.
Qed.

Lemma keys_by_first_occurrence (l : list OSMNode) :
  forall acc : list OSMNode,
    fold_left (fun keys node => add_key node keys) l acc
    = acc ++ filter (fun y => negb (existsb (OSMNode_eqb y) acc))
               (first_occurrences l).
Proof.
  induction l as [|x l IH]; intros acc; [simpl; now rewrite app_nil_r|].
  cbn [fold_left first_occurrences filter]. rewrite IH. unfold add_key.
  destruct (existsb (OSMNode_eqb x) acc) eqn:Hx; cbn [negb].
  - f_equal. rewrite filter_filter. apply filter_ext. intros y.
    destruct (existsb (OSMNode_eqb y) acc) eqn:Hy; [reflexivity|].
    destruct (OSMNode_eqb y x) eqn:Hyx; [|reflexivity].
    apply OSMNode_eqb_eq in Hyx. subst y. congruence.
  - rewrite <- app_assoc. cbn [app]. do 2 f_equal.
    rewrite filter_filter. apply filter_ext. intros y.
    rewrite existsb_app. cbn [existsb]. rewrite orb_false_r, negb_orb.
    reflexivity.
Qed.

Lemma first_occurrences_In (l : list OSMNode) (x : OSMNode) :
  In x (first_occurrences l) <-> In x l.
Proof.
  induction l as [|a l IH]; [reflexivity|].
  cbn [first_occurrences]. simpl. rewrite filter_In, IH.
  destruct (OSMNode_eq_dec a x) as [->|Hne]; [tauto|].
  split; [tauto|]. intros [H|H]; [tauto|]. right. split; [exact H|].
  apply negb_true_iff, not_true_is_false. intros He.
  apply OSMNode_eqb_eq in He. congruence.
Qed.

Lemma first_occurrences_NoDup (l : list OSMNode) : NoDup (first_occurrences l).
Proof.
  induction l as [|a l IH]; [constructor|].
  cbn [first_occurrences]. constructor.
  - rewrite filter_In. intros [_ H].
    now rewrite OSMNode_eqb_refl in H.
  - now apply NoDup_filter.
Qed.

Lemma filter_all_true {A : Type} (P : A -> bool) (l : list A) :
  (forall x, P x = true) -> filter P l = l.
Proof.
  intros H. induction l as [|x l IH]; simpl; [reflexivity|].
  now rewrite H, IH.
Qed.

(** A dictionary is the list of its keys, each with its value. *)
Lemma nodes_by_key (nodes : Nodes) :
  NoDup (dict_keys nodes) ->
  nodes = map (fun node => (node, parts_at node nodes)) (dict_keys nodes).
Proof.
  unfold dict_keys.
  induction nodes as [|[k v] nodes IH]; intros Hnd; [reflexivity|].
  simpl in Hnd. inversion_clear Hnd as [|? ? Hk Hnd'].
  cbn [map fst]. f_equal.
  - unfold parts_at. simpl. now rewrite OSMNode_eqb_refl.
  - rewrite (IH Hnd') at 1. apply map_ext_in. intros k' Hk'.
    f_equal. unfold parts_at. simpl.
    destruct (OSMNode_eqb k' k) eqn:He; [|reflexivity].
    apply OSMNode_eqb_eq in He. subst k'. contradiction.
Qed.

(** X13.  From the roads alone: when every road has an outer ring,
    [draw_roads] adds, for the different nodes of the segments in the
    order in which the roads first reach them, one intersection for each
    node where four segment ends or more meet, built from the parts that
    leave this node, and nothing for the other nodes.  It adds nothing at
    all when fewer than four segment ends meet at every node. *)
Theorem intersections_in_order_of_first_visit
    (order : list RoadPart -> list RoadPart) (self : Map)
    (roads : list Road) (svg : Drawing) :
  forallb has_outer roads = true ->
  draw_roads order self roads svg
  = Ok (svg
        ++ map (fun node =>
                  IntersectionDraw
                    (order (parts_for self node (all_segments roads) 0)) true)
               (filter (fun node => (4 <=? segment_ends node roads)%nat)
                       (first_occurrences (node_sequence roads))))
  /\ ((forall node, (segment_ends node roads < 4)%nat) ->
      draw_roads order self roads svg = Ok svg).
Proof.
  intros Houter.
  destruct (collect_parts_returns self roads Houter) as ([next nodes] & Hc).
  pose proof Hc as Hspec. apply collect_parts_spec in Hspec.
  destruct Hspec as (_ & _ & (Hk & _ & _) & Hp & _). cbn [fst snd] in *.
  assert (Hkeys : dict_keys nodes = first_occurrences (node_sequence roads)).
  { rewrite collect_parts_total, Houter in Hc. injection Hc as Hc.
    pose proof (segments_loop_keys self (all_segments roads) (0%nat, []))
      as Hloop.
    match type of Hloop with
    | dict_keys (snd ?t) = _ => set (st := t) in Hloop
    end.
    assert (Hst : st = (next, nodes)) by exact Hc.
    clearbody st. subst st. cbn [snd] in Hloop. rewrite Hloop.
    unfold node_sequence. rewrite keys_by_first_occurrence.
    cbn [app]. apply filter_all_true. reflexivity. }
  assert (Hmain :
            draw_roads order self roads svg
            = Ok (svg
                  ++ map (fun node =>
                            IntersectionDraw
                              (order (parts_for self node
                                        (all_segments roads) 0)) true)
                         (filter (fun node =>
                                    (4 <=? segment_ends node roads)%nat)
                            (first_occurrences (node_sequence roads))))).
  { unfold draw_roads. rewrite Hc, draw_intersections_adds. do 2 f_equal.
    rewrite (nodes_by_key nodes Hk) at 1.
    rewrite filter_map_commute, map_map, Hkeys.
    rewrite (filter_ext _ (fun node => (4 <=? segment_ends node roads)%nat)).
    - apply map_ext. intros node. unfold intersection_of. cbn [snd].
      now rewrite Hp.
    - intros node. rewrite is_junction_leb, Hp, parts_for_length.
      reflexivity. }
  split; [exact Hmain|].
  intros Hfew. rewrite Hmain. do 2 f_equal.
  rewrite <- (app_nil_r svg) at 2. f_equal.
  rewrite filter_none; [reflexivity|].
  apply Forall_forall. intros node _.
  apply Nat.leb_gt. apply Hfew.
Qed.

Lemma intersections_in_order_of_first_visit_witness :
  draw_roads (fun l => l) Crossing.self Crossing.four_roads []
  = Ok ([]
        ++ map (fun node =>
                  IntersectionDraw
                    (parts_for Crossing.self node
                       (all_segments Crossing.four_roads) 0) true)
               (filter (fun node =>
                          (4 <=? segment_ends node Crossing.four_roads)%nat)
                       (first_occurrences
                          (node_sequence Crossing.four_roads)))).
Proof.
  apply (intersections_in_order_of_first_visit (fun l => l) Crossing.self
           Crossing.four_roads []).
  reflexivity.
Defined.

(** * Properties of [ui] *)

(** ** The shape of a run *)

Lemma ui_unfold (w : World) (options : Options) :
  ui w options
  = do _ <- (if negb (truthy_text (boundary_box options))
                && negb (truthy_list (input_file_name options))
             then do _ <- emit (LogFatal
                                  "Specify either --boundary-box, or --input.") ;
                  stop (Exited 1)
             else ret tt) ;
    do _ <- emit (Mkdir (to_path w (cache options))) ;
    do input_file_names <-
      (if truthy_list (input_file_name options)
       then ret (map (to_path w)
                   (match input_file_name options with
                    | Some names => names
                    | None => []
                    end))
       else
         do box <- read_local "boundary_box" (local_box w options) ;
         do _ <- emit (GetOsm box (cache_file w options box)) ;
         match get_osm w box (cache_file w options box) with
         | Some message =>
             do _ <- emit (LogFatal message) ; stop (Exited 1)
         | None => ret [cache_file w options box]
         end) ;
    ui_tail w options (local_box w options) input_file_names.
Proof. reflexivity. Qed.

(** The loop over the input files reads them in order and stops at the
    first one that is not there. *)
Lemma parse_osm_files_run (w : World) (file_names : list (Path w)) :
  forall osm_data : OSMData w,
    parse_osm_files file_names osm_data
    = match first_missing file_names with
      | None =>
          (map ParseOsmFile file_names,
           inl (fold_left (parse_osm_file w) file_names osm_data))
      | Some missing =>
          (map ParseOsmFile (files_before_missing file_names)
           ++ [LogFatal ("No such file: " ++ path_str w missing ++ ".")%string],
           inr (Exited 1))
      end.
Proof.
  unfold first_missing.
  induction file_names as [|file_name rest IH]; intros osm_data;
    [reflexivity|].
  cbn [parse_osm_files find files_before_missing].
  destruct (is_file w file_name); cbn [negb]; [|reflexivity].
  unfold bind at 1 2. cbn [ret emit app]. rewrite IH.
  destruct (find _ rest); reflexivity.
Qed.

Lemma ui_tail_json (w : World) (options : Options)
    (box : option (BoundaryBox w)) (first : Path w) (rest : list (Path w)) :
  endswith (path_name w first) ".json" = true ->
  ui_tail w options box (first :: rest)
  = match box with
    | Some box =>
        ([LoadScheme; ParseJsonFile first]
         ++ finish w options (parse_json_file w first) box,
         inl tt)
    | None =>
        ([LoadScheme; ParseJsonFile first],
         inr (Raised (UnboundLocalError "boundary_box")))
    end.
Proof.
  intros Hjson. unfold ui_tail. cbn [bind emit ret app]. rewrite Hjson.
  destruct box as [box|]; reflexivity.
Qed.

Lemma ui_tail_osm (w : World) (options : Options)
    (box : option (BoundaryBox w)) (first : Path w) (rest : list (Path w)) :
  endswith (path_name w first) ".json" = false ->
  ui_tail w options box (first :: rest)
  = match first_missing (first :: rest) with
    | Some missing =>
        (LoadScheme
         :: map ParseOsmFile (files_before_missing (first :: rest))
         ++ [LogFatal ("No such file: " ++ path_str w missing ++ ".")%string],
         inr (Exited 1))
    | None =>
        let osm_data :=
          fold_left (parse_osm_file w) (first :: rest) (new_reader w) in
        match (if truthy_text (boundary_box options) then box
               else Some (view_box w osm_data)) with
        | Some box =>
            (LoadScheme :: map ParseOsmFile (first :: rest)
             ++ finish w options osm_data box,
             inl tt)
        | None =>
            (LoadScheme :: map ParseOsmFile (first :: rest),
             inr (Raised (UnboundLocalError "boundary_box")))
        end
    end.
Proof.
  intros Hjson. unfold ui_tail. cbn [bind emit ret app]. rewrite Hjson.
  rewrite parse_osm_files_run.
  destruct (first_missing (first :: rest)) as [missing|]; [reflexivity|].
  cbv zeta.
  destruct (truthy_text (boundary_box options)); [|cbn; now rewrite app_nil_r].
  destruct box as [box|]; cbn; now rewrite ?app_nil_r.
Qed.

Lemma local_box_truthy (w : World) (options : Options) :
  local_box w options
  = if truthy_text (boundary_box options)
    then option_map (from_text w) (boundary_box options) else None.
Proof.
  unfold local_box, truthy_text.
  destruct (boundary_box options) as [text|]; [|reflexivity].
  now destruct (truthy text).
Qed.

(** ** No source *)

Lemma ui_without_source_run (w : World) (options : Options) :
  truthy_text (boundary_box options) = false ->
  truthy_list (input_file_name options) = false ->
  ui w options
  = ([LogFatal "Specify either --boundary-box, or --input."],
     inr (Exited 1)).
Proof.
  intros Hbox Hinput. rewrite ui_unfold, Hbox, Hinput. reflexivity.
Qed.

(** X14.  Without a boundary box and without an input file (each absent
    or empty) [ui] logs one fatal message and exits with status 1, and
    does nothing else: no directory is created, nothing is downloaded,
    read or written. *)
Theorem ui_without_a_source (w : World) (options : Options) :
  truthy_text (boundary_box options) = false ->
  truthy_list (input_file_name options) = false ->
  ui w options
  = ([LogFatal "Specify either --boundary-box, or --input."],
     inr (Exited 1)).
Proof.
  intros Hbox Hinput. rewrite ui_unfold, Hbox, Hinput. reflexivity.
Qed.

Lemma ui_without_a_source_witness :
  ui Desk.world (Desk.options (Some ""%string) (Some []))
  = ([LogFatal "Specify either --boundary-box, or --input."],
     inr (Exited 1)).
Proof.
  apply (ui_without_a_source Desk.world
           (Desk.options (Some ""%string) (Some [])));
    reflexivity.
Defined.

Lemma first_missing_all (w : World) (file_names : list (Path w)) :
  forallb (is_file w) file_names = true -> first_missing file_names = None.
Proof.
  unfold first_missing.
  induction file_names as [|f rest IH]; simpl; [reflexivity|].
  intros H. apply andb_true_iff in H. destruct H as [-> H]. simpl. auto.
Qed.

Lemma first_missing_split (w : World) (before after : list (Path w))
    (missing : Path w) :
  forallb (is_file w) before = true -> is_file w missing = false ->
  first_missing (before ++ missing :: after) = Some missing
  /\ files_before_missing (before ++ missing :: after) = before.
Proof.
  unfold first_missing. intros Hb Hm.
  induction before as [|f before IH]; simpl.
  - rewrite Hm. simpl. auto.
  - simpl in Hb. apply andb_true_iff in Hb. destruct Hb as [Hf Hb].
    rewrite Hf. simpl. destruct (IH Hb) as [-> ->]. auto.
Qed.

Lemma ui_with_inputs (w : World) (options : Options) (name : string)
    (names : list string) :
  input_file_name options = Some (name :: names) ->
  ui w options
  = (Mkdir (to_path w (cache options))
     :: fst (ui_tail w options (local_box w options)
               (map (to_path w) (name :: names))),
     snd (ui_tail w options (local_box w options)
            (map (to_path w) (name :: names)))).
Proof.
  intros Hin. rewrite ui_unfold, Hin.
  cbn [truthy_list negb andb bind emit ret app].
  rewrite andb_false_r.
  destruct (ui_tail w options (local_box w options)
              (map (to_path w) (name :: names)));
    reflexivity.
Qed.

Lemma ui_with_download (w : World) (options : Options) (text : string) :
  truthy_list (input_file_name options) = false ->
  boundary_box options = Some text -> truthy text = true ->
  ui w options
  = match get_osm w (from_text w text)
            (cache_file w options (from_text w text)) with
    | Some message =>
        ([ Mkdir (to_path w (cache options));
           GetOsm (from_text w text) (cache_file w options (from_text w text));
           LogFatal message ],
         inr (Exited 1))
    | None =>
        (Mkdir (to_path w (cache options))
         :: GetOsm (from_text w text)
              (cache_file w options (from_text w text))
         :: fst (ui_tail w options (Some (from_text w text))
                   [cache_file w options (from_text w text)]),
         snd (ui_tail w options (Some (from_text w text))
                [cache_file w options (from_text w text)]))
    end.
Proof.
  intros Hin Hbox Htext. rewrite ui_unfold, Hin.
  unfold local_box, truthy_text. rewrite Hbox, Htext.
  cbn [negb andb]. unfold read_local, bind, emit, ret, stop.
  cbv beta iota zeta.
  destruct (get_osm w (from_text w text)
              (cache_file w options (from_text w text))); [reflexivity|].
  destruct (ui_tail w options (Some (from_text w text))
              [cache_file w options (from_text w text)]);
    reflexivity.
Qed.

(** ** Input files *)

(** X15.  With input files [ui] downloads nothing, whether a boundary
    box is given or not. *)
Theorem ui_with_input_files_downloads_nothing
    (w : World) (options : Options) :
  truthy_list (input_file_name options) = true ->
  filter is_download (fst (ui w options)) = [].
Proof.
  intros Hin. unfold truthy_list in Hin.
  destruct (input_file_name options) as [[|name names]|] eqn:Hnames;
    try discriminate.
  rewrite (ui_with_inputs w options name names Hnames).
  cbn [fst filter is_download map].
  destruct (endswith (path_name w (to_path w name)) ".json") eqn:Hjson.
  - rewrite ui_tail_json by exact Hjson.
    now destruct (local_box w options).
  - rewrite ui_tail_osm by exact Hjson.
    destruct (first_missing (to_path w name :: map (to_path w) names)).
    + cbn [fst filter is_download]. rewrite filter_app.
      rewrite filter_map_none by reflexivity. reflexivity.
    + cbv zeta.
      destruct (if truthy_text (boundary_box options) then _ else _);
        cbn [fst filter is_download]; rewrite ?filter_app;
        rewrite filter_map_none by reflexivity; reflexivity.
Qed.

Lemma ui_with_input_files_downloads_nothing_witness :
  filter is_download
    (fst (ui Desk.world
            (Desk.options (Some "1,2,3,4"%string)
               (Some ["a.osm"%string])))) = [].
Proof.
  apply (ui_with_input_files_downloads_nothing Desk.world
           (Desk.options (Some "1,2,3,4"%string) (Some ["a.osm"%string]))).
  reflexivity.
Defined.

(** X16.  When the name of the first input file ends with [.json] and no
    boundary box is given, [ui] creates the cache directory, loads the
    scheme and reads the file, and then raises [UnboundLocalError]: the
    branch reads the local variable [boundary_box], which is assigned
    only when the option is given.  Nothing is written. *)
Theorem ui_json_input_needs_a_boundary_box
    (w : World) (options : Options) (name : string) (names : list string) :
  input_file_name options = Some (name :: names) ->
  endswith (path_name w (to_path w name)) ".json" = true ->
  truthy_text (boundary_box options) = false ->
  ui w options
  = ([ Mkdir (to_path w (cache options)); LoadScheme;
       ParseJsonFile (to_path w name) ],
     inr (Raised (UnboundLocalError "boundary_box"))).
Proof.
  intros Hin Hjson Hbox.
  rewrite (ui_with_inputs w options name names Hin).
  cbn [map]. rewrite ui_tail_json by exact Hjson.
  rewrite local_box_truthy, Hbox. reflexivity.
Qed.

Lemma ui_json_input_needs_a_boundary_box_witness :
  ui Desk.world (Desk.options None (Some ["a.json"; "b.osm"]%string))
  = ([ Mkdir (to_path Desk.world "cache"); LoadScheme;
       ParseJsonFile (to_path Desk.world "a.json") ],
     inr (Raised (UnboundLocalError "boundary_box"))).
Proof.
  apply (ui_json_input_needs_a_boundary_box Desk.world
           (Desk.options None (Some ["a.json"; "b.osm"]%string))
           "a.json" ["b.osm"%string]);
    reflexivity.
Defined.

(** X17.  When the name of the first input file ends with [.json] and a
    boundary box is given, [ui] reads this file only: the other input
    files are neither looked for nor read, the projector gets the
    boundary box of the options, and the run returns after writing the
    drawing. *)
Theorem ui_json_input_reads_the_first_file_only
    (w : World) (options : Options) (name : string) (names : list string)
    (text : string) :
  input_file_name options = Some (name :: names) ->
  endswith (path_name w (to_path w name)) ".json" = true ->
  boundary_box options = Some text -> truthy text = true ->
  ui w options
  = ([ Mkdir (to_path w (cache options)); LoadScheme;
       ParseJsonFile (to_path w name); LoadIcons;
       LogInfo ("Writing output SVG to "
                ++ output_file_name options ++ "...")%string;
       WriteFile (output_file_name options)
         (drawing_of w options (parse_json_file w (to_path w name))
            (from_text w text)) ],
     inl tt).
Proof.
  intros Hin Hjson Hbox Htext.
  rewrite (ui_with_inputs w options name names Hin).
  cbn [map]. rewrite ui_tail_json by exact Hjson.
  unfold local_box. rewrite Hbox, Htext. reflexivity.
Qed.

Lemma ui_json_input_reads_the_first_file_only_witness :
  snd (ui Desk.world
         (Desk.options (Some "1,2,3,4"%string)
            (Some ["a.json"; "gone.osm"]%string)))
  = inl tt.
Proof.
  rewrite (ui_json_input_reads_the_first_file_only Desk.world
             (Desk.options (Some "1,2,3,4"%string)
                (Some ["a.json"; "gone.osm"]%string))
             "a.json" ["gone.osm"%string] "1,2,3,4");
    reflexivity.
Defined.

(** X18.  When the name of the first input file does not end with
    [.json], [ui] looks for the input files and reads them one after the
    other, in the order of the option.  When all are there it writes the
    drawing of the data of all files, in the box of the options if one
    is given and in the view box of the data otherwise, and returns.  At
    the first file that is not there it logs a fatal message with the
    name of the file and exits with status 1: the files before it were
    read, no file after it is looked for, and nothing is written. *)
Theorem ui_reads_the_input_files_in_order
    (w : World) (options : Options) (name : string) (names : list string) :
  input_file_name options = Some (name :: names) ->
  endswith (path_name w (to_path w name)) ".json" = false ->
  (forallb (is_file w) (map (to_path w) (name :: names)) = true ->
   ui w options
   = (Mkdir (to_path w (cache options)) :: LoadScheme
      :: map ParseOsmFile (map (to_path w) (name :: names))
      ++ finish w options
           (fold_left (parse_osm_file w) (map (to_path w) (name :: names))
              (new_reader w))
           (chosen_box w options
              (fold_left (parse_osm_file w) (map (to_path w) (name :: names))
                 (new_reader w))),
      inl tt))
  /\ (forall before missing after,
        map (to_path w) (name :: names) = before ++ missing :: after ->
        forallb (is_file w) before = true ->
        is_file w missing = false ->
        ui w options
        = (Mkdir (to_path w (cache options)) :: LoadScheme
           :: map ParseOsmFile before
           ++ [LogFatal
                 ("No such file: " ++ path_str w missing ++ ".")%string],
           inr (Exited 1))).
Proof.
  intros Hin Hjson.
  rewrite (ui_with_inputs w options name names Hin).
  cbn [map] in *. rewrite (ui_tail_osm _ _ _ _ _ Hjson).
  split.
  - intros Hall. rewrite (first_missing_all w _ Hall). cbv zeta.
    unfold chosen_box. rewrite local_box_truthy.
    destruct (boundary_box options) as [text|]; cbn [truthy_text option_map];
      [|reflexivity].
    destruct (truthy text); reflexivity.
  - intros before missing after Hsplit Hb Hm. rewrite Hsplit.
    destruct (first_missing_split w before after missing Hb Hm) as [-> ->].
    reflexivity.
Qed.

Lemma ui_reads_the_input_files_in_order_witness :
  ui Desk.world (Desk.options None (Some ["a.osm"; "gone.osm"; "b.osm"]%string))
  = ([ Mkdir (to_path Desk.world "cache"); LoadScheme;
       ParseOsmFile (to_path Desk.world "a.osm");
       LogFatal "No such file: gone.osm." ],
     inr (Exited 1)).
Proof.
  apply (proj2 (ui_reads_the_input_files_in_order Desk.world
                  (Desk.options None
                     (Some ["a.osm"; "gone.osm"; "b.osm"]%string))
                  "a.osm" ["gone.osm"; "b.osm"]%string eq_refl eq_refl)
           ["a.osm"%string] "gone.osm"%string ["b.osm"%string]);
    reflexivity.
Defined.

(** ** Download *)

(** X19.  With a boundary box and no input file [ui] creates the cache
    directory and downloads the data of the box into the file
    [<format of the box>.osm] of the cache directory.  When the download
    fails it logs the message of the network error and exits with status
    1; the cache directory has been created and nothing else is done.
    When it succeeds the run goes on with this file as its only input:
    it downloads once and reads no other file. *)
Theorem ui_downloads_into_the_cache
    (w : World) (options : Options) (text : string) :
  truthy_list (input_file_name options) = false ->
  boundary_box options = Some text -> truthy text = true ->
  (forall message,
      get_osm w (from_text w text) (cache_file w options (from_text w text))
      = Some message ->
      ui w options
      = ([ Mkdir (to_path w (cache options));
           GetOsm (from_text w text)
             (cache_file w options (from_text w text));
           LogFatal message ],
         inr (Exited 1)))
  /\ (get_osm w (from_text w text) (cache_file w options (from_text w text))
      = None ->
      exists t,
        fst (ui w options)
        = Mkdir (to_path w (cache options))
          :: GetOsm (from_text w text)
               (cache_file w options (from_text w text))
          :: LoadScheme :: t
        /\ filter is_download t = []
        /\ forall e,
             In e t -> is_parse e = true ->
             e = ParseOsmFile (cache_file w options (from_text w text))
             \/ e = ParseJsonFile (cache_file w options (from_text w text))).
Proof.
  intros Hin Hbox Htext.
  rewrite (ui_with_download w options text Hin Hbox Htext).
  set (box := from_text w text). set (file := cache_file w options box).
  split.
  - intros message ->. reflexivity.
  - intros ->. cbn [fst].
    destruct (endswith (path_name w file) ".json") eqn:Hjson.
    + rewrite ui_tail_json by exact Hjson.
      eexists. split; [reflexivity|]. split; [reflexivity|].
      intros e He Hp. cbn in He.
      destruct He as [<-|[<-|[<-|[<-|[]]]]]; try discriminate. now right.
    + rewrite ui_tail_osm by exact Hjson.
      unfold first_missing. cbn [find files_before_missing].
      destruct (is_file w file); cbn [negb].
      * cbv zeta.
        assert (Hbox' : truthy_text (boundary_box options) = true)
          by (unfold truthy_text; now rewrite Hbox).
        rewrite Hbox'. eexists. split; [reflexivity|].
        split; [reflexivity|].
        intros e He Hp. cbn in He.
        destruct He as [<-|[<-|[<-|[<-|[]]]]]; try discriminate. now left.
      * eexists. split; [reflexivity|]. split; [reflexivity|].
        intros e He Hp. cbn in He. destruct He as [<-|[]]. discriminate.
Qed.

Lemma ui_downloads_into_the_cache_witness :
  ui Desk.world (Desk.options (Some "0,0,0,0"%string) None)
  = ([ Mkdir (to_path Desk.world "cache");
       GetOsm (from_text Desk.world "0,0,0,0")
         (cache_file Desk.world (Desk.options (Some "0,0,0,0"%string) None)
            (from_text Desk.world "0,0,0,0"));
       LogFatal "no network" ],
     inr (Exited 1)).
Proof.
  apply (ui_downloads_into_the_cache Desk.world
           (Desk.options (Some "0,0,0,0"%string) None) "0,0,0,0");
    reflexivity.
Defined.

(** ** How a run ends *)

Lemma run_shape_cons (w : World) (options : Options) (e : Effect w)
    (t : list (Effect w)) (r : unit + Outcome) :
  is_write e = false -> run_shape w options (t, r) ->
  run_shape w options (e :: t, r).
Proof.
  unfold run_shape. cbn [fst snd]. intros He.
  destruct r as [u|[|code|ex]].
  - intros (t0 & osm_data & -> & Hw). exists (e :: t0), osm_data.
    split; [reflexivity|]. cbn [filter]. now rewrite He.
  - intros [].
  - intros (Hc & Hw & t0 & message & ->).
    split; [exact Hc|]. split; [cbn [filter]; now rewrite He|].
    now exists (e :: t0), message.
  - intros (Hex & Hw). split; [exact Hex|]. cbn [filter]. now rewrite He.
Qed.

Lemma filter_is_write_parse (w : World) (files : list (Path w)) :
  filter is_write (map (@ParseOsmFile w) files) = [].
Proof. apply filter_map_none. reflexivity. Qed.

Lemma ui_tail_shape (w : World) (options : Options) (first : Path w)
    (rest : list (Path w)) :
  run_shape w options
    (ui_tail w options (local_box w options) (first :: rest)).
Proof.
  destruct (endswith (path_name w first) ".json") eqn:Hjson.
  - rewrite ui_tail_json by exact Hjson.
    destruct (local_box w options) as [box|] eqn:Hbox.
    + unfold run_shape. cbn [fst snd].
      exists [LoadScheme; ParseJsonFile first; LoadIcons;
              LogInfo ("Writing output SVG to "
                       ++ output_file_name options ++ "...")%string],
        (parse_json_file w first).
      unfold chosen_box. rewrite Hbox. split; reflexivity.
    + unfold run_shape. cbn [fst snd]. split; reflexivity.
  - rewrite ui_tail_osm by exact Hjson.
    destruct (first_missing (first :: rest)) as [missing|].
    + unfold run_shape. cbn [fst snd]. split; [reflexivity|]. split.
      * cbn [filter is_write]. rewrite filter_app, filter_is_write_parse.
        reflexivity.
      * eexists (LoadScheme :: _), _. reflexivity.
    + cbv zeta.
      set (osm_data := fold_left (parse_osm_file w) (first :: rest)
                         (new_reader w)).
      assert (Hbox : (if truthy_text (boundary_box options)
                      then local_box w options
                      else Some (view_box w osm_data))
                     = Some (chosen_box w options osm_data)).
      { unfold chosen_box. rewrite local_box_truthy.
        destruct (boundary_box options) as [text|];
          cbn [truthy_text option_map]; [|reflexivity].
        destruct (truthy text); reflexivity. }
      rewrite Hbox. unfold run_shape. cbn [fst snd].
      exists (LoadScheme :: map ParseOsmFile (first :: rest)
              ++ [LoadIcons;
                  LogInfo ("Writing output SVG to "
                           ++ output_file_name options ++ "...")%string]),
        osm_data.
      split.
      * unfold finish. cbn [app]. rewrite <- app_assoc. reflexivity.
      * cbn [filter is_write]. rewrite filter_app, filter_is_write_parse.
        reflexivity.
Qed.

Lemma ui_shape (w : World) (options : Options) :
  run_shape w options (ui w options).
Proof.
  destruct (truthy_list (input_file_name options)) eqn:Hin.
  - unfold truthy_list in Hin.
    destruct (input_file_name options) as [[|name names]|] eqn:Hnames;
      try discriminate.
    rewrite (ui_with_inputs w options name names Hnames).
    apply run_shape_cons; [reflexivity|].
    cbn [map].
    destruct (ui_tail w options (local_box w options)
                (to_path w name :: map (to_path w) names)) eqn:Htail.
    cbn [fst snd]. rewrite <- Htail. apply ui_tail_shape.
  - destruct (truthy_text (boundary_box options)) eqn:Hbox.
    + unfold truthy_text in Hbox.
      destruct (boundary_box options) as [text|] eqn:Htext;
        [|discriminate].
      rewrite (ui_with_download w options text Hin Htext Hbox).
      assert (Hlocal : local_box w options = Some (from_text w text))
        by (unfold local_box; now rewrite Htext, Hbox).
      destruct (get_osm w (from_text w text)
                  (cache_file w options (from_text w text))) as [message|].
      * unfold run_shape. cbn [fst snd]. split; [reflexivity|].
        split; [reflexivity|].
        now exists [Mkdir (to_path w (cache options));
                    GetOsm (from_text w text)
                      (cache_file w options (from_text w text))],
          message.
      * apply run_shape_cons; [reflexivity|].
        apply run_shape_cons; [reflexivity|].
        rewrite <- Hlocal.
        destruct (ui_tail w options (local_box w options)
                    [cache_file w options (from_text w text)]) eqn:Htail.
        cbn [fst snd]. rewrite <- Htail. apply ui_tail_shape.
    + rewrite (ui_without_source_run w options Hbox Hin).
      unfold run_shape. cbn [fst snd]. split; [reflexivity|].
      split; [reflexivity|].
      now exists [], "Specify either --boundary-box, or --input."%string.
Qed.

(** X20.  A run of [ui] ends in one of three ways.  It returns, and then
    its last effect is the one write of the run, of the drawing to the
    output file.  Or it exits, always with status 1 and with a fatal
    message as its last effect, and has written nothing.  Or it raises,
    which is the [UnboundLocalError] of the variable [boundary_box], and
    has written nothing. *)
Theorem ui_writes_last_or_not_at_all (w : World) (options : Options) :
  match snd (ui w options) with
  | inl _ =>
      exists t svg,
        fst (ui w options) = t ++ [WriteFile (output_file_name options) svg]
        /\ filter is_write t = []
  | inr (Exited code) =>
      code = 1%Z
      /\ filter is_write (fst (ui w options)) = []
      /\ exists t message, fst (ui w options) = t ++ [LogFatal message]
  | inr Returned => False
  | inr (Raised e) =>
      e = UnboundLocalError "boundary_box"
      /\ filter is_write (fst (ui w options)) = []
  end.
Proof.
  pose proof (ui_shape w options) as H. unfold run_shape in H.
  destruct (snd (ui w options)) as [u|[|code|e]]; try exact H.
  destruct H as (t & osm_data & Ht & Hw). eauto.
Qed.


